(** * Document-Intelligent-AI: chunking and hybrid retrieval

A shallow embedding of the retrieval core of the repository:

- [src/chunking/chunker.py]        (class [TextChunker]),
- [src/vector_store/chroma_manager.py] (class [ChromaManager]),
- [src/qa_pipeline/retriever.py]   (class [HybridRetriever]),

and of the code around it:

- [src/qa_pipeline/query_expander.py]    (class [QueryExpander]),
- [src/embeddings/embedding_generator.py] (class [EmbeddingGenerator]),
- [src/qa_pipeline/answer_generator.py]  (class [AnswerGenerator]),
- [src/main.py]                     ([RAGPipeline.ask_question]).

Python values are modelled as follows.  A [str] is a [string]
(characters are code points below 256); an [int] is a [Z]; a [float]
score, distance or similarity is a rational [Q] (exact arithmetic, no
rounding); a [dict] with free keys is a [gmap]; the insertion-ordered
dict [result_scores] is an association list; the set [seen_texts] is a
[gset string]; a raised exception is the left injection of a sum. *)

From Stdlib Require Import ZArith QArith Lqa List Ascii String Bool Lia Sorted.
From Stdlib Require Import DecimalString.
From stdpp Require Import base option list gmap strings.
Import ListNotations.

Local Open Scope Z_scope.

(** ** Python built-ins used by the sources *)

Module Py.

(** [str.isspace] on one character; the same class is [\s] of [re] on a
    [str] pattern: TAB..CR, FS..US, SPACE, NEL and NBSP. *)
Definition is_space (c : ascii) : bool :=
  let n := N_of_ascii c in
  ((9 <=? n) && (n <=? 13) || (28 <=? n) && (n <=? 32)
   || (n =? 133) || (n =? 160))%N.

Definition is_empty (s : string) : bool :=
  match s with EmptyString => true | String _ _ => false end.

Definition starts_with_space (s : string) : bool :=
  match s with EmptyString => false | String c _ => is_space c end.

(** [s.split()]: the maximal runs of non-whitespace characters. *)
Fixpoint split (s : string) : list string :=
  match s with
  | EmptyString => []
  | String c s' =>
      if is_space c then split s'
      else match split s' with
           | w :: ws =>
               if starts_with_space s' then String c EmptyString :: w :: ws
               else String c w :: ws
           | [] => [String c EmptyString]
           end
  end.

(** [sep.join(ws)] *)
Fixpoint join (sep : string) (ws : list string) : string :=
  match ws with
  | [] => EmptyString
  | [w] => w
  | w :: rest => String.append w (String.append sep (join sep rest))
  end.

Fixpoint lstrip (s : string) : string :=
  match s with
  | EmptyString => EmptyString
  | String c s' => if is_space c then lstrip s' else s
  end.

Fixpoint rstrip (s : string) : string :=
  match s with
  | EmptyString => EmptyString
  | String c s' =>
      let r := rstrip s' in
      if is_empty r && is_space c then EmptyString else String c r
  end.

(** [s.strip()] *)
Definition strip (s : string) : string := rstrip (lstrip s).

(** [s[:n]] for a literal [n >= 0]. *)
Fixpoint prefix (n : nat) (s : string) : string :=
  match n, s with
  | S n', String c s' => String c (prefix n' s')
  | _, _ => EmptyString
  end.

(** [l[start:]] for any integer [start]: a negative [start] counts from the
    end, and the bounds are clamped. *)
Definition slice_from {A} (start : Z) (l : list A) : list A :=
  let len := Z.of_nat (length l) in
  let lo := if start <? 0 then Z.max 0 (len + start) else Z.min start len in
  drop (Z.to_nat lo) l.

(** [l[:stop]] for any integer [stop]. *)
Definition slice_to {A} (stop : Z) (l : list A) : list A :=
  let len := Z.of_nat (length l) in
  let hi := if stop <? 0 then Z.max 0 (len + stop) else Z.min stop len in
  take (Z.to_nat hi) l.

(** The truth value of a list: [if l]. *)
Definition nonempty {A} (l : list A) : bool :=
  match l with [] => false | _ :: _ => true end.

(** [enumerate(l)] *)
Definition enumerate {A} (l : list A) : list (Z * A) :=
  imap (fun i x => (Z.of_nat i, x)) l.

(** A value stored under a dict key: an [int] or a [str]. *)
Inductive value := VInt (n : Z) | VStr (s : string).

(** A metadata [dict]. *)
Abbreviation dict := (gmap string value).

End Py.

(** ** [src/chunking/chunker.py] *)

Module Chunker.

Import Py.

(** The three settings read by [TextChunker.__init__]. *)
Record Config := {
  chunk_size_words : Z;
  overlap_words : Z;
  min_chunk_size : Z
}.

Definition default_config : Config :=
  {| chunk_size_words := 600; overlap_words := 75; min_chunk_size := 100 |}.

(** A chunk dict: keys ['chunk_id'], ['text'], ['word_count'],
    ['metadata']. *)
Record Chunk := {
  chunk_id : Z;
  text : string;
  word_count : Z;
  metadata : dict
}.

(** [count_words] *)
Definition count_words (s : string) : Z := Z.of_nat (length (split s)).

Definition is_terminal (c : ascii) : bool :=
  (Ascii.eqb c "." || Ascii.eqb c "!" || Ascii.eqb c "?")%char.

Definition cons_head (c : ascii) (pieces : list string) : list string :=
  match pieces with
  | [] => [String c EmptyString]
  | p :: ps => String c p :: ps
  end.

(** [re.split(r'(?<=[.!?])\s+', text)].  A separator is a maximal run of
    whitespace that directly follows a terminal mark; [in_sep] says that
    the scan is inside such a run.  The head of the result is the piece
    under construction. *)
Fixpoint re_split_go (in_sep : bool) (s : string) : list string :=
  match s with
  | EmptyString => [EmptyString]
  | String c s' =>
      if in_sep && is_space c then re_split_go true s'
      else if is_terminal c && starts_with_space s'
           then String c EmptyString :: re_split_go true s'
           else cons_head c (re_split_go false s')
  end.

Definition re_split (s : string) : list string := re_split_go false s.

(** [split_into_sentences]:
    [[s.strip() for s in sentences if s.strip()]] *)
Definition split_into_sentences (s : string) : list string :=
  map strip (List.filter (fun p => negb (is_empty (strip p))) (re_split s)).

(** The local variables of the loop of [create_chunks]. *)
Record Loop := {
  chunks : list Chunk;
  current_chunk : list string;
  current_word_count : Z;
  chunk_index : Z
}.

Definition loop_init : Loop :=
  {| chunks := []; current_chunk := []; current_word_count := 0;
     chunk_index := 0 |}.

(** The chunk dict appended by both [chunks.append] calls;
    [metadata or {}] is [default ∅ metadata]. *)
Definition seal (st : Loop) (meta : option dict) : Chunk :=
  {| chunk_id := chunk_index st;
     text := join " " (current_chunk st);
     word_count := current_word_count st;
     metadata := default ∅ meta |}.

(** The overlap seed:
    [' '.join(current_chunk[-overlap:]) if len(current_chunk) > overlap
     else ' '.join(current_chunk)], split again into words. *)
Definition overlap_seed (cfg : Config) (cur : list string) : list string :=
  let overlap_text :=
    if Z.of_nat (length cur) >? overlap_words cfg
    then join " " (slice_from (- overlap_words cfg) cur)
    else join " " cur in
  split overlap_text.

(** One iteration of [for sentence in sentences]. *)
Definition step (cfg : Config) (meta : option dict) (st : Loop)
    (sentence : string) : Loop :=
  let sentence_words := split sentence in
  let sentence_word_count := Z.of_nat (length sentence_words) in
  let st1 :=
    if (current_word_count st + sentence_word_count >? chunk_size_words cfg)
       && nonempty (current_chunk st)
    then
      let cur := overlap_seed cfg (current_chunk st) in
      {| chunks := chunks st ++ [seal st meta];
         current_chunk := cur;
         current_word_count := Z.of_nat (length cur);
         chunk_index := chunk_index st + 1 |}
    else st in
  {| chunks := chunks st1;
     current_chunk := current_chunk st1 ++ sentence_words;
     current_word_count := current_word_count st1 + sentence_word_count;
     chunk_index := chunk_index st1 |}.

(** The state when the sentences are exhausted. *)
Definition run_loop (cfg : Config) (meta : option dict)
    (sentences : list string) : Loop :=
  fold_left (step cfg meta) sentences loop_init.

(** The final [if current_chunk and current_word_count >= min_chunk_size]. *)
Definition finish (cfg : Config) (meta : option dict) (st : Loop)
    : list Chunk :=
  if nonempty (current_chunk st)
     && (current_word_count st >=? min_chunk_size cfg)
  then chunks st ++ [seal st meta]
  else chunks st.

(** [TextChunker.create_chunks] *)
Definition create_chunks (cfg : Config) (txt : string)
    (meta : option dict) : list Chunk :=
  if is_empty (strip txt) then []
  else finish cfg meta (run_loop cfg meta (split_into_sentences txt)).

(** A page dict of the extractor: keys ['page_number'], ['text'],
    ['method'], each read with [.get] and a default. *)
Record Page := {
  page_number : option Z;
  page_text : option string;
  method : option string
}.

(** [chunk_metadata] built for one page. *)
Definition page_metadata (doc_metadata : option dict) (page : Page) : dict :=
  let base : dict :=
    <["extraction_method" := VStr (default "unknown"%string (method page))]>
      (<["page_number" := VInt (default 0 (page_number page))]> ∅) in
  match doc_metadata with
  | Some d =>
      if bool_decide (d = ∅) then base
      else
        <["filename" := default (VStr "") (d !! "filename"%string)]>
          (<["document_author" := default (VStr "") (d !! "author"%string)]>
             (<["document_title" := default (VStr "") (d !! "title"%string)]>
                base))
  | None => base
  end.

Definition set_chunk_id (i : Z) (c : Chunk) : Chunk :=
  {| chunk_id := i; text := text c; word_count := word_count c;
     metadata := metadata c |}.

(** [for i, chunk in enumerate(all_chunks): chunk['chunk_id'] = i] *)
Definition reindex (all_chunks : list Chunk) : list Chunk :=
  map (fun ic => set_chunk_id (fst ic) (snd ic)) (enumerate all_chunks).

(** The body of [for page in pages]. *)
Definition page_step (cfg : Config) (doc_metadata : option dict)
    (all_chunks : list Chunk) (page : Page) : list Chunk :=
  let txt := default EmptyString (page_text page) in
  if is_empty (strip txt) then all_chunks
  else all_chunks
         ++ create_chunks cfg txt (Some (page_metadata doc_metadata page)).

(** [TextChunker.chunk_document_pages] *)
Definition chunk_document_pages (cfg : Config) (pages : list Page)
    (doc_metadata : option dict) : list Chunk :=
  reindex (fold_left (page_step cfg doc_metadata) pages []).

End Chunker.

(** ** [src/vector_store/chroma_manager.py] and
       [src/qa_pipeline/retriever.py] *)

Module Retrieval.

Import Py.
Local Open Scope Q_scope.

(** *** Exceptions *)

(** What a call can raise: an error of the external index (or of the
    embedding behind it), or the [TypeError] of comparing [None] with a
    number. *)
Inductive exn := ExternalError (msg : string) | TypeError.

Definition raises (A : Type) : Type := exn + A.
Definition Ok {A} (a : A) : raises A := inr a.
Definition Raise {A} (e : exn) : raises A := inl e.

Definition bind {A B} (m : raises A) (k : A -> raises B) : raises B :=
  match m with
  | inl e => inl e
  | inr a => k a
  end.

Notation "'try!' x := m 'in' k" := (bind m (fun x => k))
  (at level 10, x name, m at level 100, k at level 200,
   format "'[v' 'try!'  x  :=  m  'in' '/' k ']'").

(** *** Records *)

(** A float-or-[None] value. *)
Inductive optnum := PyNone | PyNum (q : Q).

(** A result dict: keys ['id'], ['text'], ['metadata'], ['distance'] and,
    only when built by [search], ['similarity'] ([None] = key absent). *)
Record SearchResult := {
  id : string;
  text : string;
  metadata : dict;
  distance : optnum;
  similarity : option optnum
}.

(** One position of the parallel arrays ['ids'][0], ['documents'][0],
    ['metadatas'][0], ['distances'][0] of a Chroma query result. *)
Record QueryRow := {
  row_id : string;
  row_document : string;
  row_metadata : dict;
  row_distance : Q
}.

(** A Chroma query result; [has_distances] is ['distances' in results]. *)
Record QueryResult := {
  rows : list QueryRow;
  has_distances : bool
}.

(** The external collaborators: the collection queried by embedding
    ([embed_query] followed by [collection.query(query_embeddings=..)]),
    the collection queried by text ([collection.query(query_texts=..)])
    and [QueryExpander.expand_query], which catches its own errors. *)
Record Services := {
  query_embeddings : string -> Z -> raises QueryResult;
  query_texts : string -> Z -> raises QueryResult;
  expand_query : string -> list string
}.

(** The settings read by [HybridRetriever.__init__]. *)
Record Config := {
  top_k : Z;
  similarity_threshold : Q;
  use_hybrid : bool;
  semantic_weight : Q;
  keyword_weight : Q
}.

Definition default_config : Config :=
  {| top_k := 8; similarity_threshold := 3 # 10; use_hybrid := true;
     semantic_weight := 7 # 10; keyword_weight := 3 # 10 |}.

(** *** [ChromaManager.search] *)

Definition format_result (has_d : bool) (r : QueryRow) : SearchResult :=
  {| id := row_id r;
     text := row_document r;
     metadata := row_metadata r;
     distance := if has_d then PyNum (row_distance r) else PyNone;
     similarity :=
       Some (if has_d then PyNum (1 - row_distance r) else PyNone) |}.

Definition search (sv : Services) (query : string) (n_results : Z)
    : raises (list SearchResult) :=
  try! results := query_embeddings sv query n_results in
  Ok (map (format_result (has_distances results)) (rows results)).

(** *** [ChromaManager.hybrid_search] *)

(** A value of [result_scores]: keys ['result'] and ['score']. *)
Record Scored := {
  result : SearchResult;
  score : Q
}.

(** [result_scores], a dict in insertion order. *)
Definition score_table : Type := list (string * Scored).

(** [d.get(k)] *)
Fixpoint table_get (k : string) (d : score_table) : option Scored :=
  match d with
  | [] => None
  | (k', v) :: d' => if String.eqb k k' then Some v else table_get k d'
  end.

(** [d[k] = v]: an existing key keeps its position, a new key goes last. *)
Fixpoint table_set (k : string) (v : Scored) (d : score_table)
    : score_table :=
  match d with
  | [] => [(k, v)]
  | (k', v') :: d' =>
      if String.eqb k k' then (k, v) :: d' else (k', v') :: table_set k v d'
  end.

(** [1 - (i / n)] *)
Definition rank_score (i : Z) (n : nat) : Q :=
  1 - inject_Z i / inject_Z (Z.of_nat n).

(** The loop [for i, result in enumerate(semantic_results)]. *)
Definition score_semantic (semantic_results : list SearchResult)
    (semantic_weight : Q) : score_table :=
  fold_left
    (fun acc ir =>
       let semantic_score := rank_score (fst ir) (length semantic_results) in
       table_set (id (snd ir))
         {| result := snd ir; score := semantic_score * semantic_weight |}
         acc)
    (enumerate semantic_results) [].

(** The result dict built for an id that only the keyword query returned:
    no ['similarity'] key. *)
Definition keyword_only (has_d : bool) (r : QueryRow) : SearchResult :=
  {| id := row_id r;
     text := row_document r;
     metadata := row_metadata r;
     distance := if has_d then PyNum (row_distance r) else PyNone;
     similarity := None |}.

(** The loop [for i, doc_id in enumerate(keyword_results['ids'][0])]. *)
Definition add_keyword (keyword_results : QueryResult) (keyword_weight : Q)
    (result_scores : score_table) : score_table :=
  fold_left
    (fun acc ir =>
       let keyword_score :=
         rank_score (fst ir) (length (rows keyword_results)) in
       let doc_id := row_id (snd ir) in
       match table_get doc_id acc with
       | Some e =>
           table_set doc_id
             {| result := result e;
                score := score e + keyword_score * keyword_weight |} acc
       | None =>
           table_set doc_id
             {| result :=
                  keyword_only (has_distances keyword_results) (snd ir);
                score := keyword_score * keyword_weight |} acc
       end)
    (enumerate (rows keyword_results)) result_scores.

(** [sorted(l, key=key, reverse=True)]: stable, largest key first. *)
Fixpoint insert_desc {A} (key : A -> Q) (x : A) (l : list A) : list A :=
  match l with
  | [] => [x]
  | y :: l' =>
      if Qle_bool (key y) (key x) then x :: y :: l'
      else y :: insert_desc key x l'
  end.

Definition sorted_desc {A} (key : A -> Q) (l : list A) : list A :=
  fold_right (insert_desc key) [] l.

(** [result_scores] just before the sort. *)
Definition fuse (semantic_results : list SearchResult)
    (keyword_results : QueryResult) (semantic_weight keyword_weight : Q)
    : score_table :=
  add_keyword keyword_results keyword_weight
    (score_semantic semantic_results semantic_weight).

Definition hybrid_search (sv : Services) (query : string) (n_results : Z)
    (semantic_weight keyword_weight : Q) : raises (list SearchResult) :=
  let search_n := (n_results * 2)%Z in
  try! semantic_results := search sv query search_n in
  try! keyword_results := query_texts sv query search_n in
  let result_scores :=
    fuse semantic_results keyword_results semantic_weight keyword_weight in
  let ranked_results :=
    slice_to n_results (sorted_desc score (map snd result_scores)) in
  Ok (map result ranked_results).

(** *** [HybridRetriever] *)

(** [text[:100]] *)
Definition fingerprint (r : SearchResult) : string := prefix 100 (text r).

(** The loop of [deduplicate_results], with [seen_texts] threaded. *)
Fixpoint dedup_from (seen_texts : gset string) (results : list SearchResult)
    : list SearchResult :=
  match results with
  | [] => []
  | r :: rest =>
      if bool_decide (fingerprint r ∈ seen_texts)
      then dedup_from seen_texts rest
      else r :: dedup_from ({[fingerprint r]} ∪ seen_texts) rest
  end.

Definition deduplicate_results (results : list SearchResult)
    : list SearchResult :=
  dedup_from ∅ results.

(** [r.get('similarity', 0) >= threshold]; a [None] similarity cannot be
    compared and raises. *)
Definition passes_threshold (threshold : Q) (r : SearchResult)
    : raises bool :=
  match similarity r with
  | None => Ok (Qle_bool threshold 0)
  | Some (PyNum s) => Ok (Qle_bool threshold s)
  | Some PyNone => Raise TypeError
  end.

(** [filter_by_threshold]: the comprehension, evaluated left to right. *)
Fixpoint filter_by_threshold (threshold : Q) (results : list SearchResult)
    : raises (list SearchResult) :=
  match results with
  | [] => Ok []
  | r :: rest =>
      try! keep := passes_threshold threshold r in
      try! filtered := filter_by_threshold threshold rest in
      Ok (if keep then r :: filtered else filtered)
  end.

(** The sort key [x.get('similarity', 0)].  The sort runs on the output of
    [filter_by_threshold], where no similarity is [None]. *)
Definition similarity_key (r : SearchResult) : Q :=
  match similarity r with
  | Some (PyNum s) => s
  | _ => 0
  end.

(** The search of one variation. *)
Definition search_variation (sv : Services) (cfg : Config) (k : Z)
    (variation : string) : raises (list SearchResult) :=
  if use_hybrid cfg
  then hybrid_search sv variation k (semantic_weight cfg) (keyword_weight cfg)
  else search sv variation k.

(** The loop [for variation in query_variations]. *)
Fixpoint gather (sv : Services) (cfg : Config) (k : Z)
    (variations : list string) (all_results : list SearchResult)
    : raises (list SearchResult) :=
  match variations with
  | [] => Ok all_results
  | variation :: rest =>
      try! results := search_variation sv cfg k variation in
      gather sv cfg k rest (all_results ++ results)
  end.

(** [top_k or self.top_k] *)
Definition effective_k (cfg : Config) (k : option Z) : Z :=
  match k with
  | Some n => if (n =? 0)%Z then top_k cfg else n
  | None => top_k cfg
  end.

(** [HybridRetriever.retrieve_with_expansion] *)
Definition retrieve_with_expansion (sv : Services) (cfg : Config)
    (query : string) (k_arg : option Z) : raises (list SearchResult) :=
  let k := effective_k cfg k_arg in
  let query_variations := expand_query sv query in
  try! all_results := gather sv cfg k query_variations [] in
  let unique_results := deduplicate_results all_results in
  try! filtered_results :=
    filter_by_threshold (similarity_threshold cfg) unique_results in
  Ok (slice_to k (sorted_desc similarity_key filtered_results)).

(** [HybridRetriever.retrieve] *)
Definition retrieve (sv : Services) (cfg : Config) (query : string)
    (k_arg : option Z) : raises (list SearchResult) :=
  retrieve_with_expansion sv cfg query k_arg.

End Retrieval.

(** ** Further Python built-ins *)

Module PyMore.

Import Py.

(** The line feed. *)
Definition nl : string := String "010" EmptyString.

(** [str(n)] for an [int]. *)
Definition str_of_int (n : Z) : string := NilZero.string_of_int (Z.to_int n).

(** [str(v)] for a value stored under a dict key. *)
Definition str_of_value (v : value) : string :=
  match v with
  | VInt n => str_of_int n
  | VStr s => s
  end.

(** [s.split(sep)] for a separator of one character: the pieces between
    the separators, empty ones included. *)
Fixpoint split_on (sep : ascii) (s : string) : list string :=
  match s with
  | EmptyString => [EmptyString]
  | String c s' =>
      if Ascii.eqb c sep then EmptyString :: split_on sep s'
      else match split_on sep s' with
           | p :: ps => String c p :: ps
           | [] => [String c EmptyString]
           end
  end.

(** [len(l)] *)
Definition len {A} (l : list A) : Z := Z.of_nat (length l).

(** An index of a slice, clamped to the list: a negative one counts from
    the end. *)
Definition clamp_index (length index : Z) : Z :=
  if index <? 0 then Z.max 0 (length + index) else Z.min index length.

(** [l[start:stop]] for any integers [start] and [stop]. *)
Definition slice {A} (start stop : Z) (l : list A) : list A :=
  let lo := clamp_index (len l) start in
  let hi := clamp_index (len l) stop in
  take (Z.to_nat (hi - lo)) (drop (Z.to_nat lo) l).

(** The exceptions of the indexing code: a missing dict key, a bad
    argument, or an error of an external service. *)
Inductive error :=
  | KeyError (key : string)
  | ValueError (msg : string)
  | ServiceError (msg : string).

Definition fallible (A : Type) : Type := error + A.
Definition Return {A} (a : A) : fallible A := inr a.
Definition Throw {A} (e : error) : fallible A := inl e.

Definition and_then {A B} (m : fallible A) (k : A -> fallible B) : fallible B :=
  match m with
  | inl e => inl e
  | inr a => k a
  end.

Notation "'do!' x := m 'in' k" := (and_then m (fun x => k))
  (at level 10, x name, m at level 100, k at level 200,
   format "'[v' 'do!'  x  :=  m  'in' '/' k ']'").

(** [[f(x) for x in l]] where [f] may raise: the first error wins. *)
Fixpoint traverse {A B} (f : A -> fallible B) (l : list A)
    : fallible (list B) :=
  match l with
  | [] => Return []
  | x :: l' =>
      do! y := f x in
      do! ys := traverse f l' in
      Return (y :: ys)
  end.

(** [len(range(0, stop, step))] for a [step] other than 0. *)
Definition range_length (stop step : Z) : nat :=
  if 0 <? step then Z.to_nat ((stop + step - 1) / step)
  else Z.to_nat ((- stop - step - 1) / (- step)).

(** [range(0, stop, step)]: [0, step, 2 * step, ..] up to [stop]
    excluded; a [step] of 0 is a [ValueError]. *)
Definition range (stop step : Z) : fallible (list Z) :=
  if step =? 0 then Throw (ValueError "range() arg 3 must not be zero")
  else Return (map (fun j => Z.of_nat j * step)
                 (seq 0 (range_length stop step))).

End PyMore.

(** ** [src/qa_pipeline/query_expander.py] *)

Module Expander.

Import Py PyMore Retrieval.

(** The settings read by [QueryExpander.__init__]. *)
Record Settings := {
  enabled : bool;
  min_variations : Z;
  max_variations : Z
}.

Definition default_settings : Settings :=
  {| enabled := true; min_variations := 3; max_variations := 7 |}.

(** [self.model.generate_content(prompt, ..).text]: the reply of the
    language model to a prompt, or the error it raises. *)
Definition Model : Type := string -> raises string.

(** The prompt of [expand_query]. *)
Definition expansion_prompt (query : string) (num_variations : Z) : string :=
  join nl
    [ String.append "Generate "
        (String.append (str_of_int (num_variations - 1))
           " alternative phrasings of the following question. ");
      "The alternatives should:";
      "- Preserve the original meaning";
      "- Use different words and sentence structures";
      "- Include synonyms where appropriate";
      "- Be suitable for document search";
      "";
      String.append "Original question: " query;
      "";
      "Provide only the alternative questions, one per line, without numbering or explanations."
    ]%string.

(** [[line.strip() for line in text.strip().split('\n') if line.strip()]] *)
Definition parse_variations (text : string) : list string :=
  map strip
    (List.filter (fun line => negb (is_empty (strip line)))
       (split_on "010" (strip text))).

(** [max(self.min_variations, min(num_variations, self.max_variations))] *)
Definition clamp_variations (st : Settings) (num_variations : Z) : Z :=
  Z.max (min_variations st) (Z.min num_variations (max_variations st)).

(** [QueryExpander.expand_query] *)
Definition expand_query (st : Settings) (model : Model) (query : string)
    (num_variations : option Z) : list string :=
  if negb (enabled st) then [query]
  else
    let requested := default (max_variations st) num_variations in
    let num_variations := clamp_variations st requested in
    match model (expansion_prompt query num_variations) with
    | inr text =>
        let variations := parse_variations text in
        [query] ++ slice_to (num_variations - 1) variations
    | inl _ => [query]
    end.

(** [QueryExpander.get_query_variations] *)
Definition get_query_variations (st : Settings) (model : Model)
    (query : string) : list string :=
  expand_query st model query None.

(** The collaborators of [HybridRetriever] when its expander is a
    [QueryExpander] over the model. *)
Definition with_expander (st : Settings) (model : Model) (sv : Services)
    : Services :=
  {| query_embeddings := query_embeddings sv;
     query_texts := query_texts sv;
     Retrieval.expand_query := fun query => expand_query st model query None |}.

End Expander.

(** ** [src/embeddings/embedding_generator.py] *)

Module Embedding.

Import Py PyMore.

(** An embedding: a list of floats. *)
Definition vector : Type := list Q.

(** The settings read by [EmbeddingGenerator.__init__]. *)
Record Config := {
  dimension : Z;
  batch_size : Z;
  task_type : string
}.

Definition default_config : Config :=
  {| dimension := 768; batch_size := 100;
     task_type := "RETRIEVAL_DOCUMENT" |}.

(** [genai.embed_content(model=.., content=text, task_type=task)
    ['embedding']]: the embedding of a text for a task, or the error
    raised on the way. *)
Definition Api : Type := string -> string -> fallible vector.

(** [[0.0] * self.dimension] *)
Definition zero_vector (cfg : Config) : vector :=
  repeat 0%Q (Z.to_nat (dimension cfg)).

(** [task_type or self.task_type]: [None] and the empty string are
    false. *)
Definition task_or (cfg : Config) (task : option string) : string :=
  match task with
  | Some (String c s) => String c s
  | Some EmptyString | None => task_type cfg
  end.

(** [EmbeddingGenerator.generate_embedding] *)
Definition generate_embedding (cfg : Config) (api : Api) (text : string)
    (task : option string) : vector :=
  if is_empty (strip text) then zero_vector cfg
  else
    match api text (task_or cfg task) with
    | inr embedding => embedding
    | inl _ => zero_vector cfg
    end.

(** The body of [for i in iterator].  [generate_embedding] catches every
    exception itself, so the [except] clause of the batch is never
    entered. *)
Definition batch_step (cfg : Config) (api : Api) (texts : list string)
    (task : string) (embeddings : list vector) (i : Z) : list vector :=
  let batch := slice i (i + batch_size cfg) texts in
  embeddings
    ++ map (fun text => generate_embedding cfg api text (Some task)) batch.

(** [EmbeddingGenerator.generate_embeddings_batch] *)
Definition generate_embeddings_batch (cfg : Config) (api : Api)
    (texts : list string) (task : option string) : fallible (list vector) :=
  let task := task_or cfg task in
  do! iterator := range (len texts) (batch_size cfg) in
  Return (fold_left (batch_step cfg api texts task) iterator []).

(** A chunk dict as the indexing code reads it: keys ['chunk_id'],
    ['text'], ['word_count'], ['metadata'] and ['embedding'], each of
    which may be absent. *)
Record ChunkDict := {
  key_chunk_id : option value;
  key_text : option string;
  key_word_count : option value;
  key_metadata : option dict;
  key_embedding : option vector
}.

(** [chunk['text']] *)
Definition get_text (chunk : ChunkDict) : fallible string :=
  match key_text chunk with
  | Some text => Return text
  | None => Throw (KeyError "text")
  end.

(** [chunk['embedding'] = embedding] *)
Definition set_embedding (embedding : vector) (chunk : ChunkDict)
    : ChunkDict :=
  {| key_chunk_id := key_chunk_id chunk;
     key_text := key_text chunk;
     key_word_count := key_word_count chunk;
     key_metadata := key_metadata chunk;
     key_embedding := Some embedding |}.

(** [for chunk, embedding in zip(chunks, embeddings):
       chunk['embedding'] = embedding]: the chunks beyond the shorter list
    are left as they are. *)
Fixpoint attach (chunks : list ChunkDict) (embeddings : list vector)
    : list ChunkDict :=
  match chunks, embeddings with
  | chunk :: chunks', embedding :: embeddings' =>
      set_embedding embedding chunk :: attach chunks' embeddings'
  | _, _ => chunks
  end.

(** [EmbeddingGenerator.embed_chunks]: the chunk dicts are updated in
    place and the same list is returned. *)
Definition embed_chunks (cfg : Config) (api : Api) (chunks : list ChunkDict)
    : fallible (list ChunkDict) :=
  do! texts := traverse get_text chunks in
  do! embeddings :=
    generate_embeddings_batch cfg api texts (Some "RETRIEVAL_DOCUMENT"%string) in
  Return (attach chunks embeddings).

(** [EmbeddingGenerator.embed_query] *)
Definition embed_query (cfg : Config) (api : Api) (query : string) : vector :=
  generate_embedding cfg api query (Some "RETRIEVAL_QUERY"%string).

End Embedding.

(** ** [ChromaManager.add_chunks] *)

Module Store.

Import Py PyMore Embedding.

(** One position of the parallel lists [ids], [documents], [embeddings]
    and [metadatas]. *)
Record Row := {
  stored_id : string;
  stored_document : string;
  stored_embedding : vector;
  stored_metadata : dict
}.

(** The collection, as the [add] calls it has accepted, oldest first. *)
Definition Collection : Type := list (list Row).

(** The external collection: whether [collection.add] raises on a batch,
    given what it holds. *)
Definition Rejects : Type := Collection -> list Row -> option error.

(** [chunk['embedding']] *)
Definition get_embedding (chunk : ChunkDict) : fallible vector :=
  match key_embedding chunk with
  | Some embedding => Return embedding
  | None => Throw (KeyError "embedding")
  end.

(** [clean_metadata] *)
Definition clean_metadata (chunk : ChunkDict) : dict :=
  let metadata := default ∅ (key_metadata chunk) in
  <["word_count" := default (VInt 0) (key_word_count chunk)]>
    (<["filename" := default (VStr "") (metadata !! "filename"%string)]>
       (<["document_title" :=
            default (VStr "") (metadata !! "document_title"%string)]>
          (<["page_number" :=
               default (VInt 0) (metadata !! "page_number"%string)]>
             (<["chunk_id" := default (VInt 0) (key_chunk_id chunk)]> ∅)))).

(** The body of [for chunk in chunks], with the id drawn for the chunk. *)
Definition prepare_row (chunk_id : string) (chunk : ChunkDict)
    : fallible Row :=
  do! document := get_text chunk in
  do! embedding := get_embedding chunk in
  Return {| stored_id := chunk_id;
            stored_document := document;
            stored_embedding := embedding;
            stored_metadata := clean_metadata chunk |}.

(** The four lists prepared for ChromaDB; [uuid4 k] is the id drawn by
    the call of [uuid.uuid4] for the chunk at position [k]. *)
Definition prepare (uuid4 : nat -> string) (chunks : list ChunkDict)
    : fallible (list Row) :=
  traverse (fun kc => prepare_row (uuid4 (fst kc)) (snd kc))
    (imap pair chunks).

(** The slices [ids[i:batch_end]], .. of
    [for i in range(0, len(chunks), batch_size)]. *)
Definition batches (batch_size : Z) (rows : list Row)
    : fallible (list (list Row)) :=
  do! starts := range (len rows) batch_size in
  Return
    (map (fun i => slice i (Z.min (i + batch_size) (len rows)) rows) starts).

(** The [collection.add] calls, until one raises. *)
Fixpoint add_batches (rejects : Rejects) (collection : Collection)
    (pending : list (list Row)) : Collection * fallible unit :=
  match pending with
  | [] => (collection, Return tt)
  | batch :: pending' =>
      match rejects collection batch with
      | Some e => (collection, Throw e)
      | None => add_batches rejects (collection ++ [batch]) pending'
      end
  end.

(** ['embedding' in chunk] *)
Definition has_embedding (chunk : ChunkDict) : bool :=
  match key_embedding chunk with Some _ => true | None => false end.

(** [ChromaManager.add_chunks]: the collection afterwards, and whether the
    call returned or raised. *)
Definition add_chunks (cfg : Config) (api : Api) (uuid4 : nat -> string)
    (rejects : Rejects) (collection : Collection)
    (chunks : list ChunkDict) (batch_size : Z)
    : Collection * fallible unit :=
  match chunks with
  | [] => (collection, Return tt)
  | first :: _ =>
      let prepared :=
        do! chunks :=
          (if negb (has_embedding first) then embed_chunks cfg api chunks
           else Return chunks) in
        do! rows := prepare uuid4 chunks in
        batches batch_size rows in
      match prepared with
      | inl e => (collection, Throw e)
      | inr pending => add_batches rejects collection pending
      end
  end.

(** The chunk dict built by [TextChunker.create_chunks]. *)
Definition of_chunk (c : Chunker.Chunk) : ChunkDict :=
  {| key_chunk_id := Some (VInt (Chunker.chunk_id c));
     key_text := Some (Chunker.text c);
     key_word_count := Some (VInt (Chunker.word_count c));
     key_metadata := Some (Chunker.metadata c);
     key_embedding := None |}.

End Store.

(** ** [HybridRetriever.format_context],
       [src/qa_pipeline/answer_generator.py] and
       [RAGPipeline.ask_question] of [src/main.py] *)

Module Answer.

Import Py PyMore Retrieval.

(** The double quote. *)
Definition quote : string := String "034" EmptyString.

(** One entry of [context_parts]:
    [f"[Source {i+1} - {doc_title}, Page {page_num}]\n{result['text']}"] *)
Definition context_part (i : Z) (result : SearchResult) : string :=
  let metadata := metadata result in
  let page_num :=
    default (VStr "Unknown") (metadata !! "page_number"%string) in
  let doc_title :=
    default (VStr "Unknown Document") (metadata !! "document_title"%string) in
  String.append "[Source "
    (String.append (str_of_int (i + 1))
       (String.append " - "
          (String.append (str_of_value doc_title)
             (String.append ", Page "
                (String.append (str_of_value page_num)
                   (String.append "]"
                      (String.append nl (text result)))))))).

(** [HybridRetriever.format_context] *)
Definition format_context (results : list SearchResult) : string :=
  if negb (nonempty results) then "No relevant context found."%string
  else
    join (String.append nl nl)
      (map (fun ir => context_part (fst ir) (snd ir)) (enumerate results)).

(** [AnswerGenerator.create_prompt] *)
Definition create_prompt (question context : string) : string :=
  join nl
    [ "You are a helpful AI assistant that answers questions based on provided document context.";
      "";
      "INSTRUCTIONS:";
      "1. Answer the question using ONLY the information from the provided context";
      String.append "2. If the answer is not in the context, say "
        (String.append quote
           (String.append
              "I cannot answer this question based on the provided documents"
              quote));
      "3. Include specific page citations in your answer using the format [Source X, Page Y]";
      "4. Be detailed and comprehensive in your answer";
      "5. Quote relevant parts of the context when appropriate";
      "6. Do not make up information or use external knowledge";
      "";
      "CONTEXT:";
      context;
      "";
      String.append "QUESTION: " question;
      "";
      "ANSWER:"
    ]%string.




(** [self.model.generate_content(prompt, ..).text]: the text of the
    reply, or the message [str(e)] of the exception raised. *)
Inductive reply := Text (text : string) | Failed (message : string).

Definition Llm : Type := string -> reply.






End Answer.

(** * Vocabulary of the statements *)

(** ** Chunker *)

Module ChunkerSpec.

Import Py Chunker.

Fixpoint all_space (s : string) : bool :=
  match s with
  | EmptyString => true
  | String c s' => is_space c && all_space s'
  end.

Fixpoint no_space (s : string) : bool :=
  match s with
  | EmptyString => true
  | String c s' => negb (is_space c) && no_space s'
  end.

(** A word: what [split] produces, non-empty and free of whitespace. *)
Definition is_word (w : string) : bool := negb (is_empty w) && no_space w.

Fixpoint ends_with (c : ascii) (s : string) : bool :=
  match s with
  | EmptyString => false
  | String d EmptyString => Ascii.eqb d c
  | String _ s' => ends_with c s'
  end.

(** A one-word sentence terminated by a full stop. *)
Definition one_word_sentence (w : string) : bool :=
  is_word w && ends_with "." w.

(** The invariant of the data model: [word_count == len(text.split())]. *)
Definition counts_words (c : Chunk) : Prop :=
  Z.of_nat (length (split (text c))) = word_count c.

(** The loop invariant of [create_chunks]: the buffer holds words, the
    counter is its length, and every sealed chunk counts its words. *)
Record buffer_ok (st : Loop) : Prop := {
  buffer_words : Forall (fun w => is_word w = true) (current_chunk st);
  buffer_count : current_word_count st = Z.of_nat (length (current_chunk st));
  sealed_ok : Forall counts_words (chunks st)
}.

(** The chunks of one page, as [page_step] computes them. *)
Definition page_chunks (cfg : Config) (doc_metadata : option dict)
    (page : Page) : list Chunk :=
  create_chunks cfg (default EmptyString (page_text page))
    (Some (page_metadata doc_metadata page)).

(** What re-indexing leaves alone. *)
Definition body (c : Chunk) : string * Z * dict :=
  (text c, word_count c, metadata c).

(** The configuration with another [min_chunk_size]. *)
Definition with_min_chunk_size (m : Z) (cfg : Config) : Config :=
  {| chunk_size_words := chunk_size_words cfg;
     overlap_words := overlap_words cfg;
     min_chunk_size := m |}.

Definition scenario_config : Config :=
  {| chunk_size_words := 10; overlap_words := 3; min_chunk_size := 5 |}.

End ChunkerSpec.

(** ** Retrieval *)

Module RetrievalSpec.

Import Py Retrieval.
Local Open Scope Q_scope.

(** The first position of key [k] in a ranked list, with the element
    found there. *)
Fixpoint find_rank {A} (key : A -> string) (k : string) (l : list A)
    : option (nat * A) :=
  match l with
  | [] => None
  | x :: l' =>
      if String.eqb k (key x) then Some (O, x)
      else match find_rank key k l' with
           | Some (i, y) => Some (S i, y)
           | None => None
           end
  end.

(** What a ranked list adds to the score of id [k]: the rank-normalised
    score of [k] times the weight of the list, and nothing when [k] is not
    in the list. *)
Definition contribution {A} (key : A -> string) (weight : Q) (l : list A)
    (k : string) : Q :=
  match find_rank key k l with
  | Some (i, _) => rank_score (Z.of_nat i) (length l) * weight
  | None => 0
  end.

(** The query result of a successful call, [] for a failed one. *)
Definition rows_or_nil (r : raises QueryResult) : list QueryRow :=
  match r with
  | inr q => rows q
  | inl _ => []
  end.

(** The sum, over the semantic and keyword lists of every variation, of
    the contribution of the list to id [k]. *)
Definition accumulated_score (sv : Services) (cfg : Config)
    (query : string) (k_arg : option Z) (k : string) : Q :=
  let n := (effective_k cfg k_arg * 2)%Z in
  fold_right Qplus 0
    (map (fun variation =>
            contribution row_id (semantic_weight cfg)
              (rows_or_nil (query_embeddings sv variation n)) k
            + contribution row_id (keyword_weight cfg)
                (rows_or_nil (query_texts sv variation n)) k)
       (expand_query sv query)).

(** The entry of id [k] in [result_scores] of the hybrid search of one
    variation, if the two queries succeed and the id is there. *)
Definition instance_of (sv : Services) (cfg : Config) (n : Z)
    (k : string) (variation : string) : option Scored :=
  match search sv variation (n * 2)%Z, query_texts sv variation (n * 2)%Z with
  | inr semantic_results, inr keyword_results =>
      table_get k
        (fuse semantic_results keyword_results (semantic_weight cfg)
           (keyword_weight cfg))
  | _, _ => None
  end.

(** The scored instances of id [k], one for each variation that has it. *)
Definition instances (sv : Services) (cfg : Config) (query : string)
    (k_arg : option Z) (k : string) : list Scored :=
  omap (instance_of sv cfg (effective_k cfg k_arg) k)
    (expand_query sv query).

(** An instance with the largest score (the first, among equals). *)
Fixpoint highest_scoring (l : list Scored) : option Scored :=
  match l with
  | [] => None
  | e :: l' =>
      match highest_scoring l' with
      | Some e' => if Qle_bool (score e') (score e) then Some e else Some e'
      | None => Some e
      end
  end.

(** The steps of [retrieve_with_expansion] after the search loop. *)
Definition rank_results (cfg : Config) (k : Z)
    (all_results : list SearchResult) : raises (list SearchResult) :=
  try! filtered_results :=
    filter_by_threshold (similarity_threshold cfg)
      (deduplicate_results all_results) in
  Ok (slice_to k (sorted_desc similarity_key filtered_results)).

(** The semantic loop, for any normalising length and any start table. *)
Definition semantic_loop (n : nat) (weight : Q)
    (l : list (Z * SearchResult)) (acc : score_table) : score_table :=
  fold_left
    (fun acc ir =>
       table_set (id (snd ir))
         {| result := snd ir; score := rank_score (fst ir) n * weight |} acc)
    l acc.

(** The keyword loop, likewise. *)
Definition keyword_loop (n : nat) (has_d : bool) (weight : Q)
    (l : list (Z * QueryRow)) (acc : score_table) : score_table :=
  fold_left
    (fun acc ir =>
       match table_get (row_id (snd ir)) acc with
       | Some e =>
           table_set (row_id (snd ir))
             {| result := result e;
                score := score e + rank_score (fst ir) n * weight |} acc
       | None =>
           table_set (row_id (snd ir))
             {| result := keyword_only has_d (snd ir);
                score := rank_score (fst ir) n * weight |} acc
       end)
    l acc.

(** Largest key first. *)
Definition descending {A} (key : A -> Q) : list A -> Prop :=
  StronglySorted (fun x y => key y <= key x).

(** An entry of [result_scores] holds, under its own id, either a record of
    the semantic list or a record built by the keyword loop. *)
Definition entry_origin (semantic_results : list SearchResult)
    (keyword_results : QueryResult) (ke : string * Scored) : Prop :=
  id (result (snd ke)) = fst ke
  /\ (In (result (snd ke)) semantic_results
      \/ exists r, In r (rows keyword_results)
           /\ result (snd ke) = keyword_only (has_distances keyword_results) r).

(** *** The claims C1, C2 and C3 as they are stated *)

(** C1 as stated: the combined score read off a returned candidate is the
    score accumulated over all variant lists. *)
Definition scores_accumulate_across_variants
    (score_of : SearchResult -> Q) (sv : Services) (cfg : Config)
    (query : string) (k_arg : option Z) : Prop :=
  forall out r,
    retrieve sv cfg query k_arg = Ok out -> In r out ->
    score_of r == accumulated_score sv cfg query k_arg (id r).

(** C2 as stated: the search results of the variations that do not fail,
    in order. *)
Definition surviving_results (sv : Services) (cfg : Config) (k : Z)
    (variations : list string) : list SearchResult :=
  concat (map (fun variation =>
                 match search_variation sv cfg k variation with
                 | inr results => results
                 | inl _ => []
                 end) variations).

Definition failures_are_isolated (sv : Services) (cfg : Config)
    (query : string) (k_arg : option Z) : Prop :=
  retrieve sv cfg query k_arg =
  rank_results cfg (effective_k cfg k_arg)
    (surviving_results sv cfg (effective_k cfg k_arg)
       (expand_query sv query)).

(** C3 as stated: each returned candidate has a similarity, the one of the
    highest-scoring instance of its id. *)
Definition similarity_of_highest_scoring (sv : Services) (cfg : Config)
    (query : string) (k_arg : option Z) : Prop :=
  forall out r,
    retrieve sv cfg query k_arg = Ok out -> In r out ->
    exists s e,
      similarity r = Some s
      /\ highest_scoring (instances sv cfg query k_arg (id r)) = Some e
      /\ similarity (result e) = Some s.

(** *** Concrete indexes *)

Definition row (i txt : string) (d : Q) : QueryRow :=
  {| row_id := i; row_document := txt; row_metadata := ∅;
     row_distance := d |}.

Definition found (l : list QueryRow) : raises QueryResult :=
  Ok {| rows := l; has_distances := true |}.

(** One stored passage; the query ["twice"] is expanded into two
    variations, any other query is left alone. *)
Definition one_passage : Services :=
  {| query_embeddings := fun _ _ => found [row "a" "alpha" (1 # 10)];
     query_texts := fun _ _ => found [row "a" "alpha" (1 # 10)];
     expand_query := fun q =>
       if String.eqb q "twice" then [q; "again"%string] else [q] |}.

(** The index is down for the variation ["down"]. *)
Definition one_variation_down : Services :=
  {| query_embeddings := fun q _ =>
       if String.eqb q "down" then Raise (ExternalError "index unavailable")
       else found [row "a" "alpha" (1 # 10)];
     query_texts := fun _ _ => found [];
     expand_query := fun q => [q; "down"%string] |}.

(** Passage ["a"] is second for the original query and first, with a
    higher similarity, for its rephrasing. *)
Definition two_rankings : Services :=
  {| query_embeddings := fun q _ =>
       if String.eqb q "rephrased"
       then found [row "a" "alpha" (1 # 10)]
       else found [row "b" "beta" (1 # 10); row "a" "alpha" (1 # 2)];
     query_texts := fun _ _ => found [];
     expand_query := fun q => [q; "rephrased"%string] |}.

(** The keyword query also finds passage ["c"], which the embedding query
    does not return. *)
Definition keyword_finds_more : Services :=
  {| query_embeddings := fun _ _ => found [row "a" "alpha" (1 # 10)];
     query_texts := fun _ _ =>
       found [row "c" "gamma" (1 # 5); row "a" "alpha" (1 # 10)];
     expand_query := fun q => [q] |}.

(** The default settings with the threshold set to 0. *)
Definition no_threshold : Config :=
  {| top_k := 8; similarity_threshold := 0; use_hybrid := true;
     semantic_weight := 7 # 10; keyword_weight := 3 # 10 |}.

End RetrievalSpec.

(** ** Chunker: the chunks as lists of words *)

Module ChunkerTrace.

Import Py Chunker ChunkerSpec.

(** The words of a chunk: [chunk['text'].split()]. *)
Definition chunk_words (c : Chunk) : list string := split (text c).

(** The words kept from a sealed buffer [ws] as the start of the next one:
    [ws[-overlap_words:]] when [len(ws) > overlap_words], else [ws]. *)
Definition seed_of (cfg : Config) (ws : list string) : list string :=
  if Z.of_nat (length ws) >? overlap_words cfg
  then slice_from (- overlap_words cfg) ws
  else ws.

(** [next] starts with the seed taken from [prev] and goes on with at least
    one more word. *)
Definition overlaps (cfg : Config) (prev next : list string) : Prop :=
  exists rest, rest <> [] /\ next = seed_of cfg prev ++ rest.

(** Each list overlaps the one before it. *)
Fixpoint chained (cfg : Config) (l : list (list string)) : Prop :=
  match l with
  | [] => True
  | a :: r =>
      match r with
      | [] => True
      | b :: _ => overlaps cfg a b
      end
      /\ chained cfg r
  end.

(** The words of the lists after [prev], each without the seed it repeats. *)
Fixpoint fresh_after (cfg : Config) (prev : list string)
    (l : list (list string)) : list string :=
  match l with
  | [] => []
  | w :: r => drop (length (seed_of cfg prev)) w ++ fresh_after cfg w r
  end.

(** The words of a sequence of chunks with the repeated seeds left out. *)
Definition fresh_words (cfg : Config) (l : list (list string))
    : list string :=
  match l with
  | [] => []
  | w :: r => w ++ fresh_after cfg w r
  end.

(** The sealed chunks followed by the buffer, as lists of words. *)
Definition trace (st : Loop) : list (list string) :=
  map chunk_words (chunks st) ++ [current_chunk st].

(** What the loop of [create_chunks] keeps true after the sentences whose
    words are [done]. *)
Record trace_ok (cfg : Config) (done : list string) (st : Loop) : Prop := {
  trace_buffer : buffer_ok st;
  trace_index : chunk_index st = Z.of_nat (length (chunks st));
  trace_ids :
    map chunk_id (chunks st) = map Z.of_nat (seq 0 (length (chunks st)));
  trace_nonempty : Forall (fun c => chunk_words c <> []) (chunks st);
  trace_chain : chained cfg (trace st);
  trace_fresh : fresh_words cfg (trace st) = done
}.

(** The bound kept on every count when no sentence has more than [longest]
    words. *)
Definition size_bound (cfg : Config) (longest : Z) : Z :=
  Z.max (chunk_size_words cfg) (overlap_words cfg + longest).

End ChunkerTrace.

(** ** The buffer at the end of the text, as words *)

Module ChunkerTail.

Import Py Chunker ChunkerSpec ChunkerTrace.

(** The chunk dict that [create_chunks] appends for a buffer of words:
    the words joined by blanks, and their number. *)
Definition chunk_of (i : Z) (buffer : list string) (meta : option dict)
    : Chunk :=
  {| chunk_id := i;
     text := join " " buffer;
     word_count := Z.of_nat (length buffer);
     metadata := default ∅ meta |}.

(** The words of a buffer that no chunk before it holds: those after the
    seed taken from the last chunk, all of them when there is no chunk. *)
Definition new_words (cfg : Config) (sealed : list Chunk)
    (buffer : list string) : list string :=
  match last sealed with
  | Some c => drop (length (seed_of cfg (chunk_words c))) buffer
  | None => buffer
  end.

(** The buffer that starts after the chunks [sealed] and adds the words
    [added]. *)
Definition buffer_after (cfg : Config) (sealed : list Chunk)
    (added : list string) : list string :=
  match last sealed with
  | Some c => seed_of cfg (chunk_words c) ++ added
  | None => added
  end.

End ChunkerTail.

(** ** Retrieval: settings and tables *)

Module RetrievalMore.

Import Py Retrieval RetrievalSpec.
Local Open Scope Q_scope.

(** The settings with another [similarity_threshold]. *)
Definition with_threshold (threshold : Q) (cfg : Config) : Config :=
  {| top_k := top_k cfg;
     similarity_threshold := threshold;
     use_hybrid := use_hybrid cfg;
     semantic_weight := semantic_weight cfg;
     keyword_weight := keyword_weight cfg |}.

(** The keys of [result_scores], in insertion order. *)
Definition table_keys (d : score_table) : list string := map fst d.

(** [ranked_results] of [hybrid_search]: the entries of [result_scores]
    sorted by score and cut to [n_results]. *)
Definition ranked_entries (semantic_results : list SearchResult)
    (keyword_results : QueryResult) (n_results : Z) (sw kw : Q)
    : list Scored :=
  slice_to n_results
    (sorted_desc score
       (map snd (fuse semantic_results keyword_results sw kw))).

(** An index without any passage. *)
Definition empty_index : Services :=
  {| query_embeddings := fun _ _ => found [];
     query_texts := fun _ _ => found [];
     expand_query := fun q => [q; String.append q "?"] |}.

End RetrievalMore.

(** ** Query expansion *)

Module ExpanderSpec.

Import Py PyMore Retrieval Expander.

(** [c in s] for a character. *)
Fixpoint has_char (c : ascii) (s : string) : bool :=
  match s with
  | EmptyString => false
  | String d s' => Ascii.eqb d c || has_char c s'
  end.

(** A model that answers every prompt with three lines, one of them
    blank. *)
Definition three_lines : Model :=
  fun _ =>
    Ok (join nl ["  What is alpha? "; "   "; "Tell me about alpha"]%string).

(** A model that is out of service. *)
Definition unreachable : Model :=
  fun _ => Raise (ExternalError "quota exceeded").

(** [lines] are the lines of [text]: the pieces between its line
    feeds. *)
Definition lines_of (lines : list string) (text : string) : Prop :=
  join nl lines = text
  /\ lines <> []
  /\ Forall (fun line => has_char "010" line = false) lines.

(** A line that is not blank. *)
Definition not_blank (line : string) : bool := negb (is_empty (strip line)).

End ExpanderSpec.

(** ** Indexing *)

Module IndexingSpec.

Import Py PyMore Embedding Store.

(** ['text' in chunk] *)
Definition has_text (chunk : ChunkDict) : bool :=
  match key_text chunk with Some _ => true | None => false end.

(** The text of a chunk that has one. *)
Definition text_of (chunk : ChunkDict) : string :=
  default EmptyString (key_text chunk).

(** The embedding of a chunk that has one. *)
Definition embedding_of (chunk : ChunkDict) : vector :=
  default [] (key_embedding chunk).

(** The embedding that [embed_chunks] requests for a text. *)
Definition document_embedding (cfg : Config) (api : Api) (text : string)
    : vector :=
  generate_embedding cfg api text (Some "RETRIEVAL_DOCUMENT"%string).

(** The row of the chunk at position [k], with a new embedding. *)
Definition fresh_row (cfg : Config) (api : Api) (uuid4 : nat -> string)
    (k : nat) (chunk : ChunkDict) : Row :=
  {| stored_id := uuid4 k;
     stored_document := text_of chunk;
     stored_embedding := document_embedding cfg api (text_of chunk);
     stored_metadata := clean_metadata chunk |}.

(** The row of the chunk at position [k], with the embedding it has. *)
Definition kept_row (uuid4 : nat -> string) (k : nat) (chunk : ChunkDict)
    : Row :=
  {| stored_id := uuid4 k;
     stored_document := text_of chunk;
     stored_embedding := embedding_of chunk;
     stored_metadata := clean_metadata chunk |}.

(** A collection that accepts every batch. *)
Definition accepts : Rejects := fun _ _ => None.

(** The error of [range] on a step of 0. *)
Definition zero_step : error := ValueError "range() arg 3 must not be zero".

(** A chunk dict with a text only, and one with an embedding too. *)
Definition bare (text : string) : ChunkDict :=
  {| key_chunk_id := None; key_text := Some text; key_word_count := None;
     key_metadata := None; key_embedding := None |}.

Definition embedded (text : string) (embedding : vector) : ChunkDict :=
  set_embedding embedding (bare text).

(** Small settings, an embedding service and ids for the examples. *)
Definition pairs : Config :=
  {| dimension := 2; batch_size := 2; task_type := "RETRIEVAL_DOCUMENT" |}.

Definition with_batch_size (n : Z) (cfg : Config) : Config :=
  {| dimension := dimension cfg; batch_size := n;
     task_type := task_type cfg |}.

Definition by_length : Api :=
  fun text _ => Return [inject_Z (Z.of_nat (String.length text)); 1%Q].

Definition numbered (k : nat) : string :=
  String.append "id-" (str_of_int (Z.of_nat k)).

End IndexingSpec.

(** ** Answers *)

Module AnswerSpec.

Import Py PyMore Retrieval Answer.

(** [part in whole] for strings. *)
Definition contains (part whole : string) : Prop :=
  exists before after,
    whole = String.append before (String.append part after).


Definition silent : Llm := fun _ => Failed "quota exceeded".

End AnswerSpec.

(** * Properties *)

(** ** Words, whitespace and the split/join round trip *)

Module PyFacts.

Import Py Chunker ChunkerSpec.

(** The built-ins on small inputs, as Python evaluates them. *)
Example split_drops_blank_runs :
  split "  Hello   world.  " = ["Hello"; "world."]%string.
Proof. reflexivity. Qed.

Example strip_keeps_inner_blanks : strip "  a  b " = "a  b"%string.
Proof. reflexivity. Qed.

Example slice_from_last_three :
  slice_from (-3) [1; 2; 3; 4; 5] = [3; 4; 5]
  /\ slice_from (-0) [1; 2; 3] = [1; 2; 3]
  /\ slice_to 2 [1; 2; 3] = [1; 2]
  /\ slice_to (-1) [1; 2; 3] = [1; 2].
Proof. repeat split. Qed.

Example re_split_after_terminal_marks :
  re_split "Dr. Who? Yes!No.  End. "
  = ["Dr."; "Who?"; "Yes!No."; "End."; ""]%string.
Proof. reflexivity. Qed.

Example sentences_are_stripped :
  split_into_sentences "  One two.   Three?  " = ["One two."; "Three?"]%string.
Proof. reflexivity. Qed.

Lemma is_word_cons c w :
  is_word (String c w) = negb (is_space c) && no_space w.
Proof. reflexivity. Qed.

Lemma split_cons c s :
  split (String c s) =
  if is_space c then split s
  else match split s with
       | w :: ws =>
           if starts_with_space s then String c EmptyString :: w :: ws
           else String c w :: ws
       | [] => [String c EmptyString]
       end.
Proof. reflexivity. Qed.

Lemma split_nil_iff s : split s = [] <-> all_space s = true.
Proof.
  induction s as [|c s IH]; simpl; [tauto|].
  destruct (is_space c); simpl; [exact IH|].
  split; [|discriminate].
  destruct (split s); [discriminate|]. destruct (starts_with_space s); discriminate.
Qed.

Lemma split_words s : Forall (fun w => is_word w = true) (split s).
Proof.
  induction s as [|c s IH]; simpl; [constructor|].
  destruct (is_space c) eqn:Hc; [exact IH|].
  assert (Hone : is_word (String c EmptyString) = true)
    by (rewrite is_word_cons, Hc; reflexivity).
  destruct (split s) as [|w ws]; [now apply Forall_cons_2|].
  apply Forall_cons_1 in IH. destruct IH as [Hw Hws].
  destruct (starts_with_space s).
  - apply Forall_cons_2; [exact Hone|]. now apply Forall_cons_2.
  - apply Forall_cons_2; [|exact Hws].
    rewrite is_word_cons, Hc. simpl.
    unfold is_word in Hw. apply andb_prop in Hw. tauto.
Qed.

Lemma starts_with_space_word w s :
  is_word w = true -> starts_with_space (String.append w s) = false.
Proof.
  destruct w as [|c w]; [discriminate|]. rewrite is_word_cons. simpl.
  intros H. apply andb_prop in H. destruct H as [H _].
  now apply negb_true_iff in H.
Qed.

(** A word followed by the end of the text or by whitespace is the first
    token. *)
Lemma split_word_app w s :
  is_word w = true -> (s = EmptyString \/ starts_with_space s = true) ->
  split (String.append w s) = w :: split s.
Proof.
  induction w as [|c w IH]; [discriminate|].
  rewrite is_word_cons. intros Hw Hs. apply andb_prop in Hw.
  destruct Hw as [Hc Hw]. apply negb_true_iff in Hc.
  change (String.append (String c w) s) with (String c (String.append w s)).
  rewrite split_cons, Hc.
  destruct w as [|d w].
  - change (String.append EmptyString s) with s.
    destruct Hs as [->|Hs]; [reflexivity|].
    rewrite Hs. now destruct (split s).
  - assert (Hdw : is_word (String d w) = true) by exact Hw.
    rewrite (IH Hdw Hs).
    now rewrite (starts_with_space_word (String d w) s Hdw).
Qed.

Lemma append_empty_r s : String.append s EmptyString = s.
Proof.
  induction s as [|c s IH]; [reflexivity|].
  change (String.append (String c s) EmptyString)
    with (String c (String.append s EmptyString)).
  now rewrite IH.
Qed.

Lemma split_word w : is_word w = true -> split w = [w].
Proof.
  intros Hw. rewrite <- (append_empty_r w) at 1.
  rewrite split_word_app; auto.
Qed.

(** Joining words with one blank and splitting again gives the words
    back. *)
Lemma split_join ws :
  Forall (fun w => is_word w = true) ws -> split (join " " ws) = ws.
Proof.
  induction ws as [|w ws IH]; intros H; [reflexivity|].
  apply Forall_cons_1 in H. destruct H as [Hw Hws].
  destruct ws as [|w2 ws]; [now apply split_word|].
  change (join " " (w :: w2 :: ws))
    with (String.append w (String " " (join " " (w2 :: ws)))).
  rewrite split_word_app; [|exact Hw|right; reflexivity].
  change (split (String " " (join " " (w2 :: ws))))
    with (split (join " " (w2 :: ws))).
  now rewrite IH.
Qed.

Lemma lstrip_empty_iff s : lstrip s = EmptyString <-> all_space s = true.
Proof.
  induction s as [|c s IH]; simpl; [tauto|].
  destruct (is_space c); simpl; [exact IH|]. split; discriminate.
Qed.

Lemma rstrip_empty_iff s : rstrip s = EmptyString <-> all_space s = true.
Proof.
  induction s as [|c s IH]; simpl; [tauto|].
  destruct (rstrip s) eqn:E; simpl.
  - destruct (is_space c); simpl; [|split; discriminate].
    split; [intros _; now apply IH|reflexivity].
  - split; [discriminate|]. intros H. apply andb_prop in H.
    destruct H as [_ H]. apply IH in H. discriminate.
Qed.

Lemma all_space_lstrip s : all_space (lstrip s) = true -> all_space s = true.
Proof.
  induction s as [|c s IH]; simpl; [tauto|].
  destruct (is_space c) eqn:Hc; simpl; [exact IH|].
  rewrite Hc. discriminate.
Qed.

(** A text is blank, [not text.strip()], exactly when it is all
    whitespace. *)
Lemma strip_empty_iff s : is_empty (strip s) = true <-> all_space s = true.
Proof.
  unfold strip. split.
  - intros H. apply all_space_lstrip, rstrip_empty_iff.
    destruct (rstrip (lstrip s)); [reflexivity|discriminate].
  - intros H. apply lstrip_empty_iff in H. now rewrite H.
Qed.

Lemma all_space_rstrip s : all_space (rstrip s) = true -> rstrip s = EmptyString.
Proof.
  induction s as [|c s IH]; simpl; [reflexivity|].
  destruct (is_empty (rstrip s) && is_space c) eqn:E; [reflexivity|].
  simpl. intros H. apply andb_prop in H. destruct H as [Hc Hr].
  rewrite (IH Hr), Hc in E. discriminate.
Qed.

(** A non-blank stripped text has at least one word. *)
Lemma split_strip_nonempty s :
  is_empty (strip s) = false -> split (strip s) <> [].
Proof.
  intros H Hnil. apply split_nil_iff in Hnil.
  unfold strip in *. apply all_space_rstrip in Hnil.
  rewrite Hnil in H. discriminate.
Qed.

Lemma lstrip_word w : is_word w = true -> lstrip w = w.
Proof.
  destruct w as [|c w]; [discriminate|]. rewrite is_word_cons.
  intros H. apply andb_prop in H. destruct H as [H _].
  apply negb_true_iff in H. simpl. now rewrite H.
Qed.

Lemma rstrip_no_space w : no_space w = true -> rstrip w = w.
Proof.
  induction w as [|c w IH]; simpl; [reflexivity|].
  intros H. apply andb_prop in H. destruct H as [Hc Hw].
  apply negb_true_iff in Hc. rewrite (IH Hw), Hc, andb_false_r. reflexivity.
Qed.

Lemma strip_word w : is_word w = true -> strip w = w.
Proof.
  intros H. unfold strip. rewrite (lstrip_word w H).
  apply rstrip_no_space. unfold is_word in H. apply andb_prop in H. tauto.
Qed.

End PyFacts.

(** ** The loop of [create_chunks] and the page loop *)

Module ChunkerFacts.

Import Py Chunker ChunkerSpec PyFacts.

Lemma loop_init_ok : buffer_ok loop_init.
Proof. split; [apply Forall_nil_2 | reflexivity | apply Forall_nil_2]. Qed.

Lemma seal_counts st meta : buffer_ok st -> counts_words (seal st meta).
Proof.
  intros [Hw Hc _]. unfold counts_words, seal; cbn [text word_count].
  now rewrite (split_join _ Hw), Hc.
Qed.

Lemma step_ok cfg meta st sentence :
  buffer_ok st -> buffer_ok (step cfg meta st sentence).
Proof.
  intros Hst. pose proof (seal_counts st meta Hst) as Hseal.
  destruct Hst as [Hw Hc Hs]. unfold step.
  destruct (_ && _); cbn [chunks current_chunk current_word_count].
  - split; cbn [chunks current_chunk current_word_count].
    + apply Forall_app_2; [apply split_words | apply split_words].
    + rewrite length_app. lia.
    + apply Forall_app_2; [exact Hs | now apply Forall_cons_2].
  - split; cbn [chunks current_chunk current_word_count].
    + apply Forall_app_2; [exact Hw | apply split_words].
    + rewrite length_app. lia.
    + exact Hs.
Qed.

Lemma fold_step_ok cfg meta sentences st :
  buffer_ok st -> buffer_ok (fold_left (step cfg meta) sentences st).
Proof.
  revert st. induction sentences as [|s ss IH]; intros st Hst; [exact Hst|].
  apply IH, step_ok, Hst.
Qed.

Lemma finish_counts cfg meta st :
  buffer_ok st -> Forall counts_words (finish cfg meta st).
Proof.
  intros Hst. unfold finish. destruct (_ && _); [|apply Hst].
  apply Forall_app_2; [apply Hst|].
  apply Forall_cons_2; [now apply seal_counts | apply Forall_nil_2].
Qed.

Lemma create_chunks_counts cfg txt meta :
  Forall counts_words (create_chunks cfg txt meta).
Proof.
  unfold create_chunks. destruct (is_empty (strip txt)); [apply Forall_nil_2|].
  apply finish_counts, fold_step_ok, loop_init_ok.
Qed.

(** *** The page loop *)

Lemma page_step_app cfg doc acc page :
  page_step cfg doc acc page = acc ++ page_chunks cfg doc page.
Proof.
  unfold page_step, page_chunks, create_chunks.
  destruct (is_empty (strip _)); [now rewrite app_nil_r | reflexivity].
Qed.

Lemma fold_page_step cfg doc pages acc :
  fold_left (page_step cfg doc) pages acc
  = acc ++ concat (map (page_chunks cfg doc) pages).
Proof.
  revert acc. induction pages as [|p ps IH]; intros acc; cbn [fold_left map concat].
  - now rewrite app_nil_r.
  - now rewrite IH, page_step_app, app_assoc.
Qed.

Lemma reindex_from (f : nat -> nat) (l : list Chunk) :
  map (fun ic => set_chunk_id (fst ic) (snd ic))
      (imap (fun i x => (Z.of_nat (f i), x)) l)
  = imap (fun i c => set_chunk_id (Z.of_nat (f i)) c) l.
Proof.
  revert f. induction l as [|c l IH]; intros f; [reflexivity|].
  cbn [imap map fst snd]. f_equal. apply (IH (f ∘ S)).
Qed.

Lemma imap_ids (o : nat) (l : list Chunk) :
  map chunk_id (imap (fun i c => set_chunk_id (Z.of_nat (o + i)) c) l)
  = map Z.of_nat (seq o (length l)).
Proof.
  revert o. induction l as [|c l IH]; intros o; [reflexivity|].
  cbn [imap map length seq chunk_id set_chunk_id]. f_equal.
  - f_equal. lia.
  - rewrite <- (IH (S o)). f_equal. apply imap_ext. intros i x _.
    unfold compose. f_equal. f_equal. lia.
Qed.

Lemma imap_body (g : nat -> Z) (l : list Chunk) :
  map body (imap (fun i c => set_chunk_id (g i) c) l) = map body l.
Proof.
  revert g. induction l as [|c l IH]; intros g; [reflexivity|].
  cbn [imap map]. f_equal. apply (IH (g ∘ S)).
Qed.

Lemma reindex_imap l :
  reindex l = imap (fun i c => set_chunk_id (Z.of_nat (0 + i)) c) l.
Proof. unfold reindex, enumerate. apply (reindex_from (fun i => i)). Qed.

Lemma reindex_length l : length (reindex l) = length l.
Proof. rewrite reindex_imap. apply length_imap. Qed.

Lemma imap_counts (g : nat -> Z) (l : list Chunk) :
  Forall counts_words l ->
  Forall counts_words (imap (fun i c => set_chunk_id (g i) c) l).
Proof.
  intros H. revert g.
  induction H as [|c l Hc Hl IH]; intros g; [apply Forall_nil_2|].
  cbn [imap]. apply Forall_cons_2; [exact Hc | apply (IH (g ∘ S))].
Qed.

Lemma reindex_counts l :
  Forall counts_words l -> Forall counts_words (reindex l).
Proof. intros H. rewrite reindex_imap. now apply imap_counts. Qed.

End ChunkerFacts.

(** ** The buffer at the end of the text *)

Module TailFacts.

Import Py Chunker ChunkerSpec PyFacts ChunkerFacts.

Lemma terminal_not_space c : is_terminal c = true -> is_space c = false.
Proof.
  unfold is_terminal. intros H.
  apply orb_prop in H. destruct H as [H|H]; [apply orb_prop in H; destruct H as [H|H]|];
    apply Ascii.eqb_eq in H; subst c; reflexivity.
Qed.

Lemma re_split_go_cons b s : exists p ps, re_split_go b s = p :: ps.
Proof.
  revert b. induction s as [|c s IH]; intros b; cbn [re_split_go]; [eauto|].
  destruct (b && is_space c); [apply IH|].
  destruct (is_terminal c && starts_with_space s); [eauto|].
  destruct (IH false) as (p & ps & ->). cbn [cons_head]. eauto.
Qed.

(** If every piece of the regex split is blank, so is the text. *)
Lemma re_split_go_blank b s :
  Forall (fun p => all_space p = true) (re_split_go b s) ->
  all_space s = true.
Proof.
  revert b. induction s as [|c s IH]; intros b; cbn [re_split_go all_space];
    [reflexivity|].
  destruct (b && is_space c) eqn:Hb.
  - apply andb_prop in Hb. destruct Hb as [_ ->]. apply IH.
  - destruct (is_terminal c && starts_with_space s) eqn:Ht.
    + intros H. apply Forall_cons_1 in H. destruct H as [H _].
      apply andb_prop in Ht. destruct Ht as [Ht _].
      apply terminal_not_space in Ht. cbn [all_space] in H.
      rewrite Ht in H. discriminate.
    + destruct (re_split_go_cons false s) as (p & ps & E).
      specialize (IH false). rewrite E in *. cbn [cons_head].
      intros H. apply Forall_cons_1 in H. destruct H as [Hp Hps].
      cbn [all_space] in Hp. apply andb_prop in Hp. destruct Hp as [-> Hp].
      apply IH. now apply Forall_cons_2.
Qed.

Lemma sentences_have_words txt :
  Forall (fun s => split s <> []) (split_into_sentences txt).
Proof.
  unfold split_into_sentences. apply Forall_fmap, Forall_forall.
  intros p Hp. apply list_elem_of_In, filter_In in Hp. destruct Hp as [_ Hp].
  apply split_strip_nonempty. now apply negb_true_iff in Hp.
Qed.

Lemma sentences_nonempty txt :
  is_empty (strip txt) = false -> split_into_sentences txt <> [].
Proof.
  intros Htxt Hnil. unfold split_into_sentences in Hnil.
  apply fmap_nil_inv in Hnil.
  assert (all_space txt = true) as Hall.
  { apply (re_split_go_blank false). apply Forall_forall. intros p Hp.
    apply strip_empty_iff. destruct (is_empty (strip p)) eqn:E; [reflexivity|].
    assert (In p (List.filter (fun p => negb (is_empty (strip p)))
                    (re_split txt))) as Hin.
    { apply filter_In. split; [now apply list_elem_of_In | now rewrite E]. }
    rewrite Hnil in Hin. destruct Hin. }
  apply strip_empty_iff in Hall. congruence.
Qed.

Lemma step_buffer cfg meta st s :
  exists seed, current_chunk (step cfg meta st s) = seed ++ split s.
Proof. unfold step. destruct (_ && _); cbn [current_chunk]; eauto. Qed.

(** After the last sentence the buffer is never empty. *)
Lemma run_loop_buffer cfg meta sentences :
  sentences <> [] -> Forall (fun s => split s <> []) sentences ->
  current_chunk (run_loop cfg meta sentences) <> [].
Proof.
  unfold run_loop. generalize loop_init.
  induction sentences as [|s ss IH]; intros st Hne Hall; [congruence|].
  apply Forall_cons_1 in Hall. destruct Hall as [Hs Hss].
  cbn [fold_left]. destruct ss as [|s2 ss].
  - cbn [fold_left]. destruct (step_buffer cfg meta st s) as [seed ->].
    intros E. apply app_eq_nil in E. tauto.
  - apply IH; [discriminate | exact Hss].
Qed.

(** The loop never reads [min_chunk_size]. *)
Lemma run_loop_with_min m cfg meta sentences :
  run_loop (with_min_chunk_size m cfg) meta sentences
  = run_loop cfg meta sentences.
Proof. reflexivity. Qed.

End TailFacts.

(** ** Texts made of one-word sentences *)

Module ScenarioFacts.

Import Py Chunker ChunkerSpec PyFacts ChunkerFacts TailFacts.

Lemma one_word_is_word w : one_word_sentence w = true -> is_word w = true.
Proof. intros H. apply andb_prop in H. tauto. Qed.

Lemma no_space_starts w : no_space w = true -> starts_with_space w = false.
Proof.
  destruct w as [|c w]; [reflexivity|]. cbn. intros H.
  apply andb_prop in H. destruct H as [H _]. now apply negb_true_iff in H.
Qed.

Lemma re_split_go_no_space w :
  no_space w = true -> re_split_go false w = [w].
Proof.
  induction w as [|c w IH]; [reflexivity|]. intros H.
  cbn [no_space] in H. apply andb_prop in H. destruct H as [_ Hw].
  cbn [re_split_go andb]. rewrite (no_space_starts w Hw), andb_false_r.
  now rewrite (IH Hw).
Qed.

Lemma re_split_go_sentence w sp t :
  one_word_sentence w = true -> is_space sp = true ->
  re_split_go false (String.append w (String sp t)) = w :: re_split_go true t.
Proof.
  intros Hw Hsp. induction w as [|c w IH]; [discriminate|].
  apply andb_prop in Hw. destruct Hw as [Hword Hend].
  rewrite is_word_cons in Hword. apply andb_prop in Hword.
  destruct Hword as [Hc Hns].
  change (String.append (String c w) (String sp t))
    with (String c (String.append w (String sp t))).
  cbn [re_split_go andb].
  destruct w as [|d w].
  - cbn [ends_with] in Hend. apply Ascii.eqb_eq in Hend. subst c.
    change (String.append EmptyString (String sp t)) with (String sp t).
    cbn [starts_with_space]. rewrite Hsp. cbn [is_terminal andb orb].
    cbn [re_split_go andb]. now rewrite Hsp.
  - assert (Hdw : one_word_sentence (String d w) = true).
    { unfold one_word_sentence, is_word. cbn [is_empty negb andb].
      rewrite Hns. exact Hend. }
    rewrite (starts_with_space_word (String d w) _ (one_word_is_word _ Hdw)).
    rewrite andb_false_r, (IH Hdw). reflexivity.
Qed.

Lemma re_split_go_resume t :
  starts_with_space t = false -> re_split_go true t = re_split_go false t.
Proof.
  destruct t as [|c t]; [reflexivity|]. cbn [starts_with_space]. intros Hc.
  cbn [re_split_go andb]. now rewrite Hc.
Qed.

Lemma join_cons2 sep w w2 ws :
  join sep (w :: w2 :: ws)
  = String.append w (String.append sep (join sep (w2 :: ws))).
Proof. reflexivity. Qed.

Lemma join_starts ws :
  ws <> [] -> Forall (fun w => is_word w = true) ws ->
  starts_with_space (join " " ws) = false.
Proof.
  destruct ws as [|w ws]; [congruence|]. intros _ H.
  apply Forall_cons_1 in H. destruct H as [Hw _].
  destruct ws as [|w2 ws].
  - cbn [join]. rewrite <- (append_empty_r w).
    now apply starts_with_space_word.
  - rewrite join_cons2. now apply starts_with_space_word.
Qed.

Lemma one_word_sentences_words ws :
  Forall (fun w => one_word_sentence w = true) ws ->
  Forall (fun w => is_word w = true) ws.
Proof.
  intros H. eapply Forall_impl; [exact H|]. intros w. apply one_word_is_word.
Qed.

(** One-word sentences separated by single blanks are split back into
    themselves by the regex. *)
Lemma re_split_join ws :
  ws <> [] -> Forall (fun w => one_word_sentence w = true) ws ->
  re_split (join " " ws) = ws.
Proof.
  unfold re_split. induction ws as [|w ws IH]; [congruence|]. intros _ H.
  apply Forall_cons_1 in H. destruct H as [Hw Hws].
  destruct ws as [|w2 ws].
  - cbn [join]. apply re_split_go_no_space.
    apply one_word_is_word in Hw. apply andb_prop in Hw. tauto.
  - rewrite join_cons2.
    change (String.append " " (join " " (w2 :: ws)))
      with (String " " (join " " (w2 :: ws))).
    rewrite (re_split_go_sentence w " " _ Hw eq_refl).
    rewrite re_split_go_resume.
    + now rewrite IH.
    + apply join_starts; [discriminate|]. now apply one_word_sentences_words.
Qed.

Lemma strip_words ws :
  Forall (fun w => is_word w = true) ws ->
  map strip (List.filter (fun p => negb (is_empty (strip p))) ws) = ws.
Proof.
  induction 1 as [|w ws Hw Hws IH]; [reflexivity|].
  cbn [List.filter]. rewrite (strip_word w Hw).
  destruct w as [|c w]; [discriminate|]. cbn [is_empty negb map].
  now rewrite IH, (strip_word _ Hw).
Qed.

Lemma sentences_of_join ws :
  ws <> [] -> Forall (fun w => one_word_sentence w = true) ws ->
  split_into_sentences (join " " ws) = ws.
Proof.
  intros Hne H. unfold split_into_sentences.
  rewrite (re_split_join ws Hne H).
  now apply strip_words, one_word_sentences_words.
Qed.

Lemma join_not_blank ws :
  ws <> [] -> Forall (fun w => is_word w = true) ws ->
  is_empty (strip (join " " ws)) = false.
Proof.
  intros Hne H. destruct (is_empty (strip (join " " ws))) eqn:E; [|reflexivity].
  apply strip_empty_iff in E. pose proof (join_starts ws Hne H) as Hs.
  destruct (join " " ws) as [|c s] eqn:Ej.
  - destruct ws as [|w ws]; [congruence|].
    apply Forall_cons_1 in H. destruct H as [Hw _].
    destruct ws; [cbn [join] in Ej; subst w; discriminate|].
    rewrite join_cons2 in Ej. destruct w; [discriminate|discriminate].
  - cbn in E, Hs. rewrite Hs in E. discriminate.
Qed.

Lemma slice_from_words (n : Z) ws :
  Forall (fun w => is_word w = true) ws ->
  Forall (fun w => is_word w = true) (slice_from n ws).
Proof. intros H. unfold slice_from. now apply Forall_drop. Qed.

(** On a buffer of words the overlap seed is the slice itself. *)
Lemma overlap_seed_words cfg cur :
  Forall (fun w => is_word w = true) cur ->
  overlap_seed cfg cur =
  if Z.of_nat (length cur) >? overlap_words cfg
  then slice_from (- overlap_words cfg) cur else cur.
Proof.
  intros H. unfold overlap_seed. destruct (_ >? _).
  - now apply split_join, slice_from_words.
  - now apply split_join.
Qed.

(** The step on a one-word sentence that still fits the buffer. *)
Lemma step_word_fits cfg meta a cur n i w :
  is_word w = true ->
  (n + 1 >? chunk_size_words cfg) && nonempty cur = false ->
  step cfg meta (Build_Loop a cur n i) w = Build_Loop a (cur ++ [w]) (n + 1) i.
Proof.
  intros Hw Hc. unfold step. rewrite (split_word w Hw).
  cbn [length current_word_count current_chunk chunks chunk_index].
  change (Z.of_nat 1) with 1. now rewrite Hc.
Qed.

(** The step on a one-word sentence that overflows a buffer of words. *)
Lemma step_word_seals cfg meta a cur n i w :
  is_word w = true -> Forall (fun w => is_word w = true) cur ->
  (n + 1 >? chunk_size_words cfg) && nonempty cur = true ->
  step cfg meta (Build_Loop a cur n i) w =
  let seed :=
    if Z.of_nat (length cur) >? overlap_words cfg
    then slice_from (- overlap_words cfg) cur else cur in
  Build_Loop (a ++ [seal (Build_Loop a cur n i) meta]) (seed ++ [w])
    (Z.of_nat (length seed) + 1) (i + 1).
Proof.
  intros Hw Hcur Hc. unfold step. rewrite (split_word w Hw).
  cbn [length current_word_count current_chunk chunks chunk_index].
  change (Z.of_nat 1) with 1. rewrite Hc.
  cbn [current_word_count current_chunk chunks chunk_index].
  now rewrite (overlap_seed_words cfg cur Hcur).
Qed.

End ScenarioFacts.

(** ** The chunker: claims C4, C5 and C7 *)

Module ChunkerClaims.

Import Py Chunker ChunkerSpec PyFacts ChunkerFacts TailFacts ScenarioFacts.

(** C4.  For every configuration, text and metadata, each chunk returned by
    [create_chunks] has [word_count] equal to the number of
    whitespace-delimited tokens of its text, chunks seeded with overlap words
    included; the same holds for each chunk of [chunk_document_pages]. *)
Theorem C4_word_count_is_token_count (cfg : Config) (txt : string)
    (meta : option dict) (pages : list Page) (doc : option dict) :
  Forall (fun c => Z.of_nat (length (split (text c))) = word_count c)
    (create_chunks cfg txt meta)
  /\ Forall (fun c => Z.of_nat (length (split (text c))) = word_count c)
       (chunk_document_pages cfg pages doc).
Proof.
  split; [apply create_chunks_counts|].
  unfold chunk_document_pages. apply reindex_counts.
  rewrite fold_page_step. cbn [app]. apply Forall_concat, Forall_fmap, Forall_forall.
  intros page _. apply create_chunks_counts.
Qed.

(** C5.  With [chunk_size_words = 10], [overlap_words = 3] and
    [min_chunk_size = 5], a text made of 15 one-word sentences, each ending
    in a full stop, gives exactly two chunks: the first ten words with
    [word_count] 10, then the last three of those followed by the remaining
    five, with [word_count] 8. *)
Theorem C5_fifteen_one_word_sentences (ws : list string) (meta : option dict) :
  length ws = 15%nat ->
  Forall (fun w => one_word_sentence w = true) ws ->
  create_chunks scenario_config (join " " ws) meta =
  [ {| chunk_id := 0; text := join " " (take 10 ws); word_count := 10;
       metadata := default ∅ meta |};
    {| chunk_id := 1;
       text := join " " (drop 7 (take 10 ws) ++ drop 10 ws);
       word_count := 8; metadata := default ∅ meta |} ].
Proof.
  intros Hlen Hall.
  assert (Hne : ws <> []) by (destruct ws; discriminate).
  pose proof (one_word_sentences_words ws Hall) as Hwords.
  unfold create_chunks.
  rewrite (join_not_blank ws Hne Hwords), (sentences_of_join ws Hne Hall).
  do 15 (destruct ws as [|? ws]; [discriminate|]).
  destruct ws; [|discriminate]. clear Hlen Hne Hall.
  repeat match goal with
         | H : Forall _ (_ :: _) |- _ =>
             apply Forall_cons_1 in H; destruct H as [? H]
         end.
  unfold run_loop, loop_init. cbn [fold_left].
  do 10 (rewrite step_word_fits by (assumption || reflexivity)).
  rewrite step_word_seals;
    [ | assumption
      | repeat (apply Forall_cons_2; [assumption|]); apply Forall_nil_2
      | reflexivity ].
  do 4 (rewrite step_word_fits by (assumption || reflexivity)).
  reflexivity.
Qed.

Lemma C5_fifteen_one_word_sentences_witness :
  create_chunks scenario_config
    "a. b. c. d. e. f. g. h. i. j. k. l. m. n. o." None =
  [ {| chunk_id := 0; text := "a. b. c. d. e. f. g. h. i. j.";
       word_count := 10; metadata := ∅ |};
    {| chunk_id := 1; text := "h. i. j. k. l. m. n. o.";
       word_count := 8; metadata := ∅ |} ].
Proof.
  exact (C5_fifteen_one_word_sentences
           ["a."; "b."; "c."; "d."; "e."; "f."; "g."; "h."; "i."; "j.";
            "k."; "l."; "m."; "n."; "o."]%string None eq_refl
           ltac:(repeat (apply Forall_cons_2; [reflexivity|]);
                 apply Forall_nil_2)).
Defined.

(** The buffer left at the end of this text has three words: it is dropped
    for a [min_chunk_size] of 4 and kept for 3. *)
Example short_tail_is_dropped :
  create_chunks
    {| chunk_size_words := 3; overlap_words := 1; min_chunk_size := 4 |}
    "One two three. Four five." None
  = [ {| chunk_id := 0; text := "One two three."; word_count := 3;
         metadata := ∅ |} ].
Proof. reflexivity. Qed.

Example long_enough_tail_is_kept :
  create_chunks
    {| chunk_size_words := 3; overlap_words := 1; min_chunk_size := 3 |}
    "One two three. Four five." None
  = [ {| chunk_id := 0; text := "One two three."; word_count := 3;
         metadata := ∅ |};
      {| chunk_id := 1; text := "three. Four five."; word_count := 3;
         metadata := ∅ |} ].
Proof. reflexivity. Qed.

(** C7.  [chunk_document_pages] returns the chunks that [create_chunks]
    gives for each page's text on its own, page after page and in the order
    of each page, so that no chunk spans two pages; only the ids change, and
    they are 0, 1, ..., n-1 along the returned list. *)
Theorem C7_pages_chunked_apart_and_renumbered (cfg : Config)
    (pages : list Page) (doc : option dict) :
  let out := chunk_document_pages cfg pages doc in
  map chunk_id out = map Z.of_nat (seq 0 (length out))
  /\ map body out =
     concat (map (fun page =>
                    map body
                      (create_chunks cfg
                         (default EmptyString (page_text page))
                         (Some (page_metadata doc page))))
               pages).
Proof.
  cbn zeta. unfold chunk_document_pages.
  rewrite fold_page_step. cbn [app]. rewrite reindex_length, reindex_imap.
  split; [apply imap_ids|].
  rewrite (imap_body (fun i => Z.of_nat (0 + i))).
  induction pages as [|p ps IH]; [reflexivity|].
  cbn [map concat]. now rewrite map_app, IH.
Qed.

End ChunkerClaims.

(** ** Score fusion *)

Module FusionFacts.

Import Py Retrieval RetrievalSpec.
Local Open Scope Q_scope.

Lemma table_get_set k k' v d :
  table_get k (table_set k' v d)
  = if String.eqb k k' then Some v else table_get k d.
Proof.
  induction d as [|[k0 v0] d IH]; cbn [table_set table_get].
  - destruct (String.eqb k k'); reflexivity.
  - destruct (String.eqb k' k0) eqn:E0; cbn [table_get].
    + apply String.eqb_eq in E0. subst k0.
      destruct (String.eqb k k'); reflexivity.
    + rewrite IH. destruct (String.eqb k k0) eqn:E1; [|reflexivity].
      apply String.eqb_eq in E1. subst k0.
      destruct (String.eqb k k') eqn:E2; [|reflexivity].
      apply String.eqb_eq in E2. subst k'.
      rewrite String.eqb_refl in E0. discriminate.
Qed.

Section Ranks.

Context {A : Type} (key : A -> string).

Lemma find_rank_none k l :
  find_rank key k l = None <-> ~ In k (map key l).
Proof.
  induction l as [|x l IH]; cbn [find_rank map In]; [tauto|].
  destruct (String.eqb k (key x)) eqn:E.
  - apply String.eqb_eq in E. split; [discriminate|]. intros H.
    exfalso. apply H. now left.
  - apply String.eqb_neq in E.
    destruct (find_rank key k l) as [[i y]|].
    + split; [discriminate|]. intros H.
      assert (Hn : ~ In k (map key l)) by tauto.
      apply IH in Hn. discriminate.
    + split; [|reflexivity]. intros _ [H|H]; [congruence|].
      now apply IH.
Qed.

Lemma find_rank_app_last k l x :
  find_rank key k (l ++ [x]) =
  match find_rank key k l with
  | Some p => Some p
  | None => if String.eqb k (key x) then Some (length l, x) else None
  end.
Proof.
  induction l as [|y l IH]; cbn [app find_rank length].
  - destruct (String.eqb k (key x)); reflexivity.
  - destruct (String.eqb k (key y)); [reflexivity|]. rewrite IH.
    destruct (find_rank key k l) as [[i z]|]; [reflexivity|].
    destruct (String.eqb k (key x)); reflexivity.
Qed.

(** In a list without repeated keys, an element is found at its own
    position. *)
Lemma find_rank_lookup l i x :
  NoDup (map key l) -> l !! i = Some x ->
  find_rank key (key x) l = Some (i, x).
Proof.
  revert i. induction l as [|y l IH]; intros i Hnd Hi; [discriminate|].
  cbn [map] in Hnd. apply NoDup_cons in Hnd. destruct Hnd as [Hy Hnd].
  cbn [find_rank]. destruct i as [|i]; cbn in Hi.
  - injection Hi as ->. now rewrite String.eqb_refl.
  - destruct (String.eqb (key x) (key y)) eqn:E.
    + apply String.eqb_eq in E. exfalso. apply Hy. rewrite <- E.
      apply list_elem_of_In, in_map, list_elem_of_In.
      now apply list_elem_of_lookup_2 in Hi.
    + now rewrite (IH i Hnd Hi).
Qed.

End Ranks.

Lemma enumerate_snoc {A} (l : list A) (x : A) :
  enumerate (l ++ [x]) = enumerate l ++ [(Z.of_nat (length l), x)].
Proof.
  unfold enumerate. rewrite imap_app. cbn [imap]. now rewrite Nat.add_0_r.
Qed.

Lemma semantic_loop_lookup n weight results k :
  NoDup (map id results) ->
  table_get k (semantic_loop n weight (enumerate results) []) =
  match find_rank id k results with
  | Some (i, r) =>
      Some {| result := r; score := rank_score (Z.of_nat i) n * weight |}
  | None => None
  end.
Proof.
  induction results as [|x l IH] using rev_ind; intros Hnd; [reflexivity|].
  rewrite map_app in Hnd. apply NoDup_app in Hnd.
  destruct Hnd as (Hl & Hx & _).
  rewrite enumerate_snoc. unfold semantic_loop. rewrite fold_left_app.
  cbn [fold_left fst snd]. fold (semantic_loop n weight (enumerate l) []).
  rewrite table_get_set, find_rank_app_last, (IH Hl).
  destruct (String.eqb k (id x)) eqn:E.
  - apply String.eqb_eq in E. subst k.
    assert (Hnone : find_rank id (id x) l = None).
    { apply find_rank_none. intros Hin. apply (Hx (id x)).
      - now apply list_elem_of_In.
      - cbn. apply list_elem_of_here. }
    now rewrite Hnone.
  - destruct (find_rank id k l) as [[i r]|]; reflexivity.
Qed.

Lemma keyword_loop_lookup n has_d weight l acc k :
  NoDup (map row_id l) ->
  table_get k (keyword_loop n has_d weight (enumerate l) acc) =
  match find_rank row_id k l with
  | Some (j, r) =>
      Some match table_get k acc with
           | Some e =>
               {| result := result e;
                  score := score e + rank_score (Z.of_nat j) n * weight |}
           | None =>
               {| result := keyword_only has_d r;
                  score := rank_score (Z.of_nat j) n * weight |}
           end
  | None => table_get k acc
  end.
Proof.
  revert k. induction l as [|x l IH] using rev_ind; intros k Hnd;
    [reflexivity|].
  rewrite map_app in Hnd. apply NoDup_app in Hnd.
  destruct Hnd as (Hl & Hx & _).
  assert (Hnone : find_rank row_id (row_id x) l = None).
  { apply find_rank_none. intros Hin. apply (Hx (row_id x)).
    - now apply list_elem_of_In.
    - cbn. apply list_elem_of_here. }
  rewrite enumerate_snoc. unfold keyword_loop. rewrite fold_left_app.
  cbn [fold_left fst snd].
  fold (keyword_loop n has_d weight (enumerate l) acc).
  rewrite (IH (row_id x) Hl), Hnone, find_rank_app_last.
  destruct (String.eqb k (row_id x)) eqn:E.
  - apply String.eqb_eq in E. subst k. rewrite Hnone.
    destruct (table_get (row_id x) acc);
      now rewrite table_get_set, String.eqb_refl.
  - assert (Hk : table_get k (keyword_loop n has_d weight (enumerate l) acc)
                 = match find_rank row_id k l with
                   | Some (j, r) =>
                       Some match table_get k acc with
                            | Some e =>
                                {| result := result e;
                                   score := score e
                                            + rank_score (Z.of_nat j) n
                                              * weight |}
                            | None =>
                                {| result := keyword_only has_d r;
                                   score := rank_score (Z.of_nat j) n
                                            * weight |}
                            end
                   | None => table_get k acc
                   end) by exact (IH k Hl).
    destruct (table_get (row_id x) acc); rewrite table_get_set, E, Hk;
      destruct (find_rank row_id k l) as [[j r]|]; reflexivity.
Qed.

(** The entry of every id in [result_scores], for result lists without
    repeated ids. *)
Lemma fuse_lookup semantic_results keyword_results sw kw k :
  NoDup (map id semantic_results) ->
  NoDup (map row_id (rows keyword_results)) ->
  table_get k (fuse semantic_results keyword_results sw kw) =
  match find_rank id k semantic_results,
        find_rank row_id k (rows keyword_results) with
  | Some (i, r), Some (j, _) =>
      Some {| result := r;
              score :=
                rank_score (Z.of_nat i) (length semantic_results) * sw
                + rank_score (Z.of_nat j) (length (rows keyword_results))
                  * kw |}
  | Some (i, r), None =>
      Some {| result := r;
              score :=
                rank_score (Z.of_nat i) (length semantic_results) * sw |}
  | None, Some (j, row) =>
      Some {| result := keyword_only (has_distances keyword_results) row;
              score :=
                rank_score (Z.of_nat j) (length (rows keyword_results))
                * kw |}
  | None, None => None
  end.
Proof.
  intros Hs Hk. unfold fuse, add_keyword, score_semantic.
  fold (semantic_loop (length semantic_results) sw
          (enumerate semantic_results) []).
  fold (keyword_loop (length (rows keyword_results))
          (has_distances keyword_results) kw
          (enumerate (rows keyword_results))
          (semantic_loop (length semantic_results) sw
             (enumerate semantic_results) [])).
  rewrite (keyword_loop_lookup _ _ _ _ _ _ Hk),
    (semantic_loop_lookup _ _ _ _ Hs).
  destruct (find_rank id k semantic_results) as [[i r]|];
    destruct (find_rank row_id k (rows keyword_results)) as [[j row]|];
    reflexivity.
Qed.

End FusionFacts.

(** ** Deduplication *)

Module DedupFacts.

Import Py Retrieval RetrievalSpec.

Lemma dedup_from_sublist seen results :
  dedup_from seen results `sublist_of` results.
Proof.
  revert seen. induction results as [|r rest IH]; intros seen;
    cbn [dedup_from]; [constructor|].
  case_bool_decide; [apply sublist_cons, IH | apply sublist_skip, IH].
Qed.

Lemma not_elem_of_add (x y : string) (seen : gset string) :
  x ∉ {[y]} ∪ seen <-> y <> x /\ x ∉ seen.
Proof.
  rewrite elem_of_union, elem_of_singleton. split.
  - intros H. split; [intros ->; apply H; now left | intros Hx; apply H; now right].
  - intros [Hne Hx] [->|H]; [now apply Hne | now apply Hx].
Qed.

(** A record is kept exactly when its fingerprint is new: not in the set
    at the start, and not the fingerprint of an earlier record. *)
Lemma dedup_from_spec seen results r :
  In r (dedup_from seen results) <->
  exists before after,
    results = before ++ r :: after
    /\ (fingerprint r ∉ seen)
    /\ forall e, In e before -> fingerprint e <> fingerprint r.
Proof.
  revert seen. induction results as [|x rest IH]; intros seen;
    cbn [dedup_from].
  - split; [intros []|]. intros (before & after & E & _).
    now destruct before.
  - case_bool_decide as Hx.
    + rewrite IH. split.
      * intros (before & after & -> & Hr & Hb).
        exists (x :: before), after. split; [reflexivity|]. split; [exact Hr|].
        intros e [<-|He]; [congruence | now apply Hb].
      * intros (before & after & E & Hr & Hb).
        destruct before as [|y before]; simplify_eq/=; [contradiction|].
        exists before, after. split; [reflexivity|]. split; [exact Hr|].
        intros e He. apply Hb. now right.
    + cbn [In]. rewrite IH. split.
      * intros [<-|(before & after & -> & Hr & Hb)].
        -- exists [], rest. split; [reflexivity|]. split; [exact Hx|].
           intros e [].
        -- apply not_elem_of_add in Hr. destruct Hr as [Hne Hr].
           exists (x :: before), after. split; [reflexivity|].
           split; [exact Hr|].
           intros e [<-|He]; [exact Hne | now apply Hb].
      * intros (before & after & E & Hr & Hb).
        destruct before as [|y before]; simplify_eq/=; [now left|].
        right. exists before, after. split; [reflexivity|].
        split; [|intros e He; apply Hb; now right].
        apply not_elem_of_add. split; [|exact Hr]. apply Hb. now left.
Qed.

Lemma dedup_from_fresh seen results :
  Forall (fun r => fingerprint r ∉ seen) (dedup_from seen results).
Proof.
  apply Forall_forall. intros r Hr. apply list_elem_of_In, dedup_from_spec in Hr.
  now destruct Hr as (_ & _ & _ & Hr & _).
Qed.

Lemma dedup_from_NoDup seen results :
  NoDup (map fingerprint (dedup_from seen results)).
Proof.
  revert seen. induction results as [|x rest IH]; intros seen;
    cbn [dedup_from]; [constructor|].
  case_bool_decide; [apply IH|].
  cbn [map]. constructor; [|apply IH].
  intros Hin. apply list_elem_of_fmap in Hin. destruct Hin as (y & E & Hy).
  pose proof (dedup_from_fresh ({[fingerprint x]} ∪ seen) rest) as Hf.
  rewrite Forall_forall in Hf. specialize (Hf y Hy).
  apply not_elem_of_add in Hf. destruct Hf as [Hne _]. congruence.
Qed.

Lemma dedup_from_idem seen results :
  dedup_from seen (dedup_from seen results) = dedup_from seen results.
Proof.
  revert seen. induction results as [|x rest IH]; intros seen;
    cbn [dedup_from]; [reflexivity|].
  case_bool_decide as Hx; [apply IH|].
  cbn [dedup_from]. rewrite bool_decide_eq_false_2 by exact Hx.
  f_equal. apply IH.
Qed.

Lemma dedup_from_covers seen results r :
  In r results -> fingerprint r ∉ seen ->
  In (fingerprint r) (map fingerprint (dedup_from seen results)).
Proof.
  revert seen. induction results as [|x rest IH]; intros seen;
    [intros []|].
  cbn [dedup_from]. intros [->|Hr] Hfresh.
  - rewrite bool_decide_eq_false_2 by exact Hfresh. now left.
  - case_bool_decide as Hx; [now apply IH|].
    cbn [map In].
    destruct (decide (fingerprint x = fingerprint r)) as [E|E];
      [now left|]. right. apply IH; [exact Hr|]. now apply not_elem_of_add.
Qed.

End DedupFacts.

(** ** Thresholding, sorting, gathering *)

Module PipelineFacts.

Import Py Retrieval RetrievalSpec.
Local Open Scope Q_scope.

Lemma filter_by_threshold_spec threshold results out r :
  filter_by_threshold threshold results = Ok out ->
  (In r out <-> In r results /\ passes_threshold threshold r = Ok true).
Proof.
  revert out. induction results as [|x rest IH]; intros out;
    cbn [filter_by_threshold].
  - intros [= <-]. cbn. tauto.
  - destruct (passes_threshold threshold x) as [e|keep] eqn:Hx;
      [discriminate|].
    destruct (filter_by_threshold threshold rest) as [e|filtered];
      [discriminate|].
    cbn [bind]. intros [= <-]. specialize (IH filtered eq_refl).
    destruct keep; cbn [In]; rewrite ?IH; split.
    + intros [<-|H]; [split; [now left | exact Hx] | tauto].
    + intros [[<-|H] Hp]; [now left | right; tauto].
    + tauto.
    + intros [[<-|H] Hp]; [unfold Ok in *; congruence | tauto].
Qed.

Section Sorting.

Context {A : Type} (key : A -> Q).

Lemma insert_desc_perm x l : Permutation (insert_desc key x l) (x :: l).
Proof.
  induction l as [|y l IH]; cbn [insert_desc]; [reflexivity|].
  destruct (Qle_bool (key y) (key x)); [reflexivity|].
  rewrite IH. apply perm_swap.
Qed.

Lemma sorted_desc_perm l : Permutation (sorted_desc key l) l.
Proof.
  induction l as [|x l IH]; cbn [sorted_desc fold_right]; [reflexivity|].
  fold (sorted_desc key l). now rewrite insert_desc_perm, IH.
Qed.

Lemma sorted_desc_In l x : In x (sorted_desc key l) <-> In x l.
Proof.
  rewrite <- !list_elem_of_In. now rewrite (sorted_desc_perm l).
Qed.

Lemma insert_desc_sorted x l :
  descending key l -> descending key (insert_desc key x l).
Proof.
  unfold descending. induction 1 as [|y l Hl IH Hy]; cbn [insert_desc].
  - constructor; constructor.
  - destruct (Qle_bool (key y) (key x)) eqn:E.
    + apply Qle_bool_iff in E. constructor; [now constructor|].
      constructor; [exact E|].
      eapply List.Forall_impl; [|exact Hy]. intros z Hz. cbn in Hz.
      now apply Qle_trans with (key y).
    + assert (Hlt : key x < key y).
      { apply Qnot_le_lt. intros H. apply Qle_bool_iff in H. congruence. }
      constructor; [exact IH|].
      apply List.Forall_forall. intros z Hz.
      apply list_elem_of_In in Hz. rewrite (insert_desc_perm x l) in Hz.
      apply list_elem_of_In in Hz. destruct Hz as [<-|Hz].
      * now apply Qlt_le_weak.
      * rewrite List.Forall_forall in Hy. now apply Hy.
Qed.

Lemma sorted_desc_sorted l : descending key (sorted_desc key l).
Proof.
  induction l as [|x l IH]; cbn [sorted_desc fold_right]; [constructor|].
  now apply insert_desc_sorted.
Qed.

Lemma descending_take n l : descending key l -> descending key (take n l).
Proof.
  unfold descending. revert n. induction l as [|x l IH]; intros n H;
    destruct n; cbn [take]; try constructor.
  - apply IH. now inversion H.
  - inversion H as [|? ? _ Hx]; subst.
    rewrite List.Forall_forall in *. intros y Hy. apply Hx.
    apply list_elem_of_In in Hy. apply list_elem_of_In.
    now apply (subseteq_take n l).
Qed.

End Sorting.

Lemma slice_to_In {A} (stop : Z) (l : list A) x :
  In x (slice_to stop l) -> In x l.
Proof.
  unfold slice_to. rewrite <- !list_elem_of_In. apply subseteq_take.
Qed.

Lemma slice_to_descending {A} (key : A -> Q) stop l :
  descending key l -> descending key (slice_to stop l).
Proof. apply descending_take. Qed.

(** The search loop succeeds exactly when every variation does, and then
    appends the results of the variations in order. *)
Lemma gather_ok sv cfg k variations acc all_results :
  gather sv cfg k variations acc = Ok all_results <->
  exists per_variation,
    Forall2 (fun v results => search_variation sv cfg k v = Ok results)
      variations per_variation
    /\ all_results = acc ++ concat per_variation.
Proof.
  revert acc. induction variations as [|v vs IH]; intros acc;
    cbn [gather].
  - split.
    + intros [= <-]. exists []. split; [constructor | now rewrite app_nil_r].
    + intros (per & H & ->). inversion H; subst. cbn. now rewrite app_nil_r.
  - destruct (search_variation sv cfg k v) as [e|results] eqn:Hv;
      cbn [bind].
    + split; [discriminate|]. intros (per & H & _).
      inversion H as [|? ? ? ? Hok]; subst. unfold Ok in Hok. congruence.
    + rewrite IH. split.
      * intros (per & H & ->). exists (results :: per).
        split; [now constructor | cbn; now rewrite app_assoc].
      * intros (per & H & ->). inversion H as [|? r' ? per' Hok Hrest]; subst.
        unfold Ok in Hok. rewrite Hv in Hok. injection Hok as <-.
        exists per'. split; [exact Hrest | cbn; now rewrite app_assoc].
Qed.

(** The first variation whose search raises ends the loop with its
    error. *)
Lemma gather_raise sv cfg k before v after acc e :
  Forall (fun u => exists results, search_variation sv cfg k u = Ok results)
    before ->
  search_variation sv cfg k v = Raise e ->
  gather sv cfg k (before ++ v :: after) acc = Raise e.
Proof.
  intros Hb Hv. revert acc.
  induction Hb as [|u before [results Hu] _ IH]; intros acc;
    cbn [app gather].
  - now rewrite Hv.
  - rewrite Hu. cbn [bind Ok]. apply IH.
Qed.

End PipelineFacts.

(** ** Where the returned records come from *)

Module OriginFacts.

Import Py Retrieval RetrievalSpec FusionFacts DedupFacts PipelineFacts.
Local Open Scope Q_scope.

Lemma fold_left_preserves {A B} (P : A -> Prop) (f : A -> B -> A) l a :
  P a -> (forall a b, P a -> In b l -> P (f a b)) -> P (fold_left f l a).
Proof.
  revert a. induction l as [|b l IH]; intros a Ha Hf; [exact Ha|].
  cbn [fold_left]. apply IH.
  - apply Hf; [exact Ha | now left].
  - intros a' b' Ha' Hb'. apply Hf; [exact Ha' | now right].
Qed.

Lemma enumerate_In {A} (l : list A) ix : In ix (enumerate l) -> In (snd ix) l.
Proof.
  unfold enumerate. rewrite <- !list_elem_of_In. intros H.
  apply elem_of_lookup_imap in H. destruct H as (i & x & -> & Hx).
  cbn. now apply list_elem_of_lookup_2 in Hx.
Qed.

Lemma table_set_Forall (P : string * Scored -> Prop) k v d :
  P (k, v) -> Forall P d -> Forall P (table_set k v d).
Proof.
  intros Hv. induction 1 as [|[k0 v0] d H0 Hd IH]; cbn [table_set].
  - now apply Forall_cons_2.
  - destruct (String.eqb k k0); now apply Forall_cons_2.
Qed.

Lemma table_get_Forall (P : string * Scored -> Prop) k e d :
  Forall P d -> table_get k d = Some e -> P (k, e).
Proof.
  induction 1 as [|[k0 v0] d H0 Hd IH]; cbn [table_get]; [discriminate|].
  destruct (String.eqb k k0) eqn:E; [|exact IH].
  apply String.eqb_eq in E. subst k0. now intros [= <-].
Qed.

Lemma fuse_entries semantic_results keyword_results sw kw :
  Forall (entry_origin semantic_results keyword_results)
    (fuse semantic_results keyword_results sw kw).
Proof.
  unfold fuse, add_keyword, score_semantic.
  apply fold_left_preserves.
  - apply fold_left_preserves; [apply Forall_nil_2|].
    intros acc ir Hacc Hir. apply table_set_Forall; [|exact Hacc].
    split; [reflexivity|]. left. now apply enumerate_In.
  - intros acc ir Hacc Hir. apply enumerate_In in Hir.
    destruct (table_get (row_id (snd ir)) acc) as [e|] eqn:He.
    + apply table_set_Forall; [|exact Hacc].
      exact (table_get_Forall _ _ _ _ Hacc He).
    + apply table_set_Forall; [|exact Hacc].
      split; [reflexivity|]. right. now exists (snd ir).
Qed.

Lemma In_enumerate {A} (l : list A) x :
  In x l -> exists i, In (i, x) (enumerate l).
Proof.
  rewrite <- list_elem_of_In. intros H.
  apply list_elem_of_lookup_1 in H. destruct H as [i Hi].
  exists (Z.of_nat i). apply list_elem_of_In. unfold enumerate.
  apply elem_of_lookup_imap. now exists i, x.
Qed.

Lemma keyword_loop_entered n has_d weight l acc k :
  In k (map (fun ir => row_id (snd ir)) l)
  \/ (exists e, table_get k acc = Some e) ->
  exists e, table_get k (keyword_loop n has_d weight l acc) = Some e.
Proof.
  revert acc. induction l as [|x l IH]; intros acc Hgen.
  - destruct Hgen as [[]|H]. exact H.
  - cbn [keyword_loop fold_left]. apply IH.
    destruct (String.eqb k (row_id (snd x))) eqn:E.
    + right. destruct (table_get (row_id (snd x)) acc);
        rewrite table_get_set, E; eauto.
    + destruct Hgen as [[Hx|Hl]|[e He]].
      * rewrite Hx, String.eqb_refl in E. discriminate.
      * now left.
      * right. exists e.
        destruct (table_get (row_id (snd x)) acc);
          now rewrite table_get_set, E.
Qed.

(** Every id of the keyword list has an entry in [result_scores]. *)
Lemma keyword_ids_entered semantic_results keyword_results sw kw r :
  In r (rows keyword_results) ->
  exists e,
    table_get (row_id r) (fuse semantic_results keyword_results sw kw)
    = Some e.
Proof.
  intros Hr. unfold fuse, add_keyword.
  apply (keyword_loop_entered (length (rows keyword_results))
           (has_distances keyword_results) kw).
  left. destruct (In_enumerate _ _ Hr) as [i Hi].
  apply in_map_iff. now exists (i, r).
Qed.

(** A record that only the keyword list has is entered without a
    similarity. *)
Lemma keyword_only_entry semantic_results keyword_results sw kw r :
  In r (rows keyword_results) ->
  ~ In (row_id r) (map id semantic_results) ->
  exists e,
    table_get (row_id r) (fuse semantic_results keyword_results sw kw)
    = Some e
    /\ similarity (result e) = None.
Proof.
  intros Hr Hnot.
  destruct (keyword_ids_entered semantic_results keyword_results sw kw r Hr)
    as [e He].
  exists e. split; [exact He|].
  pose proof (table_get_Forall _ _ _ _
                (fuse_entries semantic_results keyword_results sw kw) He)
    as Horigin.
  unfold entry_origin in Horigin. cbn [fst snd] in Horigin.
  destruct Horigin as [Hid [Hs|(r' & _ & Heq)]]; [|now rewrite Heq].
  exfalso. apply Hnot. rewrite <- Hid. now apply in_map.
Qed.

Lemma hybrid_search_origin sv query n sw kw out r :
  hybrid_search sv query n sw kw = Ok out -> In r out ->
  exists semantic_results keyword_results,
    search sv query (n * 2) = Ok semantic_results
    /\ query_texts sv query (n * 2) = Ok keyword_results
    /\ (In r semantic_results
        \/ exists row, In row (rows keyword_results)
             /\ r = keyword_only (has_distances keyword_results) row).
Proof.
  unfold hybrid_search.
  destruct (search sv query (n * 2)) as [e|semantic_results];
    [discriminate|].
  destruct (query_texts sv query (n * 2)) as [e|keyword_results];
    [discriminate|].
  cbn [bind]. intros [= <-] Hr.
  exists semantic_results, keyword_results.
  split; [reflexivity|]. split; [reflexivity|].
  apply in_map_iff in Hr. destruct Hr as (e & <- & He).
  apply slice_to_In, sorted_desc_In, in_map_iff in He.
  destruct He as ([k e'] & <- & Hke).
  pose proof (fuse_entries semantic_results keyword_results sw kw) as Hall.
  rewrite Forall_forall in Hall. apply list_elem_of_In in Hke.
  now destruct (Hall _ Hke) as [_ H].
Qed.

(** A record with a similarity was built by [search]. *)
Lemma search_variation_origin sv cfg k variation out r :
  search_variation sv cfg k variation = Ok out -> In r out ->
  similarity r <> None ->
  exists n semantic_results,
    search sv variation n = Ok semantic_results /\ In r semantic_results.
Proof.
  unfold search_variation. destruct (use_hybrid cfg).
  - intros Hs Hr Hsim.
    destruct (hybrid_search_origin _ _ _ _ _ _ _ Hs Hr)
      as (S & K & HS & _ & [Hin|(row & _ & ->)]).
    + now exists (k * 2)%Z, S.
    + now contradict Hsim.
  - intros Hs Hr _. now exists k, out.
Qed.

Lemma search_similarity sv query n out r :
  search sv query n = Ok out -> In r out ->
  exists row has_d,
    r = format_result has_d row
    /\ similarity r
       = Some (if has_d then PyNum (1 - row_distance row) else PyNone).
Proof.
  unfold search. destruct (query_embeddings sv query n) as [e|q];
    [discriminate|].
  cbn [bind]. intros [= <-] Hr. apply in_map_iff in Hr.
  destruct Hr as (row & <- & _). now exists row, (has_distances q).
Qed.

(** *** [retrieve], step by step *)

Lemma retrieve_unfold sv cfg query k_arg :
  retrieve sv cfg query k_arg =
  try! all_results :=
    gather sv cfg (effective_k cfg k_arg) (expand_query sv query) [] in
  rank_results cfg (effective_k cfg k_arg) all_results.
Proof. reflexivity. Qed.

Lemma rank_results_In cfg k all_results out r :
  rank_results cfg k all_results = Ok out -> In r out ->
  In r (deduplicate_results all_results)
  /\ passes_threshold (similarity_threshold cfg) r = Ok true.
Proof.
  unfold rank_results.
  destruct (filter_by_threshold _ _) as [e|filtered] eqn:Hf; [discriminate|].
  cbn [bind]. intros [= <-] Hr.
  apply slice_to_In, sorted_desc_In in Hr.
  now apply (filter_by_threshold_spec _ _ _ r Hf).
Qed.

Lemma rank_results_descending cfg k all_results out :
  rank_results cfg k all_results = Ok out ->
  descending similarity_key out.
Proof.
  unfold rank_results.
  destruct (filter_by_threshold _ _) as [e|filtered]; [discriminate|].
  cbn [bind]. intros [= <-].
  apply slice_to_descending, sorted_desc_sorted.
Qed.

Lemma retrieve_ok sv cfg query k_arg out :
  retrieve sv cfg query k_arg = Ok out ->
  exists per_variation,
    Forall2
      (fun v results =>
         search_variation sv cfg (effective_k cfg k_arg) v = Ok results)
      (expand_query sv query) per_variation
    /\ rank_results cfg (effective_k cfg k_arg) (concat per_variation)
       = Ok out.
Proof.
  rewrite retrieve_unfold.
  destruct (gather _ _ _ _ _) as [e|all_results] eqn:Hg; [discriminate|].
  cbn [bind]. intros Hrank.
  apply gather_ok in Hg. destruct Hg as (per & Hper & ->).
  now exists per.
Qed.

Lemma passes_positive_threshold threshold r :
  0 < threshold -> passes_threshold threshold r = Ok true ->
  exists s, similarity r = Some (PyNum s) /\ threshold <= s.
Proof.
  intros Hpos. unfold passes_threshold.
  destruct (similarity r) as [[|s]|]; [discriminate| |].
  - intros [= H]. apply Qle_bool_iff in H. now exists s.
  - intros [= H]. apply Qle_bool_iff in H. lra.
Qed.

End OriginFacts.

(** ** Retrieval: claims C1 to C3 and C8 to C10 *)

Module RetrievalClaims.

Import Py Retrieval RetrievalSpec.
Import FusionFacts DedupFacts PipelineFacts OriginFacts.
Local Open Scope Q_scope.

Lemma rank_score_top n : rank_score 0 n == 1.
Proof.
  unfold rank_score, Qdiv. change (inject_Z 0) with 0. ring.
Qed.

(** The score of an entry is the sum of what the two lists contribute. *)
Lemma fuse_score semantic_results keyword_results sw kw k e :
  NoDup (map id semantic_results) ->
  NoDup (map row_id (rows keyword_results)) ->
  table_get k (fuse semantic_results keyword_results sw kw) = Some e ->
  score e == contribution id sw semantic_results k
             + contribution row_id kw (rows keyword_results) k.
Proof.
  intros Hs Hk. rewrite (fuse_lookup _ _ sw kw k Hs Hk). unfold contribution.
  destruct (find_rank id k semantic_results) as [[i r]|];
    destruct (find_rank row_id k (rows keyword_results)) as [[j row]|];
    intros [= <-]; cbn [score]; ring.
Qed.

Lemma Forall2_concat_In {A B} (P : A -> list B -> Prop) l ll x :
  Forall2 P l ll -> In x (concat ll) ->
  exists a xs, In a l /\ P a xs /\ In x xs.
Proof.
  induction 1 as [|a xs l ll Ha _ IH]; cbn [concat]; [intros []|].
  intros H. apply in_app_or in H. destruct H as [H|H].
  - exists a, xs. split; [now left | now split].
  - destruct (IH H) as (a' & xs' & Hin & HP & Hx).
    exists a', xs'. split; [now right | now split].
Qed.

(** C1 (amended).  Scores add up only inside the hybrid search of one
    variation: there the combined score of an id is the sum, over the
    semantic and keyword lists of that variation, of the rank-normalised
    score in the list times the weight of the list.  Across variations
    nothing is added: every record returned by [retrieve] is a record of
    the result list of one variation, taken as it is, and the output is
    ordered by similarity. *)
Theorem C1_scores_add_within_one_variation (sv : Services) (cfg : Config)
    (query : string) (k_arg : option Z) (out : list SearchResult) :
  use_hybrid cfg = true ->
  retrieve sv cfg query k_arg = Ok out ->
  let k := effective_k cfg k_arg in
  (forall variation semantic_results keyword_results i e,
     In variation (expand_query sv query) ->
     search sv variation (k * 2) = Ok semantic_results ->
     query_texts sv variation (k * 2) = Ok keyword_results ->
     NoDup (map id semantic_results) ->
     NoDup (map row_id (rows keyword_results)) ->
     table_get i
       (fuse semantic_results keyword_results (semantic_weight cfg)
          (keyword_weight cfg)) = Some e ->
     score e ==
     contribution id (semantic_weight cfg) semantic_results i
     + contribution row_id (keyword_weight cfg) (rows keyword_results) i)
  /\ (forall r, In r out ->
        exists variation results,
          In variation (expand_query sv query)
          /\ hybrid_search sv variation k (semantic_weight cfg)
               (keyword_weight cfg) = Ok results
          /\ In r results)
  /\ descending similarity_key out.
Proof.
  intros Hhybrid Hret k. split; [|split].
  - intros variation S K i e _ _ _ HS HK. now apply fuse_score.
  - intros r Hr. destruct (retrieve_ok _ _ _ _ _ Hret) as (per & Hper & Hrank).
    destruct (rank_results_In _ _ _ _ _ Hrank Hr) as [Hd _].
    pose proof (dedup_from_sublist ∅ (concat per)) as Hsub.
    apply list_elem_of_In in Hd. apply (sublist_subseteq _ _ Hsub) in Hd.
    apply list_elem_of_In in Hd.
    destruct (Forall2_concat_In _ _ _ _ Hper Hd) as (v & results & Hv & Hs & Hin).
    exists v, results. split; [exact Hv|]. split; [|exact Hin].
    unfold search_variation in Hs. now rewrite Hhybrid in Hs.
  - destruct (retrieve_ok _ _ _ _ _ Hret) as (per & _ & Hrank).
    now apply rank_results_descending in Hrank.
Qed.

Lemma C1_scores_add_within_one_variation_witness :
  let out := [format_result true (row "a" "alpha" (1 # 10))] in
  (forall variation semantic_results keyword_results i e,
     In variation (expand_query one_passage "twice") ->
     search one_passage variation (8 * 2) = Ok semantic_results ->
     query_texts one_passage variation (8 * 2) = Ok keyword_results ->
     NoDup (map id semantic_results) ->
     NoDup (map row_id (rows keyword_results)) ->
     table_get i (fuse semantic_results keyword_results (7 # 10) (3 # 10))
     = Some e ->
     score e ==
     contribution id (7 # 10) semantic_results i
     + contribution row_id (3 # 10) (rows keyword_results) i)
  /\ (forall r, In r out ->
        exists variation results,
          In variation (expand_query one_passage "twice")
          /\ hybrid_search one_passage variation 8 (7 # 10) (3 # 10)
             = Ok results
          /\ In r results)
  /\ descending similarity_key out.
Proof.
  exact (C1_scores_add_within_one_variation one_passage default_config
           "twice" None _ eq_refl eq_refl).
Defined.

(** C1 as stated fails.  The index [one_passage] returns the same output for
    the query ["twice"], expanded into two variations that both find
    passage ["a"] first, and for the query ["once"], left alone; the scores
    accumulated over the variant lists are 2 and 1; each hybrid search
    gave ["a"] the score 1.  So no score read off the returned candidate is
    the accumulated one. *)
Lemma C1_counterexample :
  retrieve one_passage default_config "twice" None
  = retrieve one_passage default_config "once" None
  /\ accumulated_score one_passage default_config "twice" None "a" == 2
  /\ accumulated_score one_passage default_config "once" None "a" == 1
  /\ Forall (fun e => score e == 1)
       (instances one_passage default_config "twice" None "a")
  /\ ~ exists score_of,
         scores_accumulate_across_variants score_of one_passage
           default_config "twice" None
         /\ scores_accumulate_across_variants score_of one_passage
              default_config "once" None.
Proof.
  split; [reflexivity|]. split; [reflexivity|]. split; [reflexivity|].
  split; [repeat constructor|].
  intros (score_of & Htwice & Honce).
  pose (r := format_result true (row "a" "alpha" (1 # 10))).
  assert (H2 : score_of r == 2).
  { rewrite (Htwice [r] r eq_refl (or_introl eq_refl)). reflexivity. }
  assert (H1 : score_of r == 1).
  { rewrite (Honce [r] r eq_refl (or_introl eq_refl)). reflexivity. }
  rewrite H2 in H1. discriminate.
Qed.

(** C2 (amended).  An error raised by the search of a variation is not
    caught: [retrieve] raises the error of the first variation whose search
    fails and returns no results.  When the search of every variation
    succeeds, [retrieve] is the deduplicated, filtered and ranked
    concatenation of the results of the variations. *)
Theorem C2_search_error_aborts_retrieve (sv : Services) (cfg : Config)
    (query : string) (k_arg : option Z) :
  let k := effective_k cfg k_arg in
  (forall before variation after e,
     expand_query sv query = before ++ variation :: after ->
     Forall (fun u => exists results, search_variation sv cfg k u = Ok results)
       before ->
     search_variation sv cfg k variation = Raise e ->
     retrieve sv cfg query k_arg = Raise e)
  /\ (forall per_variation,
        Forall2 (fun v results => search_variation sv cfg k v = Ok results)
          (expand_query sv query) per_variation ->
        retrieve sv cfg query k_arg
        = rank_results cfg k (concat per_variation)).
Proof.
  intros k. subst k. split.
  - intros before variation after e Hexp Hbefore Hfail.
    rewrite retrieve_unfold, Hexp.
    now rewrite (gather_raise sv cfg _ before variation after [] e
                   Hbefore Hfail).
  - intros per Hper. rewrite retrieve_unfold.
    assert (Hg : gather sv cfg (effective_k cfg k_arg) (expand_query sv query)
                   [] = Ok (concat per)).
    { apply gather_ok. now exists per. }
    now rewrite Hg.
Qed.

Lemma C2_search_error_aborts_retrieve_witness :
  retrieve one_variation_down default_config "up" None
  = Raise (ExternalError "index unavailable")
  /\ retrieve one_passage default_config "twice" None
     = rank_results default_config 8
         (concat [[format_result true (row "a" "alpha" (1 # 10))];
                  [format_result true (row "a" "alpha" (1 # 10))]]).
Proof.
  split.
  - apply (proj1 (C2_search_error_aborts_retrieve one_variation_down
                    default_config "up" None)
             ["up"%string] "down"%string [] (ExternalError "index unavailable")
             eq_refl).
    + apply Forall_cons_2; [|apply Forall_nil_2].
      exists [format_result true (row "a" "alpha" (1 # 10))]. reflexivity.
    + reflexivity.
  - apply (proj2 (C2_search_error_aborts_retrieve one_passage default_config
                    "twice" None)).
    apply Forall2_cons_2; [reflexivity|].
    apply Forall2_cons_2; [reflexivity|]. apply Forall2_nil_2.
Defined.

(** C2 as stated fails.  With the index down for the second variation,
    [retrieve] raises the error of the index, although the first variation
    alone gives a result that passes the threshold. *)
Lemma C2_counterexample :
  retrieve one_variation_down default_config "up" None
  = Raise (ExternalError "index unavailable")
  /\ rank_results default_config 8
       (surviving_results one_variation_down default_config 8
          (expand_query one_variation_down "up"))
     = Ok [format_result true (row "a" "alpha" (1 # 10))]
  /\ ~ failures_are_isolated one_variation_down default_config "up" None.
Proof.
  split; [reflexivity|]. split; [reflexivity|].
  unfold failures_are_isolated. discriminate.
Qed.

(** C3 (amended).  With a positive threshold, every candidate returned by
    [retrieve] carries a numeric similarity, at least the threshold.  It is
    the semantic one: the record was built by [search] for some variation,
    with similarity [1 - distance]; the keyword loop never sets a
    similarity.  And it is the record seen first, among the results of all
    variations in order, with its 100-character text prefix, whatever the
    scores of later instances of the id. *)
Theorem C3_similarity_of_first_seen_semantic_record (sv : Services)
    (cfg : Config) (query : string) (k_arg : option Z)
    (out : list SearchResult) (r : SearchResult) :
  0 < similarity_threshold cfg ->
  retrieve sv cfg query k_arg = Ok out ->
  In r out ->
  (exists s d,
     similarity r = Some (PyNum s) /\ distance r = PyNum d /\ s = 1 - d
     /\ similarity_threshold cfg <= s)
  /\ (exists variation n semantic_results,
        In variation (expand_query sv query)
        /\ search sv variation n = Ok semantic_results
        /\ In r semantic_results)
  /\ (exists per_variation before after,
        Forall2
          (fun v results =>
             search_variation sv cfg (effective_k cfg k_arg) v = Ok results)
          (expand_query sv query) per_variation
        /\ concat per_variation = before ++ r :: after
        /\ forall e, In e before -> fingerprint e <> fingerprint r).
Proof.
  intros Hpos Hret Hr.
  destruct (retrieve_ok _ _ _ _ _ Hret) as (per & Hper & Hrank).
  destruct (rank_results_In _ _ _ _ _ Hrank Hr) as [Hd Hpass].
  destruct (passes_positive_threshold _ _ Hpos Hpass) as (s & Hs & Hle).
  apply dedup_from_spec in Hd. destruct Hd as (before & after & Hcat & _ & Hb).
  assert (Hin : In r (concat per)).
  { rewrite Hcat. apply in_or_app. right. now left. }
  destruct (Forall2_concat_In _ _ _ _ Hper Hin)
    as (v & results & Hv & Hsv & Hres).
  assert (Hsim : similarity r <> None) by (rewrite Hs; discriminate).
  destruct (search_variation_origin _ _ _ _ _ _ Hsv Hres Hsim)
    as (n & S & HS & HrS).
  split; [|split].
  - destruct (search_similarity _ _ _ _ _ HS HrS) as (rw & has_d & -> & Hf).
    rewrite Hs in Hf. destruct has_d; [|discriminate].
    injection Hf as ->. exists (1 - row_distance rw), (row_distance rw).
    split; [exact Hs|]. split; [reflexivity|]. split; [reflexivity|exact Hle].
  - now exists v, n, S.
  - now exists per, before, after.
Qed.

Lemma C3_similarity_of_first_seen_semantic_record_witness :
  let r := format_result true (row "a" "alpha" (1 # 2)) in
  (exists s d,
     similarity r = Some (PyNum s) /\ distance r = PyNum d /\ s = 1 - d
     /\ 3 # 10 <= s)
  /\ (exists variation n semantic_results,
        In variation (expand_query two_rankings "q")
        /\ search two_rankings variation n = Ok semantic_results
        /\ In r semantic_results)
  /\ (exists per_variation before after,
        Forall2
          (fun v results =>
             search_variation two_rankings default_config 8 v = Ok results)
          (expand_query two_rankings "q") per_variation
        /\ concat per_variation = before ++ r :: after
        /\ forall e, In e before -> fingerprint e <> fingerprint r).
Proof.
  exact (C3_similarity_of_first_seen_semantic_record two_rankings
           default_config "q" None
           [format_result true (row "b" "beta" (1 # 10));
            format_result true (row "a" "alpha" (1 # 2))]
           (format_result true (row "a" "alpha" (1 # 2)))
           eq_refl eq_refl (or_intror (or_introl eq_refl))).
Defined.

(** C3 as stated fails, in two ways.  In [two_rankings] passage ["a"] is
    second for the query (score 7/20, similarity 1/2) and first for its
    rephrasing (score 7/10, similarity 9/10); [retrieve] returns the
    first-seen record, with similarity 1/2, not the similarity of the
    highest-scoring instance.  In [keyword_finds_more], with the threshold
    set to 0, [retrieve] returns passage ["c"], found by the keyword query
    only, without any similarity. *)
Lemma C3_counterexample :
  (retrieve two_rankings default_config "q" None
   = Ok [format_result true (row "b" "beta" (1 # 10));
         format_result true (row "a" "alpha" (1 # 2))]
   /\ highest_scoring (instances two_rankings default_config "q" None "a")
      = Some {| result := format_result true (row "a" "alpha" (1 # 10));
                score := 7 # 10 |}
   /\ ~ similarity_of_highest_scoring two_rankings default_config "q" None)
  /\ (retrieve keyword_finds_more no_threshold "q" None
      = Ok [format_result true (row "a" "alpha" (1 # 10));
            keyword_only true (row "c" "gamma" (1 # 5))]
      /\ similarity (keyword_only true (row "c" "gamma" (1 # 5))) = None
      /\ ~ similarity_of_highest_scoring keyword_finds_more no_threshold
            "q" None).
Proof.
  split.
  - split; [reflexivity|]. split; [reflexivity|].
    intros H.
    destruct (H _ (format_result true (row "a" "alpha" (1 # 2))) eq_refl
                (or_intror (or_introl eq_refl)))
      as (s & e & Hs & He & Hes).
    vm_compute in He. injection He as <-.
    vm_compute in Hs, Hes. congruence.
  - split; [reflexivity|]. split; [reflexivity|].
    intros H.
    destruct (H _ (keyword_only true (row "c" "gamma" (1 # 5))) eq_refl
                (or_intror (or_introl eq_refl)))
      as (s & e & Hs & _).
    discriminate.
Qed.

(** C8.  [deduplicate_results] keeps, in input order, exactly the first
    candidate seen for each distinct 100-character text prefix: a record is
    kept when no earlier record has its prefix, the result is a subsequence
    of the input with pairwise distinct prefixes in which every prefix of
    the input occurs.  Hence it is idempotent and never longer than its
    input. *)
Theorem C8_dedup_keeps_first_of_each_prefix (results : list SearchResult) :
  (forall r,
     In r (deduplicate_results results) <->
     exists before after,
       results = before ++ r :: after
       /\ forall e, In e before -> prefix 100 (text e) <> prefix 100 (text r))
  /\ deduplicate_results results `sublist_of` results
  /\ NoDup (map (fun r => prefix 100 (text r)) (deduplicate_results results))
  /\ (forall r, In r results ->
        In (prefix 100 (text r))
          (map (fun r => prefix 100 (text r)) (deduplicate_results results)))
  /\ deduplicate_results (deduplicate_results results)
     = deduplicate_results results
  /\ (length (deduplicate_results results) <= length results)%nat.
Proof.
  unfold deduplicate_results. repeat split.
  - intros H. apply dedup_from_spec in H.
    destruct H as (before & after & E & _ & Hb). now exists before, after.
  - intros (before & after & E & Hb). apply dedup_from_spec.
    exists before, after. split; [exact E|].
    split; [apply not_elem_of_empty | exact Hb].
  - apply dedup_from_sublist.
  - apply dedup_from_NoDup.
  - intros r Hr. apply (dedup_from_covers ∅ results r Hr), not_elem_of_empty.
  - apply dedup_from_idem.
  - apply sublist_length, dedup_from_sublist.
Qed.

(** C9.  In the score fusion of a hybrid search over result lists without
    repeated ids, a candidate at 0-based rank [i] of a list of length [N]
    gets from that list the score [1 - i/N] times the weight of the list,
    and nothing from a list it is absent from; so the top candidate of a
    list gets exactly the weight of the list, and in a list of one the
    rank score is 1. *)
Theorem C9_rank_normalised_contributions (semantic_results : list SearchResult)
    (keyword_results : QueryResult) (sw kw : Q) :
  NoDup (map id semantic_results) ->
  NoDup (map row_id (rows keyword_results)) ->
  let table := fuse semantic_results keyword_results sw kw in
  let n_sem := inject_Z (Z.of_nat (length semantic_results)) in
  let n_key := inject_Z (Z.of_nat (length (rows keyword_results))) in
  (forall i r,
     semantic_results !! i = Some r ->
     exists e,
       table_get (id r) table = Some e
       /\ score e ==
          (1 - inject_Z (Z.of_nat i) / n_sem) * sw
          + contribution row_id kw (rows keyword_results) (id r))
  /\ (forall j row,
        rows keyword_results !! j = Some row ->
        exists e,
          table_get (row_id row) table = Some e
          /\ score e ==
             contribution id sw semantic_results (row_id row)
             + (1 - inject_Z (Z.of_nat j) / n_key) * kw)
  /\ (forall k, ~ In k (map id semantic_results) ->
        contribution id sw semantic_results k == 0)
  /\ (forall k, ~ In k (map row_id (rows keyword_results)) ->
        contribution row_id kw (rows keyword_results) k == 0)
  /\ (forall r, semantic_results !! 0%nat = Some r ->
        contribution id sw semantic_results (id r) == sw)
  /\ (forall row, rows keyword_results !! 0%nat = Some row ->
        contribution row_id kw (rows keyword_results) (row_id row) == kw)
  /\ rank_score 0 1 == 1.
Proof.
  intros Hs Hk table n_sem n_key. subst table n_sem n_key.
  split; [|split; [|split; [|split; [|split; [|split]]]]].
  - intros i r Hi. pose proof (find_rank_lookup id _ _ _ Hs Hi) as Hfind.
    pose proof (fuse_lookup _ _ sw kw (id r) Hs Hk) as Hget.
    rewrite Hfind in Hget. unfold contribution.
    destruct (find_rank row_id (id r) (rows keyword_results)) as [[j row]|];
      eexists; (split; [exact Hget|]); cbn [score]; unfold rank_score; ring.
  - intros j row Hj. pose proof (find_rank_lookup row_id _ _ _ Hk Hj) as Hfind.
    pose proof (fuse_lookup _ _ sw kw (row_id row) Hs Hk) as Hget.
    rewrite Hfind in Hget. unfold contribution.
    destruct (find_rank id (row_id row) semantic_results) as [[i r]|];
      eexists; (split; [exact Hget|]); cbn [score]; unfold rank_score; ring.
  - intros k Hk'. unfold contribution.
    now rewrite (proj2 (find_rank_none id k semantic_results) Hk').
  - intros k Hk'. unfold contribution.
    now rewrite (proj2 (find_rank_none row_id k (rows keyword_results)) Hk').
  - intros r Hr. unfold contribution.
    rewrite (find_rank_lookup id _ _ _ Hs Hr). cbn [Z.of_nat].
    rewrite rank_score_top. ring.
  - intros row Hr. unfold contribution.
    rewrite (find_rank_lookup row_id _ _ _ Hk Hr). cbn [Z.of_nat].
    rewrite rank_score_top. ring.
  - reflexivity.
Qed.

Lemma C9_rank_normalised_contributions_witness :
  let semantic_results :=
    [format_result true (row "b" "beta" (1 # 10));
     format_result true (row "a" "alpha" (1 # 2))] in
  let keyword_results :=
    {| rows := [row "c" "gamma" (1 # 5); row "a" "alpha" (1 # 2)];
       has_distances := true |} in
  let table := fuse semantic_results keyword_results (7 # 10) (3 # 10) in
  let n_sem := inject_Z (Z.of_nat (length semantic_results)) in
  let n_key := inject_Z (Z.of_nat (length (rows keyword_results))) in
  (forall i r,
     semantic_results !! i = Some r ->
     exists e,
       table_get (id r) table = Some e
       /\ score e ==
          (1 - inject_Z (Z.of_nat i) / n_sem) * (7 # 10)
          + contribution row_id (3 # 10) (rows keyword_results) (id r))
  /\ (forall j row,
        rows keyword_results !! j = Some row ->
        exists e,
          table_get (row_id row) table = Some e
          /\ score e ==
             contribution id (7 # 10) semantic_results (row_id row)
             + (1 - inject_Z (Z.of_nat j) / n_key) * (3 # 10))
  /\ (forall k, ~ In k (map id semantic_results) ->
        contribution id (7 # 10) semantic_results k == 0)
  /\ (forall k, ~ In k (map row_id (rows keyword_results)) ->
        contribution row_id (3 # 10) (rows keyword_results) k == 0)
  /\ (forall r, semantic_results !! 0%nat = Some r ->
        contribution id (7 # 10) semantic_results (id r) == 7 # 10)
  /\ (forall row, rows keyword_results !! 0%nat = Some row ->
        contribution row_id (3 # 10) (rows keyword_results) (row_id row)
        == 3 # 10)
  /\ rank_score 0 1 == 1.
Proof.
  apply (C9_rank_normalised_contributions
           [format_result true (row "b" "beta" (1 # 10));
            format_result true (row "a" "alpha" (1 # 2))]
           {| rows := [row "c" "gamma" (1 # 5); row "a" "alpha" (1 # 2)];
              has_distances := true |} (7 # 10) (3 # 10)).
  - apply (bool_decide_unpack _). vm_compute. exact I.
  - apply (bool_decide_unpack _). vm_compute. exact I.
Defined.

(** C10.  [filter_by_threshold] reads a missing similarity as 0.  With a
    positive threshold a record without the key fails the test and is in
    no output of [retrieve]; this is so for every record that
    [hybrid_search] builds from the keyword list alone, which gets a
    distance and no similarity. *)
Theorem C10_missing_similarity_is_zero (sv : Services) (cfg : Config)
    (query : string) (k_arg : option Z) (out : list SearchResult) :
  0 < similarity_threshold cfg ->
  retrieve sv cfg query k_arg = Ok out ->
  (forall r,
     similarity r = None ->
     similarity_key r = 0
     /\ (forall threshold,
           passes_threshold threshold r = Ok (Qle_bool threshold 0))
     /\ passes_threshold (similarity_threshold cfg) r = Ok false
     /\ ~ In r out)
  /\ (forall semantic_results keyword_results row,
        In row (rows keyword_results) ->
        ~ In (row_id row) (map id semantic_results) ->
        exists e,
          table_get (row_id row)
            (fuse semantic_results keyword_results (semantic_weight cfg)
               (keyword_weight cfg)) = Some e
          /\ similarity (result e) = None
          /\ ~ In (result e) out).
Proof.
  intros Hpos Hret.
  assert (Hmissing : forall r, similarity r = None -> ~ In r out).
  { intros r Hr Hin.
    destruct (retrieve_ok _ _ _ _ _ Hret) as (per & _ & Hrank).
    destruct (rank_results_In _ _ _ _ _ Hrank Hin) as [_ Hpass].
    destruct (passes_positive_threshold _ _ Hpos Hpass) as (s & Hs & _).
    congruence. }
  split.
  - intros r Hr. split; [|split; [|split]].
    + unfold similarity_key. now rewrite Hr.
    + intros threshold. unfold passes_threshold. now rewrite Hr.
    + unfold passes_threshold. rewrite Hr. f_equal.
      destruct (Qle_bool (similarity_threshold cfg) 0) eqn:E; [|reflexivity].
      apply Qle_bool_iff in E. lra.
    + now apply Hmissing.
  - intros S K rw Hrow Hnot.
    destruct (keyword_only_entry S K (semantic_weight cfg) (keyword_weight cfg)
                rw Hrow Hnot) as (e & He & Hsim).
    exists e. split; [exact He|]. split; [exact Hsim | now apply Hmissing].
Qed.

Lemma C10_missing_similarity_is_zero_witness :
  let out := [format_result true (row "a" "alpha" (1 # 10))] in
  (forall r,
     similarity r = None ->
     similarity_key r = 0
     /\ (forall threshold,
           passes_threshold threshold r = Ok (Qle_bool threshold 0))
     /\ passes_threshold (3 # 10) r = Ok false
     /\ ~ In r out)
  /\ (forall semantic_results keyword_results row,
        In row (rows keyword_results) ->
        ~ In (row_id row) (map id semantic_results) ->
        exists e,
          table_get (row_id row)
            (fuse semantic_results keyword_results (7 # 10) (3 # 10))
          = Some e
          /\ similarity (result e) = None
          /\ ~ In (result e) out).
Proof.
  exact (C10_missing_similarity_is_zero keyword_finds_more default_config
           "q" None _ eq_refl eq_refl).
Defined.

End RetrievalClaims.

(** * Further properties *)

(** ** Sentence splitting keeps the words *)

Module SentenceFacts.

Import Py Chunker ChunkerSpec PyFacts TailFacts.

Lemma split_space c s : is_space c = true -> split (String c s) = split s.
Proof. intros H. rewrite split_cons. now rewrite H. Qed.

(** A character that is not whitespace, before the end or a blank, is a
    word of its own. *)
Lemma split_letter_alone c s :
  is_space c = false -> (s = EmptyString \/ starts_with_space s = true) ->
  split (String c s) = String c EmptyString :: split s.
Proof.
  intros Hc Hs. rewrite split_cons, Hc.
  destruct Hs as [->|Hs]; [reflexivity|]. rewrite Hs. now destruct (split s).
Qed.

(** Otherwise it joins the first word of the rest. *)
Lemma split_letter_joins c s :
  is_space c = false -> s <> EmptyString -> starts_with_space s = false ->
  exists w ws, split s = w :: ws /\ split (String c s) = String c w :: ws.
Proof.
  intros Hc Hne Hs. rewrite split_cons, Hc, Hs.
  destruct (split s) as [|w ws] eqn:E; [|now exists w, ws].
  apply split_nil_iff in E. destruct s as [|d s]; [congruence|].
  cbn in E, Hs. rewrite Hs in E. discriminate.
Qed.

Lemma split_lstrip s : split (lstrip s) = split s.
Proof.
  induction s as [|c s IH]; [reflexivity|]. cbn [lstrip].
  destruct (is_space c) eqn:Hc; [|reflexivity]. now rewrite split_space.
Qed.

Lemma rstrip_starts s :
  rstrip s <> EmptyString ->
  starts_with_space (rstrip s) = starts_with_space s.
Proof.
  destruct s as [|c s]; [reflexivity|]. cbn [rstrip].
  destruct (is_empty (rstrip s) && is_space c); [congruence|reflexivity].
Qed.

Lemma split_rstrip s : split (rstrip s) = split s.
Proof.
  induction s as [|c s IH]; [reflexivity|]. cbn [rstrip].
  destruct (is_empty (rstrip s) && is_space c) eqn:E.
  - apply andb_prop in E. destruct E as [Hr Hc].
    rewrite (split_space c s Hc), <- IH.
    destruct (rstrip s); [reflexivity|discriminate].
  - rewrite !split_cons, IH. destruct (is_space c); [reflexivity|].
    destruct (split s) as [|w ws] eqn:Es; [reflexivity|].
    rewrite rstrip_starts; [reflexivity|].
    intros Hr. rewrite Hr in IH. cbn in IH. congruence.
Qed.

Lemma split_strip s : split (strip s) = split s.
Proof. unfold strip. now rewrite split_rstrip, split_lstrip. Qed.

(** The piece under construction starts like the text that is left. *)
Lemma re_split_go_head s :
  exists p ps,
    re_split_go false s = p :: ps
    /\ is_empty p = is_empty s
    /\ starts_with_space p = starts_with_space s.
Proof.
  destruct s as [|c s]; [now exists EmptyString, []|].
  cbn [re_split_go andb].
  destruct (is_terminal c && starts_with_space s).
  - now exists (String c EmptyString), (re_split_go true s).
  - destruct (re_split_go_cons false s) as (p & ps & ->).
    now exists (String c p), ps.
Qed.

(** The pieces of the regex split hold the words of the text, in order. *)
Lemma re_split_go_words b s :
  concat (map split (re_split_go b s)) = split s.
Proof.
  revert b. induction s as [|c s IH]; intros b; [reflexivity|].
  cbn [re_split_go].
  destruct (b && is_space c) eqn:Hb.
  - apply andb_prop in Hb. destruct Hb as [_ Hc].
    now rewrite IH, split_space.
  - destruct (is_terminal c && starts_with_space s) eqn:Ht.
    + apply andb_prop in Ht. destruct Ht as [Ht Hs].
      apply terminal_not_space in Ht.
      cbn [map concat]. rewrite IH.
      rewrite (split_letter_alone c s Ht (or_intror Hs)).
      now rewrite (split_letter_alone c EmptyString Ht (or_introl eq_refl)).
    + destruct (re_split_go_head s) as (p & ps & Ego & Hemp & Hst).
      specialize (IH false). rewrite Ego in IH |- *.
      cbn [cons_head map concat] in IH |- *.
      destruct (is_space c) eqn:Hc.
      { now rewrite !split_space by exact Hc. }
      destruct s as [|d s].
      { destruct p; [|cbn in Hemp; discriminate]. cbn in IH.
        rewrite (split_letter_alone c EmptyString Hc (or_introl eq_refl)).
        cbn [split app]. now rewrite IH. }
      destruct p as [|d' p]; [cbn in Hemp; discriminate|].
      destruct (starts_with_space (String d s)) eqn:Hd.
      * rewrite (split_letter_alone c (String d s) Hc (or_intror Hd)).
        rewrite (split_letter_alone c (String d' p) Hc);
          [|right; now rewrite Hst].
        cbn [app]. now rewrite IH.
      * destruct (split_letter_joins c (String d' p) Hc) as (w & ws & Ew & ->);
          [discriminate | now rewrite Hst |].
        rewrite Ew in IH. cbn [app] in IH |- *.
        destruct (split_letter_joins c (String d s) Hc) as (w' & ws' & Ew' & ->);
          [discriminate | exact Hd |].
        rewrite Ew' in IH. now injection IH as -> ->.
Qed.

Lemma concat_split_filter (pieces : list string) :
  concat
    (map split
       (map strip
          (List.filter (fun p => negb (is_empty (strip p))) pieces)))
  = concat (map split pieces).
Proof.
  induction pieces as [|p pieces IH]; [reflexivity|].
  cbn [List.filter map concat].
  destruct (is_empty (strip p)) eqn:E; cbn [negb map concat].
  - rewrite IH. apply strip_empty_iff, split_nil_iff in E. now rewrite E.
  - now rewrite IH, split_strip.
Qed.

End SentenceFacts.

(** ** The chunks as a chain of overlapping word lists *)

Module TraceFacts.

Import Py Chunker ChunkerSpec PyFacts ChunkerFacts TailFacts ScenarioFacts.
Import ChunkerTrace SentenceFacts.

Lemma seed_of_overlap_seed cfg cur :
  Forall (fun w => is_word w = true) cur ->
  overlap_seed cfg cur = seed_of cfg cur.
Proof. apply overlap_seed_words. Qed.

Lemma chunk_words_seal st meta :
  buffer_ok st -> chunk_words (seal st meta) = current_chunk st.
Proof. intros [Hw _ _]. unfold chunk_words, seal; cbn [text]. now apply split_join. Qed.

Lemma chained_app_inv cfg l1 l2 : chained cfg (l1 ++ l2) -> chained cfg l1.
Proof.
  induction l1 as [|a l1 IH]; [easy|]. cbn [app chained].
  intros [Hhead Htail]. split; [|now apply IH].
  destruct l1 as [|b l1]; [exact I | exact Hhead].
Qed.

(** Replacing the last list by a longer one keeps the chain. *)
Lemma chained_grow cfg l b extra :
  chained cfg (l ++ [b]) -> chained cfg (l ++ [b ++ extra]).
Proof.
  induction l as [|a l IH]; [easy|]. cbn [app chained].
  intros [Hhead Htail]. split; [|now apply IH].
  destruct l as [|a' l]; [|exact Hhead].
  cbn [app] in Hhead |- *. destruct Hhead as (rest & Hne & ->).
  exists (rest ++ extra). split; [|now rewrite app_assoc].
  intros E. apply app_eq_nil in E. tauto.
Qed.

(** Adding a list that overlaps the last one keeps the chain. *)
Lemma chained_extend cfg l b c :
  chained cfg (l ++ [b]) -> overlaps cfg b c -> chained cfg (l ++ [b; c]).
Proof.
  intros Hl Hbc. induction l as [|a l IH]; [cbn; tauto|].
  cbn [app chained] in Hl |- *. destruct Hl as [Hhead Htail].
  split; [|now apply IH].
  destruct l as [|a' l]; exact Hhead.
Qed.

Lemma fresh_after_app cfg prev l1 l2 a :
  fresh_after cfg prev (l1 ++ a :: l2)
  = fresh_after cfg prev (l1 ++ [a]) ++ fresh_after cfg a l2.
Proof.
  revert prev. induction l1 as [|x l1 IH]; intros prev; cbn [app fresh_after].
  - now rewrite app_nil_r.
  - now rewrite IH, app_assoc.
Qed.

Lemma fresh_after_grow cfg prev l b extra :
  chained cfg (prev :: l ++ [b]) ->
  fresh_after cfg prev (l ++ [b ++ extra])
  = fresh_after cfg prev (l ++ [b]) ++ extra.
Proof.
  revert prev. induction l as [|a l IH]; intros prev.
  - cbn [app chained fresh_after]. intros [(rest & _ & ->) _].
    rewrite !app_nil_r, <- app_assoc, !drop_app_length. reflexivity.
  - cbn [app chained fresh_after]. intros [_ Htail].
    now rewrite (IH a Htail), app_assoc.
Qed.

Lemma fresh_words_grow cfg l b extra :
  chained cfg (l ++ [b]) ->
  fresh_words cfg (l ++ [b ++ extra]) = fresh_words cfg (l ++ [b]) ++ extra.
Proof.
  destruct l as [|a l]; cbn [app fresh_words fresh_after].
  - intros _. now rewrite !app_nil_r.
  - intros H. now rewrite (fresh_after_grow cfg a l b extra H), app_assoc.
Qed.

Lemma fresh_words_extend cfg l b rest :
  fresh_words cfg (l ++ [b; seed_of cfg b ++ rest])
  = fresh_words cfg (l ++ [b]) ++ rest.
Proof.
  destruct l as [|a l]; cbn [app fresh_words fresh_after].
  - now rewrite drop_app_length, !app_nil_r.
  - rewrite (fresh_after_app cfg a l [seed_of cfg b ++ rest] b).
    cbn [fresh_after]. now rewrite drop_app_length, app_nil_r, app_assoc.
Qed.

Lemma seq_snoc_map n :
  map Z.of_nat (seq 0 (S n)) = map Z.of_nat (seq 0 n) ++ [Z.of_nat n].
Proof. now rewrite seq_S, map_app. Qed.

Lemma loop_init_trace cfg : trace_ok cfg [] loop_init.
Proof.
  split; try reflexivity.
  - apply loop_init_ok.
  - apply Forall_nil_2.
  - cbn. tauto.
Qed.

(** One sentence with at least one word. *)
Lemma step_trace cfg meta done st sentence :
  trace_ok cfg done st -> split sentence <> [] ->
  trace_ok cfg (done ++ split sentence) (step cfg meta st sentence).
Proof.
  intros [Hbuf Hidx Hids Hne Hchain Hfresh] Hs.
  pose proof (step_ok cfg meta st sentence Hbuf) as Hbuf'.
  pose proof (chunk_words_seal st meta Hbuf) as Hseal.
  destruct Hbuf as [Hw Hc _].
  unfold trace in *. unfold step in *.
  destruct (_ && nonempty (current_chunk st)) eqn:Hcond;
    cbn [chunks current_chunk current_word_count chunk_index] in *.
  - apply andb_prop in Hcond. destruct Hcond as [_ Hnon].
    rewrite (seed_of_overlap_seed cfg _ Hw) in Hbuf' |- *.
    split; unfold trace;
      cbn [chunks current_chunk current_word_count chunk_index].
    + exact Hbuf'.
    + rewrite length_app, Hidx. cbn [length]. lia.
    + rewrite length_app, map_app, Nat.add_1_r, seq_snoc_map, Hids.
      cbn [map chunk_id seal]. now rewrite Hidx.
    + apply Forall_app_2; [exact Hne|]. apply Forall_cons_2; [|apply Forall_nil_2].
      rewrite Hseal. now destruct (current_chunk st).
    + rewrite map_app, <- app_assoc. cbn [map app]. rewrite Hseal.
      apply chained_extend; [exact Hchain|].
      now exists (split sentence).
    + rewrite map_app, <- app_assoc. cbn [map app]. rewrite Hseal.
      now rewrite fresh_words_extend, Hfresh.
  - split; unfold trace;
      cbn [chunks current_chunk current_word_count chunk_index].
    + exact Hbuf'.
    + exact Hidx.
    + exact Hids.
    + exact Hne.
    + now apply chained_grow.
    + now rewrite fresh_words_grow, Hfresh.
Qed.

Lemma run_loop_trace_from cfg meta sentences done st :
  trace_ok cfg done st ->
  Forall (fun s => split s <> []) sentences ->
  trace_ok cfg (done ++ concat (map split sentences))
    (fold_left (step cfg meta) sentences st).
Proof.
  intros Hst Hall. revert done st Hst.
  induction Hall as [|s ss Hs _ IH]; intros done st Hst.
  - cbn. now rewrite app_nil_r.
  - cbn [fold_left map concat]. rewrite app_assoc.
    apply IH. now apply step_trace.
Qed.

Lemma run_loop_trace cfg meta txt :
  trace_ok cfg (split txt)
    (run_loop cfg meta (split_into_sentences txt)).
Proof.
  pose proof (run_loop_trace_from cfg meta (split_into_sentences txt) []
                loop_init (loop_init_trace cfg) (sentences_have_words txt))
    as H.
  cbn [app] in H. unfold split_into_sentences in H at 1.
  rewrite concat_split_filter in H. unfold re_split in H.
  now rewrite re_split_go_words in H.
Qed.

(** The word lists of the result: the trace, or the trace without the
    buffer. *)
Lemma create_chunks_words cfg txt meta :
  is_empty (strip txt) = false ->
  let st := run_loop cfg meta (split_into_sentences txt) in
  ((current_word_count st >=? min_chunk_size cfg) = true
   /\ create_chunks cfg txt meta = chunks st ++ [seal st meta]
   /\ map chunk_words (create_chunks cfg txt meta) = trace st)
  \/ ((current_word_count st >=? min_chunk_size cfg) = false
      /\ create_chunks cfg txt meta = chunks st).
Proof.
  intros Htxt st. unfold create_chunks. rewrite Htxt. fold st. unfold finish.
  assert (Hbuf : current_chunk st <> []).
  { apply run_loop_buffer;
      [now apply sentences_nonempty | apply sentences_have_words]. }
  destruct (current_chunk st) as [|w ws] eqn:E; [congruence|].
  cbn [nonempty andb].
  destruct (current_word_count st >=? min_chunk_size cfg); [left|right];
    (split; [reflexivity|]); [|reflexivity].
  split; [reflexivity|].
  unfold trace. rewrite map_app. cbn [map]. f_equal.
  rewrite chunk_words_seal, E; [reflexivity|].
  apply (run_loop_trace cfg meta txt).
Qed.

Lemma chained_lookup cfg l i a b :
  chained cfg l -> l !! i = Some a -> l !! S i = Some b -> overlaps cfg a b.
Proof.
  revert i. induction l as [|x l IH]; intros i; [discriminate|].
  cbn [chained]. intros [Hhead Htail]. destruct i as [|i]; cbn.
  - intros [= ->]. destruct l as [|y l]; [discriminate|].
    cbn. now intros [= ->].
  - apply IH, Htail.
Qed.

Lemma fresh_after_snoc cfg prev l b :
  exists extra,
    fresh_after cfg prev (l ++ [b]) = fresh_after cfg prev l ++ extra.
Proof.
  revert prev. induction l as [|a l IH]; intros prev; cbn [app fresh_after].
  - eexists. reflexivity.
  - destruct (IH a) as [extra ->]. exists extra. now rewrite app_assoc.
Qed.

Lemma fresh_words_snoc cfg l b :
  exists extra, fresh_words cfg (l ++ [b]) = fresh_words cfg l ++ extra.
Proof.
  destruct l as [|a l]; cbn [app fresh_words].
  - now exists (b ++ fresh_after cfg b []).
  - destruct (fresh_after_snoc cfg a l b) as [extra ->].
    exists extra. now rewrite app_assoc.
Qed.

(** The seed is the end of the buffer it is taken from. *)
Lemma seed_of_suffix cfg ws : exists dropped, ws = dropped ++ seed_of cfg ws.
Proof.
  unfold seed_of, slice_from. destruct (_ >? _).
  - eexists. symmetry. apply take_drop.
  - now exists [].
Qed.

(** With a positive overlap the seed has [overlap_words] words, or all the
    words of a shorter buffer. *)
Lemma seed_of_length cfg ws :
  0 < overlap_words cfg ->
  Z.of_nat (length (seed_of cfg ws))
  = Z.min (overlap_words cfg) (Z.of_nat (length ws)).
Proof.
  intros Hpos. unfold seed_of, slice_from.
  destruct (Z.of_nat (length ws) >? overlap_words cfg) eqn:E.
  - apply Z.gtb_lt in E.
    assert (Hneg : (- overlap_words cfg <? 0) = true) by (apply Z.ltb_lt; lia).
    rewrite Hneg, length_drop. lia.
  - assert (Z.of_nat (length ws) <= overlap_words cfg).
    { destruct (Z.gtb_spec (Z.of_nat (length ws)) (overlap_words cfg));
        [discriminate | lia]. }
    lia.
Qed.

(** *** The bound on the counts *)

Lemma step_bounded cfg meta st sentence longest :
  0 < overlap_words cfg ->
  buffer_ok st ->
  count_words sentence <= longest ->
  current_word_count st <= size_bound cfg longest ->
  Forall (fun c => word_count c <= size_bound cfg longest) (chunks st) ->
  current_word_count (step cfg meta st sentence) <= size_bound cfg longest
  /\ Forall (fun c => word_count c <= size_bound cfg longest)
       (chunks (step cfg meta st sentence)).
Proof.
  intros Hpos [Hw Hc _] Hs Hcur Hall. unfold count_words in Hs.
  unfold step, size_bound in *.
  destruct ((_ >? _) && nonempty (current_chunk st)) eqn:Hcond;
    cbn [chunks current_chunk current_word_count chunk_index].
  - rewrite (seed_of_overlap_seed cfg _ Hw).
    pose proof (seed_of_length cfg (current_chunk st) Hpos) as Hseed.
    split; [lia|].
    apply Forall_app_2; [exact Hall|].
    apply Forall_cons_2; [exact Hcur | apply Forall_nil_2].
  - split; [|exact Hall].
    apply andb_false_iff in Hcond. destruct Hcond as [Hfit|Hemp].
    + destruct (Z.gtb_spec (current_word_count st
                            + Z.of_nat (length (split sentence)))
                  (chunk_size_words cfg)); [discriminate | lia].
    + destruct (current_chunk st); [|discriminate]. cbn [length] in Hc. lia.
Qed.

Lemma run_loop_bounded cfg meta sentences longest :
  0 < overlap_words cfg -> 0 <= longest ->
  Forall (fun s => count_words s <= longest) sentences ->
  let st := run_loop cfg meta sentences in
  current_word_count st <= size_bound cfg longest
  /\ Forall (fun c => word_count c <= size_bound cfg longest) (chunks st).
Proof.
  intros Hpos Hlong Hall. unfold run_loop.
  assert (Hinit : buffer_ok loop_init
                  /\ current_word_count loop_init <= size_bound cfg longest
                  /\ Forall (fun c => word_count c <= size_bound cfg longest)
                       (chunks loop_init)).
  { split; [apply loop_init_ok|]. split; [|apply Forall_nil_2].
    unfold size_bound. cbn. lia. }
  revert Hinit. generalize loop_init.
  induction Hall as [|s ss Hs _ IH]; intros st (Hbuf & Hcur & Hch).
  - now split.
  - cbn [fold_left]. apply IH. split; [now apply step_ok|].
    now apply step_bounded.
Qed.

(** *** The metadata of the chunks *)

Lemma step_metadata cfg meta st sentence :
  Forall (fun c => metadata c = default ∅ meta) (chunks st) ->
  Forall (fun c => metadata c = default ∅ meta)
    (chunks (step cfg meta st sentence)).
Proof.
  intros H. unfold step. destruct (_ && _); cbn [chunks]; [|exact H].
  apply Forall_app_2; [exact H|]. now apply Forall_cons_2.
Qed.

Lemma create_chunks_metadata cfg txt meta :
  Forall (fun c => metadata c = default ∅ meta) (create_chunks cfg txt meta).
Proof.
  unfold create_chunks. destruct (is_empty (strip txt)); [apply Forall_nil_2|].
  assert (H : Forall (fun c => metadata c = default ∅ meta)
                (chunks (run_loop cfg meta (split_into_sentences txt)))).
  { unfold run_loop. generalize (split_into_sentences txt).
    assert (Hinit : Forall (fun c => metadata c = default ∅ meta)
                      (chunks loop_init)) by apply Forall_nil_2.
    revert Hinit. generalize loop_init. intros st Hst l. revert st Hst.
    induction l as [|s l IH]; intros st Hst; [exact Hst|].
    cbn [fold_left]. apply IH. now apply step_metadata. }
  unfold finish. destruct (_ && _); [|exact H].
  apply Forall_app_2; [exact H|]. now apply Forall_cons_2.
Qed.

Lemma reindex_In l c :
  In c (reindex l) ->
  exists c0, In c0 l /\ text c = text c0 /\ word_count c = word_count c0
             /\ metadata c = metadata c0.
Proof.
  unfold reindex, enumerate. intros H. apply in_map_iff in H.
  destruct H as ([i c0] & <- & Hin). apply list_elem_of_In in Hin.
  apply elem_of_lookup_imap in Hin. destruct Hin as (j & y & [= -> ->] & Hy).
  exists y. split; [|now split].
  apply list_elem_of_In. now apply list_elem_of_lookup_2 in Hy.
Qed.

End TraceFacts.

(** ** The buffer at the end of the text, as words *)

Module TailTraceFacts.

Import Py Chunker ChunkerSpec PyFacts ChunkerFacts TailFacts.
Import ChunkerTrace SentenceFacts TraceFacts ChunkerTail.

Lemma chained_last cfg l a b :
  chained cfg (l ++ [b]) -> last l = Some a -> overlaps cfg a b.
Proof.
  induction l as [|x l IH]; [discriminate|].
  cbn [app chained]. intros [Hhead Htail] Hlast.
  destruct l as [|y l].
  - cbn in Hlast. injection Hlast as ->. exact Hhead.
  - apply IH; [exact Htail | exact Hlast].
Qed.

Lemma last_cons_some {A} (y : A) (l : list A) :
  exists a, last (y :: l) = Some a.
Proof.
  revert y. induction l as [|z l IH]; intros y; [now exists y|].
  exact (IH z).
Qed.

Lemma last_cons_default {A} (prev x : A) (l : list A) :
  default prev (last (x :: l)) = default x (last l).
Proof.
  destruct l as [|y l]; [reflexivity|].
  change (last (x :: y :: l)) with (last (y :: l)).
  now destruct (last_cons_some y l) as [a ->].
Qed.

Lemma fresh_after_last cfg prev l b :
  fresh_after cfg prev (l ++ [b])
  = fresh_after cfg prev l
    ++ drop (length (seed_of cfg (default prev (last l)))) b.
Proof.
  revert prev. induction l as [|x l IH]; intros prev;
    cbn [app fresh_after].
  - cbn. now rewrite app_nil_r.
  - now rewrite IH, app_assoc, last_cons_default.
Qed.

Lemma fresh_words_last cfg l b :
  fresh_words cfg (l ++ [b])
  = fresh_words cfg l
    ++ match last l with
       | Some a => drop (length (seed_of cfg a)) b
       | None => b
       end.
Proof.
  destruct l as [|x l]; cbn [app fresh_words].
  - cbn. now rewrite app_nil_r.
  - rewrite fresh_after_last, app_assoc. do 2 f_equal.
    destruct (last_cons_some x l) as [a Ha]. rewrite Ha.
    now rewrite <- (last_cons_default x x l), Ha.
Qed.

Lemma last_map_chunk_words (sealed : list Chunk) :
  last (map chunk_words sealed) = option_map chunk_words (last sealed).
Proof.
  induction sealed as [|c l IH]; [reflexivity|].
  destruct l as [|d l]; [reflexivity|]. exact IH.
Qed.

Lemma seal_chunk_of st meta :
  buffer_ok st ->
  chunk_index st = Z.of_nat (length (chunks st)) ->
  seal st meta
  = chunk_of (Z.of_nat (length (chunks st))) (current_chunk st) meta.
Proof.
  intros [_ Hc _] Hi. unfold seal, chunk_of. now rewrite Hi, Hc.
Qed.

(** What [create_chunks] does with the buffer left at the end of a text
    that is not blank. *)
Lemma create_chunks_tail cfg txt meta :
  is_empty (strip txt) = false ->
  exists (sealed : list Chunk) (buffer : list string),
    buffer <> []
    /\ new_words cfg sealed buffer <> []
    /\ buffer_after cfg sealed (new_words cfg sealed buffer) = buffer
    /\ split txt
       = fresh_words cfg (map chunk_words sealed)
         ++ new_words cfg sealed buffer
    /\ chunk_words (chunk_of (Z.of_nat (length sealed)) buffer meta) = buffer
    /\ forall m : Z,
         create_chunks (with_min_chunk_size m cfg) txt meta
         = if Z.of_nat (length buffer) >=? m
           then sealed
                  ++ [chunk_of (Z.of_nat (length sealed)) buffer meta]
           else sealed.
Proof.
  intros Htxt.
  set (st := run_loop cfg meta (split_into_sentences txt)).
  pose proof (run_loop_trace cfg meta txt) as Htr. fold st in Htr.
  destruct Htr as [Hbuf Hidx _ _ Hchain Hfresh].
  assert (Hne : current_chunk st <> []).
  { apply run_loop_buffer;
      [now apply sentences_nonempty | apply sentences_have_words]. }
  exists (chunks st), (current_chunk st).
  unfold trace in Hchain, Hfresh.
  rewrite fresh_words_last, last_map_chunk_words in Hfresh.
  assert (Hnew : new_words cfg (chunks st) (current_chunk st) <> []
                 /\ buffer_after cfg (chunks st)
                      (new_words cfg (chunks st) (current_chunk st))
                    = current_chunk st).
  { unfold new_words, buffer_after.
    destruct (last (chunks st)) as [c|] eqn:Hlast; [|now split].
    assert (Hov : overlaps cfg (chunk_words c) (current_chunk st)).
    { apply (chained_last cfg (map chunk_words (chunks st))); [exact Hchain|].
      now rewrite last_map_chunk_words, Hlast. }
    destruct Hov as (rest & Hrest & Heq). rewrite Heq.
    rewrite drop_app_length. now split. }
  destruct Hnew as [Hnew Hback].
  split; [exact Hne|]. split; [exact Hnew|]. split; [exact Hback|].
  split.
  { rewrite <- Hfresh. unfold new_words.
    now destruct (last (chunks st)). }
  split.
  { unfold chunk_words, chunk_of. cbn [text]. apply split_join.
    now destruct Hbuf. }
  intros m. unfold create_chunks. rewrite Htxt, run_loop_with_min.
  fold st. unfold finish. cbn [min_chunk_size with_min_chunk_size].
  rewrite (seal_chunk_of st meta Hbuf Hidx).
  destruct Hbuf as [_ Hc _]. rewrite Hc.
  destruct (current_chunk st); [congruence | reflexivity].
Qed.

Lemma with_min_chunk_size_same cfg :
  with_min_chunk_size (min_chunk_size cfg) cfg = cfg.
Proof. now destruct cfg. Qed.

End TailTraceFacts.

(** ** The chunker: claim C6 *)

Module TailClaims.

Import Py Chunker ChunkerSpec PyFacts ChunkerFacts TailFacts.
Import ChunkerTrace SentenceFacts TraceFacts ChunkerTail TailTraceFacts.

(** C6.  For a text that is not blank, the loop of [create_chunks] ends
    with a list [sealed] of chunks and a buffer of words that is not empty
    and does not depend on [min_chunk_size].  The buffer is the seed taken
    from the last sealed chunk followed by at least one new word, and the
    sealed chunks followed by these new words spell the text.  The result
    is [sealed] followed by one last chunk, whose text is the buffer
    joined by blanks and whose [word_count] is its length, exactly when
    that length reaches [min_chunk_size]; otherwise it is [sealed] alone,
    unchanged: the new words of the buffer are in no chunk. *)
Theorem C6_tail_kept_iff_min_chunk_size (cfg : Config) (txt : string)
    (meta : option dict) :
  is_empty (strip txt) = false ->
  exists (sealed : list Chunk) (buffer : list string),
    buffer <> []
    /\ new_words cfg sealed buffer <> []
    /\ buffer = buffer_after cfg sealed (new_words cfg sealed buffer)
    /\ split txt
       = fresh_words cfg (map chunk_words sealed)
         ++ new_words cfg sealed buffer
    /\ forall m : Z,
         let final := chunk_of (Z.of_nat (length sealed)) buffer meta in
         chunk_words final = buffer
         /\ create_chunks (with_min_chunk_size m cfg) txt meta
            = if Z.of_nat (length buffer) >=? m
              then sealed ++ [final]
              else sealed.
Proof.
  intros Htxt.
  destruct (create_chunks_tail cfg txt meta Htxt)
    as (sealed & buffer & Hne & Hnew & Hback & Hspell & Hwords & Hout).
  exists sealed, buffer.
  split; [exact Hne|]. split; [exact Hnew|].
  split; [now symmetry|]. split; [exact Hspell|].
  intros m final. split; [exact Hwords | apply Hout].
Qed.

Lemma C6_tail_kept_iff_min_chunk_size_witness :
  exists (sealed : list Chunk) (buffer : list string),
    buffer <> []
    /\ new_words
         {| chunk_size_words := 3; overlap_words := 1; min_chunk_size := 4 |}
         sealed buffer <> []
    /\ buffer
       = buffer_after
           {| chunk_size_words := 3; overlap_words := 1;
              min_chunk_size := 4 |}
           sealed
           (new_words
              {| chunk_size_words := 3; overlap_words := 1;
                 min_chunk_size := 4 |}
              sealed buffer)
    /\ split "One two three. Four five."
       = fresh_words
           {| chunk_size_words := 3; overlap_words := 1;
              min_chunk_size := 4 |}
           (map chunk_words sealed)
         ++ new_words
              {| chunk_size_words := 3; overlap_words := 1;
                 min_chunk_size := 4 |}
              sealed buffer
    /\ forall m : Z,
         let final := chunk_of (Z.of_nat (length sealed)) buffer None in
         chunk_words final = buffer
         /\ create_chunks
              (with_min_chunk_size m
                 {| chunk_size_words := 3; overlap_words := 1;
                    min_chunk_size := 4 |})
              "One two three. Four five." None
            = if Z.of_nat (length buffer) >=? m
              then sealed ++ [final]
              else sealed.
Proof.
  exact (C6_tail_kept_iff_min_chunk_size
           {| chunk_size_words := 3; overlap_words := 1;
              min_chunk_size := 4 |}
           "One two three. Four five." None eq_refl).
Defined.

End TailClaims.

(** ** The chunker: further theorems *)

Module ChunkerExtras.

Import Py Chunker ChunkerSpec PyFacts ChunkerFacts TailFacts ScenarioFacts.
Import ChunkerTrace SentenceFacts TraceFacts.
Import ChunkerTail TailTraceFacts.

(** X1.  The sentences of a text hold exactly its words, in order: splitting
    into sentences loses, adds and reorders no word, and every sentence has
    at least one word. *)
Theorem X1_sentences_keep_the_words (txt : string) :
  concat (map split (split_into_sentences txt)) = split txt
  /\ Forall (fun s => 1 <= count_words s) (split_into_sentences txt).
Proof.
  split.
  - unfold split_into_sentences, re_split.
    now rewrite concat_split_filter, re_split_go_words.
  - eapply Forall_impl; [apply sentences_have_words|].
    intros s Hs. cbn beta in Hs. unfold count_words.
    destruct (split s); [congruence|].
    cbn [length]. lia.
Qed.

(** X2.  [create_chunks] numbers its chunks 0, 1, ..., n-1 in order. *)
Theorem X2_create_chunks_ids_count_up (cfg : Config) (txt : string)
    (meta : option dict) :
  let out := create_chunks cfg txt meta in
  map chunk_id out = map Z.of_nat (seq 0 (length out)).
Proof.
  cbn zeta. destruct (is_empty (strip txt)) eqn:Htxt.
  - unfold create_chunks. now rewrite Htxt.
  - pose proof (run_loop_trace cfg meta txt) as [_ Hidx Hids _ _ _].
    destruct (create_chunks_words cfg txt meta Htxt) as [(_ & -> & _)|(_ & ->)];
      [|exact Hids].
    rewrite length_app, map_app, Nat.add_1_r, seq_snoc_map, Hids.
    cbn [map chunk_id seal length]. now rewrite Hidx.
Qed.

(** X3.  No chunk is empty: every chunk of [create_chunks] has at least one
    word, whatever [min_chunk_size] is, and its text is not the empty
    string. *)
Theorem X3_chunks_are_never_empty (cfg : Config) (txt : string)
    (meta : option dict) :
  Forall (fun c => 1 <= word_count c /\ text c <> EmptyString)
    (create_chunks cfg txt meta).
Proof.
  assert (Hwords : Forall (fun c => chunk_words c <> [])
                     (create_chunks cfg txt meta)).
  { destruct (is_empty (strip txt)) eqn:Htxt.
    - unfold create_chunks. rewrite Htxt. apply Forall_nil_2.
    - pose proof (run_loop_trace cfg meta txt) as [Hbuf _ _ Hne _ _].
      destruct (create_chunks_words cfg txt meta Htxt)
        as [(_ & -> & _)|(_ & ->)]; [|exact Hne].
      apply Forall_app_2; [exact Hne|].
      apply Forall_cons_2; [|apply Forall_nil_2].
      rewrite (chunk_words_seal _ meta Hbuf).
      apply run_loop_buffer;
        [now apply sentences_nonempty | apply sentences_have_words]. }
  pose proof (create_chunks_counts cfg txt meta) as Hcount.
  rewrite Forall_forall in Hwords, Hcount. apply Forall_forall.
  intros c Hc. specialize (Hwords c Hc). specialize (Hcount c Hc).
  unfold counts_words in Hcount. unfold chunk_words in Hwords. split.
  - rewrite <- Hcount. destruct (split (text c)); [congruence|].
    cbn [length]. lia.
  - intros E. rewrite E in Hwords. now apply Hwords.
Qed.

(** X4.  Consecutive chunks overlap.  The words of each chunk after the
    first start with the seed taken from the chunk before it, which is
    [ws[-overlap_words:]] when the earlier chunk [ws] has more than
    [overlap_words] words and all of [ws] otherwise, and go on with at
    least one new word.  The seed is the end of the earlier chunk, and for
    a positive [overlap_words] it has [min(overlap_words, len(ws))]
    words. *)
Theorem X4_consecutive_chunks_overlap (cfg : Config) (txt : string)
    (meta : option dict) (i : nat) (prev next : Chunk) :
  create_chunks cfg txt meta !! i = Some prev ->
  create_chunks cfg txt meta !! S i = Some next ->
  let ws := split (text prev) in
  let seed :=
    if Z.of_nat (length ws) >? overlap_words cfg
    then slice_from (- overlap_words cfg) ws else ws in
  (exists rest, rest <> [] /\ split (text next) = seed ++ rest)
  /\ (exists dropped, ws = dropped ++ seed)
  /\ (0 < overlap_words cfg ->
      Z.of_nat (length seed)
      = Z.min (overlap_words cfg) (Z.of_nat (length ws))).
Proof.
  intros Hprev Hnext ws seed.
  assert (Htxt : is_empty (strip txt) = false).
  { destruct (is_empty (strip txt)) eqn:E; [|reflexivity].
    unfold create_chunks in Hprev. rewrite E in Hprev. discriminate. }
  split; [|split].
  - pose proof (run_loop_trace cfg meta txt) as [_ _ _ _ Hchain _].
    assert (Hch : chained cfg (map chunk_words (create_chunks cfg txt meta))).
    { destruct (create_chunks_words cfg txt meta Htxt)
        as [(_ & _ & ->)|(_ & ->)]; [exact Hchain|].
      now apply chained_app_inv in Hchain. }
    apply (chained_lookup cfg _ i (chunk_words prev) (chunk_words next) Hch).
    + rewrite list_lookup_fmap. now rewrite Hprev.
    + rewrite list_lookup_fmap. now rewrite Hnext.
  - apply (seed_of_suffix cfg ws).
  - apply (seed_of_length cfg ws).
Qed.

Lemma X4_consecutive_chunks_overlap_witness :
  let cfg :=
    {| chunk_size_words := 3; overlap_words := 1; min_chunk_size := 3 |} in
  let prev :=
    {| chunk_id := 0; text := "One two three."; word_count := 3;
       metadata := ∅ |} in
  let next :=
    {| chunk_id := 1; text := "three. Four five."; word_count := 3;
       metadata := ∅ |} in
  let ws := split (text prev) in
  let seed :=
    if Z.of_nat (length ws) >? overlap_words cfg
    then slice_from (- overlap_words cfg) ws else ws in
  (exists rest, rest <> [] /\ split (text next) = seed ++ rest)
  /\ (exists dropped, ws = dropped ++ seed)
  /\ (0 < overlap_words cfg ->
      Z.of_nat (length seed)
      = Z.min (overlap_words cfg) (Z.of_nat (length ws))).
Proof.
  exact (X4_consecutive_chunks_overlap
           {| chunk_size_words := 3; overlap_words := 1;
              min_chunk_size := 3 |}
           "One two three. Four five." None 0 _ _ eq_refl eq_refl).
Defined.

(** X5.  With [overlap_words = 0] the overlap is not empty: the slice
    [ws[-0:]] is the whole buffer, so every chunk after the first starts
    with all the words of the chunk before it. *)
Theorem X5_zero_overlap_repeats_the_chunk (cfg : Config) (txt : string)
    (meta : option dict) (i : nat) (prev next : Chunk) :
  overlap_words cfg = 0 ->
  create_chunks cfg txt meta !! i = Some prev ->
  create_chunks cfg txt meta !! S i = Some next ->
  exists rest,
    rest <> [] /\ split (text next) = split (text prev) ++ rest.
Proof.
  intros Hzero Hprev Hnext.
  assert (Htxt : is_empty (strip txt) = false).
  { destruct (is_empty (strip txt)) eqn:E; [|reflexivity].
    unfold create_chunks in Hprev. rewrite E in Hprev. discriminate. }
  pose proof (run_loop_trace cfg meta txt) as [_ _ _ _ Hchain _].
  assert (Hch : chained cfg (map chunk_words (create_chunks cfg txt meta))).
  { destruct (create_chunks_words cfg txt meta Htxt)
      as [(_ & _ & ->)|(_ & ->)]; [exact Hchain|].
    now apply chained_app_inv in Hchain. }
  assert (Hov : overlaps cfg (chunk_words prev) (chunk_words next)).
  { apply (chained_lookup cfg _ i _ _ Hch); rewrite list_lookup_fmap.
    - now rewrite Hprev.
    - now rewrite Hnext. }
  destruct Hov as (rest & Hne & Hrest). exists rest. split; [exact Hne|].
  unfold chunk_words in Hrest. rewrite Hrest. f_equal.
  unfold seed_of, slice_from. rewrite Hzero. cbn [Z.opp Z.ltb Z.compare].
  destruct (_ >? 0); [|reflexivity].
  rewrite Z.min_l by lia. reflexivity.
Qed.

Lemma X5_zero_overlap_repeats_the_chunk_witness :
  exists rest,
    rest <> []
    /\ split "One two three. Four five."
       = split "One two three." ++ rest.
Proof.
  exact (X5_zero_overlap_repeats_the_chunk
           {| chunk_size_words := 3; overlap_words := 0;
              min_chunk_size := 1 |}
           "One two three. Four five." None 0
           {| chunk_id := 0; text := "One two three."; word_count := 3;
              metadata := ∅ |}
           {| chunk_id := 1; text := "One two three. Four five.";
              word_count := 5; metadata := ∅ |}
           eq_refl eq_refl eq_refl).
Defined.

(** X6.  Chunks stay within the configured size when sentences are short.
    With a positive [overlap_words], if no sentence of the text has more
    than [longest] words, every chunk has at most
    [max(chunk_size_words, overlap_words + longest)] words; so at most
    [chunk_size_words] when [overlap_words + longest <= chunk_size_words]. *)
Theorem X6_chunk_size_is_bounded (cfg : Config) (txt : string)
    (meta : option dict) (longest : Z) :
  0 < overlap_words cfg ->
  Forall (fun s => count_words s <= longest) (split_into_sentences txt) ->
  Forall
    (fun c =>
       word_count c <= Z.max (chunk_size_words cfg)
                         (overlap_words cfg + longest))
    (create_chunks cfg txt meta)
  /\ (overlap_words cfg + longest <= chunk_size_words cfg ->
      Forall (fun c => word_count c <= chunk_size_words cfg)
        (create_chunks cfg txt meta)).
Proof.
  intros Hpos Hall.
  assert (Hmain : Forall (fun c => word_count c <= size_bound cfg longest)
                    (create_chunks cfg txt meta)).
  { unfold create_chunks. destruct (is_empty (strip txt)) eqn:Htxt;
      [apply Forall_nil_2|].
    assert (Hlong : 0 <= longest).
    { pose proof (sentences_nonempty txt Htxt) as Hne.
      destruct (split_into_sentences txt) as [|s ss]; [congruence|].
      apply Forall_cons_1 in Hall. destruct Hall as [Hs _].
      unfold count_words in Hs. lia. }
    destruct (run_loop_bounded cfg meta _ longest Hpos Hlong Hall)
      as [Hcur Hch].
    unfold finish. destruct (_ && _); [|exact Hch].
    apply Forall_app_2; [exact Hch|].
    apply Forall_cons_2; [exact Hcur | apply Forall_nil_2]. }
  split; [exact Hmain|].
  intros Hfit. eapply Forall_impl; [exact Hmain|].
  intros c Hc. unfold size_bound in Hc. cbn beta in Hc. lia.
Qed.

Lemma X6_chunk_size_is_bounded_witness :
  let cfg :=
    {| chunk_size_words := 3; overlap_words := 1; min_chunk_size := 3 |} in
  let out := create_chunks cfg "One two. Three. Four five." None in
  Forall (fun c => word_count c <= Z.max 3 (1 + 2)) out
  /\ (1 + 2 <= 3 -> Forall (fun c => word_count c <= 3) out).
Proof.
  apply (X6_chunk_size_is_bounded
           {| chunk_size_words := 3; overlap_words := 1;
              min_chunk_size := 3 |}
           "One two. Three. Four five." None 2).
  - reflexivity.
  - vm_compute. repeat (apply Forall_cons_2; [discriminate|]).
    apply Forall_nil_2.
Defined.

(** X7.  Chunking neither invents nor reorders words.  Leaving out of each
    chunk the seed it repeats, the chunks of [create_chunks] spell the
    words of the text in order up to some last words [lost].  Nothing is
    lost when [min_chunk_size <= 1].  When words are lost, they are the new
    words of one buffer that has fewer than [min_chunk_size] words: with a
    [min_chunk_size] of 1 the same text gives the same chunks followed by
    the chunk of that buffer. *)
Theorem X7_chunks_spell_the_text (cfg : Config) (txt : string)
    (meta : option dict) :
  let out := create_chunks cfg txt meta in
  exists lost,
    split txt = fresh_words cfg (map chunk_words out) ++ lost
    /\ (min_chunk_size cfg <= 1 -> lost = [])
    /\ (lost <> [] ->
        let buffer := buffer_after cfg out lost in
        Z.of_nat (length buffer) < min_chunk_size cfg
        /\ create_chunks (with_min_chunk_size 1 cfg) txt meta
           = out ++ [chunk_of (Z.of_nat (length out)) buffer meta]).
Proof.
  cbn zeta. destruct (is_empty (strip txt)) eqn:Htxt.
  - exists []. unfold create_chunks at 1. rewrite Htxt.
    split; [|split; [reflexivity | congruence]].
    apply strip_empty_iff, split_nil_iff in Htxt. now rewrite Htxt.
  - destruct (create_chunks_tail cfg txt meta Htxt)
      as (sealed & buffer & Hne & Hnew & Hback & Hspell & Hwords & Hout).
    pose proof (Hout (min_chunk_size cfg)) as Hcfg.
    rewrite with_min_chunk_size_same in Hcfg.
    pose proof (Hout 1) as Hone.
    assert (Hlen : 1 <= Z.of_nat (length buffer)).
    { destruct buffer; [congruence | cbn [length]; lia]. }
    destruct (Z.geb_spec (Z.of_nat (length buffer)) 1); [|lia].
    destruct (Z.geb_spec (Z.of_nat (length buffer)) (min_chunk_size cfg)).
    + exists []. rewrite Hcfg. split; [|split; [reflexivity | congruence]].
      rewrite app_nil_r, map_app. cbn [map]. rewrite Hwords.
      rewrite fresh_words_last, last_map_chunk_words. rewrite Hspell.
      unfold new_words. now destruct (last sealed).
    + exists (new_words cfg sealed buffer). rewrite Hcfg.
      split; [exact Hspell|]. split; [lia|].
      intros _. rewrite Hback. split; [lia | exact Hone].
Qed.

(** X8.  [chunk_document_pages] preserves page numbers.  Every chunk it
    returns carries the metadata built for a page of the input whose text
    is not blank: the page's number (0 when missing) under
    ['page_number'], its method (['unknown'] when missing) under
    ['extraction_method'], and the document's title, author and file name
    (['] when missing) exactly when a non-empty [doc_metadata] is
    given. *)
Theorem X8_chunks_carry_their_page (cfg : Config) (pages : list Page)
    (doc : option dict) (c : Chunk) :
  In c (chunk_document_pages cfg pages doc) ->
  exists page,
    In page pages
    /\ is_empty (strip (default EmptyString (page_text page))) = false
    /\ metadata c !! "page_number"%string
       = Some (VInt (default 0 (page_number page)))
    /\ metadata c !! "extraction_method"%string
       = Some (VStr (default "unknown"%string (method page)))
    /\ metadata c !! "document_title"%string
       = match doc with
         | Some d =>
             if bool_decide (d = ∅) then None
             else Some (default (VStr "") (d !! "title"%string))
         | None => None
         end
    /\ metadata c !! "document_author"%string
       = match doc with
         | Some d =>
             if bool_decide (d = ∅) then None
             else Some (default (VStr "") (d !! "author"%string))
         | None => None
         end
    /\ metadata c !! "filename"%string
       = match doc with
         | Some d =>
             if bool_decide (d = ∅) then None
             else Some (default (VStr "") (d !! "filename"%string))
         | None => None
         end.
Proof.
  intros Hc. unfold chunk_document_pages in Hc.
  apply reindex_In in Hc. destruct Hc as (c0 & Hc0 & _ & _ & ->).
  rewrite fold_page_step in Hc0. cbn [app] in Hc0.
  apply in_concat in Hc0. destruct Hc0 as (l & Hl & Hin).
  apply in_map_iff in Hl. destruct Hl as (page & <- & Hpage).
  exists page. split; [exact Hpage|]. unfold page_chunks in Hin.
  split.
  { destruct (is_empty (strip (default EmptyString (page_text page)))) eqn:E;
      [|reflexivity].
    unfold create_chunks in Hin. rewrite E in Hin. destruct Hin. }
  pose proof (create_chunks_metadata cfg
                (default EmptyString (page_text page))
                (Some (page_metadata doc page))) as Hmeta.
  rewrite Forall_forall in Hmeta. apply list_elem_of_In in Hin.
  rewrite (Hmeta c0 Hin). cbn [default]. unfold page_metadata.
  destruct doc as [d|]; [destruct (bool_decide (d = ∅))|];
    repeat split; simplify_map_eq; reflexivity.
Qed.

Lemma X8_chunks_carry_their_page_witness :
  exists page,
    In page
      [ {| page_number := Some 4; page_text := Some "One two three."%string;
           method := None |} ]
    /\ is_empty (strip (default EmptyString (page_text page))) = false
    /\ (page_metadata None
          {| page_number := Some 4;
             page_text := Some "One two three."%string; method := None |}
        : dict) !! "page_number"%string
       = Some (VInt (default 0 (page_number page)))
    /\ (page_metadata None
          {| page_number := Some 4;
             page_text := Some "One two three."%string; method := None |}
        : dict) !! "extraction_method"%string
       = Some (VStr (default "unknown"%string (method page)))
    /\ (page_metadata None
          {| page_number := Some 4;
             page_text := Some "One two three."%string; method := None |}
        : dict) !! "document_title"%string = None
    /\ (page_metadata None
          {| page_number := Some 4;
             page_text := Some "One two three."%string; method := None |}
        : dict) !! "document_author"%string = None
    /\ (page_metadata None
          {| page_number := Some 4;
             page_text := Some "One two three."%string; method := None |}
        : dict) !! "filename"%string = None.
Proof.
  exact (X8_chunks_carry_their_page
           {| chunk_size_words := 10; overlap_words := 3;
              min_chunk_size := 1 |}
           [ {| page_number := Some 4;
                page_text := Some "One two three."%string; method := None |} ]
           None
           {| chunk_id := 0; text := "One two three."; word_count := 3;
              metadata :=
                page_metadata None
                  {| page_number := Some 4;
                     page_text := Some "One two three."%string;
                     method := None |} |}
           (or_introl eq_refl)).
Defined.

End ChunkerExtras.

(** ** Retrieval: size, order and distinctness of the results *)

Module RetrievalMoreFacts.

Import Py Retrieval RetrievalSpec RetrievalMore.
Import FusionFacts DedupFacts PipelineFacts OriginFacts.
Local Open Scope Q_scope.

Lemma passes_threshold_mono t1 t2 r keep2 :
  t1 <= t2 -> passes_threshold t2 r = Ok keep2 ->
  exists keep1,
    passes_threshold t1 r = Ok keep1 /\ (keep2 = true -> keep1 = true).
Proof.
  intros Hle. unfold passes_threshold.
  destruct (similarity r) as [[|s]|]; [discriminate| |];
    intros [= <-]; eexists; (split; [reflexivity|]);
    rewrite !Qle_bool_iff; intros H; now apply Qle_trans with t2.
Qed.

Lemma passes_threshold_total t1 t2 r keep1 :
  passes_threshold t1 r = Ok keep1 ->
  exists keep2, passes_threshold t2 r = Ok keep2.
Proof.
  unfold passes_threshold.
  destruct (similarity r) as [[|s]|]; [discriminate| |];
    intros _; eexists; reflexivity.
Qed.

(** Raising the threshold removes records and adds none. *)
Lemma filter_by_threshold_mono t1 t2 results out1 :
  t1 <= t2 -> filter_by_threshold t1 results = Ok out1 ->
  exists out2,
    filter_by_threshold t2 results = Ok out2 /\ out2 `sublist_of` out1.
Proof.
  intros Hle. revert out1.
  induction results as [|r rest IH]; intros out1; cbn [filter_by_threshold].
  - intros [= <-]. now exists [].
  - destruct (passes_threshold t1 r) as [e|keep1] eqn:H1; [discriminate|].
    destruct (filter_by_threshold t1 rest) as [e|f1]; [discriminate|].
    cbn [bind]. intros [= <-].
    destruct (IH f1 eq_refl) as (f2 & -> & Hsub).
    destruct (passes_threshold_total t1 t2 r keep1 H1) as [keep2 H2].
    rewrite H2. cbn [bind]. eexists. split; [reflexivity|].
    destruct (passes_threshold_mono t1 t2 r keep2 Hle H2) as (k1 & Hk1 & Himp).
    unfold Ok in *. rewrite H1 in Hk1. injection Hk1 as <-.
    destruct keep2.
    + rewrite (Himp eq_refl). now apply sublist_skip.
    + destruct keep1; [now apply sublist_cons | exact Hsub].
Qed.

Lemma filter_by_threshold_sublist threshold results out :
  filter_by_threshold threshold results = Ok out ->
  out `sublist_of` results.
Proof.
  revert out. induction results as [|x rest IH]; intros out;
    cbn [filter_by_threshold].
  - intros [= <-]. constructor.
  - destruct (passes_threshold threshold x) as [e|keep]; [discriminate|].
    destruct (filter_by_threshold threshold rest) as [e|filtered];
      [discriminate|].
    cbn [bind]. intros [= <-]. specialize (IH filtered eq_refl).
    destruct keep; [now apply sublist_skip | now apply sublist_cons].
Qed.

Lemma sorted_desc_length {A} (key : A -> Q) l :
  length (sorted_desc key l) = length l.
Proof. apply Permutation_length, sorted_desc_perm. Qed.

(** The length of [l[:stop]] is decided by the length of [l]. *)
Lemma slice_to_length {A} (stop : Z) (l : list A) :
  Z.of_nat (length (slice_to stop l))
  = if (stop <? 0)%Z then Z.max 0 (Z.of_nat (length l) + stop)
    else Z.min stop (Z.of_nat (length l)).
Proof.
  unfold slice_to. rewrite length_take.
  destruct (Z.ltb_spec stop 0); lia.
Qed.

Lemma slice_to_sublist {A} (stop : Z) (l : list A) :
  slice_to stop l `sublist_of` l.
Proof. apply sublist_take. Qed.

Lemma NoDup_map_sublist {A B} (f : A -> B) (l1 l2 : list A) :
  l1 `sublist_of` l2 -> NoDup (map f l2) -> NoDup (map f l1).
Proof.
  intros Hsub H. eapply sublist_NoDup; [exact H|].
  change (map f l1) with (f <$> l1). change (map f l2) with (f <$> l2).
  now apply fmap_sublist.
Qed.

Lemma NoDup_map_perm {A B} (f : A -> B) (l1 l2 : list A) :
  Permutation l1 l2 -> NoDup (map f l2) -> NoDup (map f l1).
Proof.
  intros Hp H. assert (Hm : map f l1 ≡ₚ map f l2) by now apply Permutation_map.
  now rewrite Hm.
Qed.

(** *** The keys of [result_scores] *)

Lemma table_set_keys k v d :
  table_keys (table_set k v d)
  = if bool_decide (k ∈ table_keys d) then table_keys d
    else table_keys d ++ [k].
Proof.
  unfold table_keys. induction d as [|[k0 v0] d IH]; cbn [table_set map fst].
  - rewrite bool_decide_eq_false_2; [reflexivity | apply not_elem_of_nil].
  - destruct (String.eqb k k0) eqn:E.
    + apply String.eqb_eq in E. subst k0. cbn [map fst].
      rewrite bool_decide_eq_true_2; [reflexivity | apply list_elem_of_here].
    + apply String.eqb_neq in E. cbn [map fst app]. rewrite IH.
      destruct (bool_decide (k ∈ map fst d)) eqn:Hin.
      * apply bool_decide_eq_true_1 in Hin.
        rewrite bool_decide_eq_true_2; [reflexivity|].
        now apply list_elem_of_further.
      * apply bool_decide_eq_false_1 in Hin.
        rewrite bool_decide_eq_false_2; [reflexivity|].
        intros H. apply elem_of_cons in H. destruct H; [congruence|].
        contradiction.
Qed.

Lemma table_set_NoDup k v d :
  NoDup (table_keys d) -> NoDup (table_keys (table_set k v d)).
Proof.
  intros H. rewrite table_set_keys. case_bool_decide as Hin; [exact H|].
  apply NoDup_app. split; [exact H|]. split.
  - intros x Hx Hk. apply list_elem_of_singleton in Hk. now subst x.
  - apply NoDup_singleton.
Qed.

Lemma fuse_keys_NoDup semantic_results keyword_results sw kw :
  NoDup (table_keys (fuse semantic_results keyword_results sw kw)).
Proof.
  unfold fuse, add_keyword, score_semantic.
  apply fold_left_preserves.
  - apply fold_left_preserves; [apply NoDup_nil_2|].
    intros acc ir Hacc _. now apply table_set_NoDup.
  - intros acc ir Hacc _.
    destruct (table_get (row_id (snd ir)) acc); now apply table_set_NoDup.
Qed.

(** The ids of the entries are the keys of the table. *)
Lemma fuse_ids_are_keys semantic_results keyword_results sw kw :
  map id (map result (map snd (fuse semantic_results keyword_results sw kw)))
  = table_keys (fuse semantic_results keyword_results sw kw).
Proof.
  pose proof (fuse_entries semantic_results keyword_results sw kw) as H.
  unfold table_keys.
  induction H as [|[k e] d [Hid _] _ IH]; [reflexivity|].
  cbn [map fst snd] in *. now rewrite IH, Hid.
Qed.

Lemma table_get_of_In k e d :
  NoDup (table_keys d) -> In (k, e) d -> table_get k d = Some e.
Proof.
  unfold table_keys. induction d as [|[k0 v0] d IH]; [intros _ []|].
  cbn [map fst]. intros Hnd [Heq|Hin].
  - injection Heq as -> ->. cbn [table_get]. now rewrite String.eqb_refl.
  - apply NoDup_cons in Hnd. destruct Hnd as [Hk0 Hnd].
    cbn [table_get]. destruct (String.eqb k k0) eqn:E.
    + apply String.eqb_eq in E. subst k0. exfalso. apply Hk0.
      apply list_elem_of_In. apply (in_map fst) in Hin. exact Hin.
    + now apply IH.
Qed.

Lemma hybrid_search_ranked sv query n sw kw :
  hybrid_search sv query n sw kw =
  try! semantic_results := search sv query (n * 2) in
  try! keyword_results := query_texts sv query (n * 2) in
  Ok (map result (ranked_entries semantic_results keyword_results n sw kw)).
Proof. reflexivity. Qed.

(** *** A list that is already in order *)

Lemma sorted_desc_id {A} (key : A -> Q) l :
  descending key l -> sorted_desc key l = l.
Proof.
  unfold descending. induction 1 as [|x l Hl IH Hx]; [reflexivity|].
  cbn [sorted_desc fold_right]. fold (sorted_desc key l). rewrite IH.
  destruct l as [|y l]; [reflexivity|]. cbn [insert_desc].
  apply List.Forall_inv in Hx.
  now rewrite (proj2 (Qle_bool_iff (key y) (key x)) Hx).
Qed.

Lemma rank_score_decreasing (i j : Z) (n : nat) :
  (i <= j)%Z -> rank_score j n <= rank_score i n.
Proof.
  intros Hij. unfold rank_score.
  assert (Hdiv : inject_Z i / inject_Z (Z.of_nat n)
                 <= inject_Z j / inject_Z (Z.of_nat n)).
  { unfold Qdiv. apply Qmult_le_compat_r; [now rewrite <- Zle_Qle|].
    apply Qinv_le_0_compat. rewrite <- (Zle_Qle 0). lia. }
  lra.
Qed.

End RetrievalMoreFacts.

(** ** Retrieval: further theorems *)

Module RetrievalExtras.

Import Py Retrieval RetrievalSpec RetrievalMore.
Import FusionFacts DedupFacts PipelineFacts OriginFacts RetrievalMoreFacts.
Local Open Scope Q_scope.

Lemma rank_results_unfold cfg k all_results filtered :
  filter_by_threshold (similarity_threshold cfg)
    (deduplicate_results all_results) = Ok filtered ->
  rank_results cfg k all_results
  = Ok (slice_to k (sorted_desc similarity_key filtered)).
Proof. intros H. unfold rank_results. now rewrite H. Qed.

Lemma rank_results_inv cfg k all_results out :
  rank_results cfg k all_results = Ok out ->
  exists filtered,
    filter_by_threshold (similarity_threshold cfg)
      (deduplicate_results all_results) = Ok filtered
    /\ out = slice_to k (sorted_desc similarity_key filtered).
Proof.
  unfold rank_results.
  destruct (filter_by_threshold _ _) as [e|filtered]; [discriminate|].
  cbn [bind]. intros [= <-]. now exists filtered.
Qed.

Lemma retrieve_of_gather sv cfg query k_arg per_variation :
  Forall2
    (fun v results =>
       search_variation sv cfg (effective_k cfg k_arg) v = Ok results)
    (expand_query sv query) per_variation ->
  retrieve sv cfg query k_arg
  = rank_results cfg (effective_k cfg k_arg) (concat per_variation).
Proof.
  intros Hper. rewrite retrieve_unfold.
  assert (Hg : gather sv cfg (effective_k cfg k_arg) (expand_query sv query)
                 [] = Ok (concat per_variation)).
  { apply gather_ok. now exists per_variation. }
  now rewrite Hg.
Qed.

(** X9.  Raising the similarity threshold never increases the number of
    results: if [retrieve] returns with one threshold, it returns with any
    higher threshold, and with no more results. *)
Theorem X9_higher_threshold_fewer_results (sv : Services) (cfg : Config)
    (query : string) (k_arg : option Z) (higher : Q)
    (out : list SearchResult) :
  similarity_threshold cfg <= higher ->
  retrieve sv cfg query k_arg = Ok out ->
  exists out',
    retrieve sv (with_threshold higher cfg) query k_arg = Ok out'
    /\ (length out' <= length out)%nat.
Proof.
  intros Hle Hret.
  destruct (retrieve_ok _ _ _ _ _ Hret) as (per & Hper & Hrank).
  destruct (rank_results_inv _ _ _ _ Hrank) as (f1 & Hf1 & ->).
  destruct (filter_by_threshold_mono _ higher _ _ Hle Hf1) as (f2 & Hf2 & Hsub).
  exists (slice_to (effective_k cfg k_arg) (sorted_desc similarity_key f2)).
  split.
  - rewrite (retrieve_of_gather sv (with_threshold higher cfg) query k_arg per);
      [|exact Hper].
    now apply rank_results_unfold.
  - apply sublist_length in Hsub. apply Nat2Z.inj_le.
    rewrite !slice_to_length, !sorted_desc_length.
    destruct (effective_k cfg k_arg <? 0)%Z; lia.
Qed.

Lemma X9_higher_threshold_fewer_results_witness :
  exists out',
    retrieve two_rankings (with_threshold (6 # 10) default_config) "q" None
    = Ok out'
    /\ (length out'
        <= length [format_result true (row "b" "beta" (1 # 10));
                   format_result true (row "a" "alpha" (1 # 2))])%nat.
Proof.
  exact (X9_higher_threshold_fewer_results two_rankings default_config "q"
           None (6 # 10) _ (Qle_bool_imp_le (3 # 10) (6 # 10) eq_refl) eq_refl).
Defined.

(** X10.  The results of [retrieve] pass the threshold test, no two of them
    share their first 100 characters of text, and for a non-negative [k]
    there are at most [k] of them. *)
Theorem X10_retrieve_results_are_few_and_distinct (sv : Services)
    (cfg : Config) (query : string) (k_arg : option Z)
    (out : list SearchResult) :
  retrieve sv cfg query k_arg = Ok out ->
  Forall (fun r => passes_threshold (similarity_threshold cfg) r = Ok true)
    out
  /\ NoDup (map (fun r => prefix 100 (text r)) out)
  /\ ((0 <= effective_k cfg k_arg)%Z ->
      (Z.of_nat (length out) <= effective_k cfg k_arg)%Z).
Proof.
  intros Hret.
  destruct (retrieve_ok _ _ _ _ _ Hret) as (per & Hper & Hrank).
  split; [|split].
  - apply Forall_forall. intros r Hr. apply list_elem_of_In in Hr.
    now destruct (rank_results_In _ _ _ _ _ Hrank Hr).
  - destruct (rank_results_inv _ _ _ _ Hrank) as (f & Hf & ->).
    apply (NoDup_map_sublist fingerprint _ _ (slice_to_sublist _ _)).
    apply (NoDup_map_perm fingerprint _ _ (sorted_desc_perm _ _)).
    apply (NoDup_map_sublist fingerprint _ _
             (filter_by_threshold_sublist _ _ _ Hf)).
    apply dedup_from_NoDup.
  - destruct (rank_results_inv _ _ _ _ Hrank) as (f & _ & ->).
    intros Hk. rewrite slice_to_length.
    destruct (Z.ltb_spec (effective_k cfg k_arg) 0); lia.
Qed.

Lemma X10_retrieve_results_are_few_and_distinct_witness :
  let out :=
    [format_result true (row "b" "beta" (1 # 10));
     format_result true (row "a" "alpha" (1 # 2))] in
  Forall (fun r => passes_threshold (3 # 10) r = Ok true) out
  /\ NoDup (map (fun r => prefix 100 (text r)) out)
  /\ ((0 <= 8)%Z -> (Z.of_nat (length out) <= 8)%Z).
Proof.
  exact (X10_retrieve_results_are_few_and_distinct two_rankings
           default_config "q" None _ eq_refl).
Defined.

Lemma semantic_loop_entered n weight l acc k :
  In k (map (fun ir => id (snd ir)) l)
  \/ (exists e, table_get k acc = Some e) ->
  exists e, table_get k (semantic_loop n weight l acc) = Some e.
Proof.
  revert acc. induction l as [|x l IH]; intros acc Hgen.
  - destruct Hgen as [[]|H]. exact H.
  - cbn [semantic_loop fold_left]. apply IH.
    destruct (String.eqb k (id (snd x))) eqn:E.
    + right. rewrite table_get_set, E. eauto.
    + destruct Hgen as [[Hx|Hl]|[e He]].
      * rewrite Hx, String.eqb_refl in E. discriminate.
      * now left.
      * right. exists e. now rewrite table_get_set, E.
Qed.

(** Every id of the semantic list has an entry in [result_scores]. *)
Lemma semantic_ids_entered semantic_results keyword_results sw kw r :
  In r semantic_results ->
  exists e,
    table_get (id r) (fuse semantic_results keyword_results sw kw) = Some e.
Proof.
  intros Hr. unfold fuse, add_keyword.
  apply (keyword_loop_entered (length (rows keyword_results))
           (has_distances keyword_results) kw).
  right. unfold score_semantic.
  apply (semantic_loop_entered (length semantic_results) sw).
  left. destruct (In_enumerate _ _ Hr) as [i Hi].
  apply in_map_iff. now exists (i, r).
Qed.

Lemma table_get_keys k d :
  (exists e, table_get k d = Some e) <-> In k (table_keys d).
Proof.
  unfold table_keys. induction d as [|[k0 v0] d IH]; cbn [table_get map fst].
  - split; [intros [e He]; discriminate | intros []].
  - destruct (String.eqb k k0) eqn:E.
    + apply String.eqb_eq in E. subst k0. split; [now left | eauto].
    + rewrite IH. split; [now right|]. intros [Heq|Hin]; [|exact Hin].
      subst k0. rewrite String.eqb_refl in E. discriminate.
Qed.

(** The keys of [result_scores] are the ids of the two lists. *)
Lemma fuse_keys semantic_results keyword_results sw kw k :
  In k (table_keys (fuse semantic_results keyword_results sw kw)) <->
  In k (map id semantic_results)
  \/ In k (map row_id (rows keyword_results)).
Proof.
  split.
  - intros Hk. unfold table_keys in Hk. apply in_map_iff in Hk.
    destruct Hk as ([k' e] & Hfst & Hin). cbn [fst] in Hfst. subst k'.
    pose proof (fuse_entries semantic_results keyword_results sw kw) as H.
    rewrite Forall_forall in H. apply list_elem_of_In in Hin.
    destruct (H _ Hin) as [Hid [Hs|(rw & Hrw & Heq)]]; cbn [fst snd] in *.
    + left. rewrite <- Hid. now apply in_map.
    + right. rewrite <- Hid, Heq. cbn [id keyword_only]. now apply in_map.
  - intros [Hk|Hk]; apply table_get_keys; apply in_map_iff in Hk;
      destruct Hk as (r & <- & Hr).
    + now apply semantic_ids_entered.
    + now apply keyword_ids_entered.
Qed.

(** X11.  [hybrid_search] ranks every id once and returns the head of the
    ranking.  [result_scores] has exactly one entry for every id of the
    semantic or of the keyword list.  The results are those of the first
    [n_results] entries (the slice [[:n_results]]) of a rearrangement of
    all the entries in descending order of score; so their ids are
    pairwise distinct, and for a non-negative [n_results] their number is
    the smaller of [n_results] and the number of distinct ids. *)
Theorem X11_hybrid_search_ranks_each_id_once (sv : Services)
    (query : string) (n : Z) (sw kw : Q) (out : list SearchResult) :
  hybrid_search sv query n sw kw = Ok out ->
  exists semantic_results keyword_results sorted,
    search sv query (n * 2) = Ok semantic_results
    /\ query_texts sv query (n * 2) = Ok keyword_results
    /\ Permutation sorted
         (map snd (fuse semantic_results keyword_results sw kw))
    /\ descending score sorted
    /\ out = map result (slice_to n sorted)
    /\ NoDup (map (fun e => id (result e)) sorted)
    /\ (forall k,
          In k (map (fun e => id (result e)) sorted) <->
          In k (map id semantic_results)
          \/ In k (map row_id (rows keyword_results)))
    /\ (forall e, In e sorted ->
          table_get (id (result e))
            (fuse semantic_results keyword_results sw kw) = Some e)
    /\ NoDup (map id out)
    /\ ((0 <= n)%Z ->
        Z.of_nat (length out) = Z.min n (Z.of_nat (length sorted))).
Proof.
  rewrite hybrid_search_ranked.
  destruct (search sv query (n * 2)) as [e|S]; [discriminate|].
  destruct (query_texts sv query (n * 2)) as [e|K]; [discriminate|].
  cbn [bind]. intros [= <-].
  exists S, K, (sorted_desc score (map snd (fuse S K sw kw))).
  split; [reflexivity|]. split; [reflexivity|].
  pose proof (fuse_keys_NoDup S K sw kw) as Hkeys.
  pose proof (fuse_entries S K sw kw) as Horigin.
  pose proof (sorted_desc_perm score (map snd (fuse S K sw kw))) as Hperm.
  rewrite Forall_forall in Horigin.
  assert (Hids : NoDup (map (fun e => id (result e))
                          (sorted_desc score (map snd (fuse S K sw kw))))).
  { apply (NoDup_map_perm (fun e => id (result e)) _ _ Hperm).
    rewrite <- (map_map result id), fuse_ids_are_keys. exact Hkeys. }
  split; [exact Hperm|].
  split; [apply sorted_desc_sorted|].
  split; [reflexivity|].
  split; [exact Hids|].
  split; [|split; [|split]].
  - intros k. rewrite <- fuse_keys, <- fuse_ids_are_keys.
    rewrite (map_map result id).
    split; intros Hk.
    + eapply Permutation_in; [apply Permutation_map, Hperm | exact Hk].
    + eapply Permutation_in;
        [apply Permutation_map, Permutation_sym, Hperm | exact Hk].
  - intros e He. apply sorted_desc_In, in_map_iff in He.
    destruct He as ([k e'] & <- & Hke). cbn [snd].
    apply list_elem_of_In in Hke.
    destruct (Horigin _ Hke) as [Hid _]. cbn [fst snd] in Hid. rewrite Hid.
    apply table_get_of_In; [exact Hkeys | now apply list_elem_of_In].
  - rewrite map_map.
    apply (NoDup_map_sublist (fun e => id (result e)) _ _
             (slice_to_sublist _ _)).
    exact Hids.
  - intros Hn. rewrite length_map. unfold ranked_entries.
    rewrite slice_to_length.
    destruct (Z.ltb_spec n 0); [lia | reflexivity].
Qed.

Lemma X11_hybrid_search_ranks_each_id_once_witness :
  exists semantic_results keyword_results sorted,
    search keyword_finds_more "q" (1 * 2) = Ok semantic_results
    /\ query_texts keyword_finds_more "q" (1 * 2) = Ok keyword_results
    /\ Permutation sorted
         (map snd
            (fuse semantic_results keyword_results (7 # 10) (3 # 10)))
    /\ descending score sorted
    /\ [format_result true (row "a" "alpha" (1 # 10))]
       = map result (slice_to 1 sorted)
    /\ NoDup (map (fun e => id (result e)) sorted)
    /\ (forall k,
          In k (map (fun e => id (result e)) sorted) <->
          In k (map id semantic_results)
          \/ In k (map row_id (rows keyword_results)))
    /\ (forall e, In e sorted ->
          table_get (id (result e))
            (fuse semantic_results keyword_results (7 # 10) (3 # 10))
          = Some e)
    /\ NoDup (map id [format_result true (row "a" "alpha" (1 # 10))])
    /\ ((0 <= 1)%Z ->
        Z.of_nat (length [format_result true (row "a" "alpha" (1 # 10))])
        = Z.min 1 (Z.of_nat (length sorted))).
Proof.
  exact (X11_hybrid_search_ranks_each_id_once keyword_finds_more "q" 1
           (7 # 10) (3 # 10) _ eq_refl).
Defined.

Lemma table_set_absent k v d :
  table_get k d = None -> table_set k v d = d ++ [(k, v)].
Proof.
  induction d as [|[k0 v0] d IH]; cbn [table_get table_set app];
    [reflexivity|].
  destruct (String.eqb k k0); [discriminate|].
  intros H. now rewrite (IH H).
Qed.

(** Without repeated ids the semantic loop enters the records in rank
    order. *)
Lemma semantic_loop_entries n weight results :
  NoDup (map id results) ->
  semantic_loop n weight (enumerate results) []
  = map (fun ir =>
           (id (snd ir),
            {| result := snd ir; score := rank_score (fst ir) n * weight |}))
      (enumerate results).
Proof.
  induction results as [|x l IH] using rev_ind; intros Hnd; [reflexivity|].
  pose proof (semantic_loop_lookup n weight l (id x)) as Hget.
  rewrite map_app in Hnd. apply NoDup_app in Hnd.
  destruct Hnd as (Hl & Hx & _).
  assert (Hnone : find_rank id (id x) l = None).
  { apply find_rank_none. intros Hin. apply (Hx (id x)).
    - now apply list_elem_of_In.
    - cbn. apply list_elem_of_here. }
  rewrite Hnone in Hget. specialize (Hget Hl).
  rewrite enumerate_snoc, map_app. unfold semantic_loop in *.
  rewrite fold_left_app. cbn [fold_left fst snd map].
  rewrite <- (IH Hl). now apply table_set_absent.
Qed.

Lemma enumerate_entries_descending (g : nat -> Q) (l : list SearchResult) :
  (forall i j, (i <= j)%nat -> g j <= g i) ->
  descending score (imap (fun i r => {| result := r; score := g i |}) l).
Proof.
  unfold descending. revert g.
  induction l as [|x l IH]; intros g Hg; cbn [imap]; [constructor|].
  constructor.
  - apply (IH (g ∘ S)). intros i j Hij. unfold compose. apply Hg. lia.
  - apply List.Forall_forall. intros e He. apply list_elem_of_In in He.
    apply elem_of_lookup_imap in He. destruct He as (i & y & -> & _).
    cbn [score]. unfold compose. apply Hg. lia.
Qed.

Lemma slice_to_map {A B} (f : A -> B) (stop : Z) (l : list A) :
  map f (slice_to stop l) = slice_to stop (map f l).
Proof.
  unfold slice_to. rewrite length_map.
  change (map f (take ?n l)) with (f <$> take n l).
  now rewrite fmap_take.
Qed.

(** X12.  When the keyword query finds nothing, hybrid search is semantic
    search: for a non-negative semantic weight and semantic results without
    repeated ids, [hybrid_search] returns the first [n_results] of the
    semantic results (fetched with [2 * n_results]) in their order. *)
Theorem X12_hybrid_search_without_keyword_hits (sv : Services)
    (query : string) (n : Z) (sw kw : Q)
    (semantic_results : list SearchResult) (keyword_results : QueryResult) :
  search sv query (n * 2) = Ok semantic_results ->
  query_texts sv query (n * 2) = Ok keyword_results ->
  rows keyword_results = [] ->
  NoDup (map id semantic_results) ->
  0 <= sw ->
  hybrid_search sv query n sw kw = Ok (slice_to n semantic_results).
Proof.
  intros HS HK Hrows Hnd Hsw.
  rewrite hybrid_search_ranked, HS, HK. cbn [bind Ok]. f_equal.
  unfold ranked_entries, fuse, add_keyword, score_semantic.
  rewrite Hrows. cbn [enumerate imap fold_left].
  fold (semantic_loop (length semantic_results) sw
          (enumerate semantic_results) []).
  rewrite (semantic_loop_entries _ _ _ Hnd), map_map. cbn [snd].
  unfold enumerate.
  change (map ?f (imap ?g semantic_results))
    with (f <$> imap g semantic_results).
  rewrite fmap_imap. unfold compose. cbn [fst snd].
  rewrite sorted_desc_id.
  - rewrite slice_to_map. f_equal.
    change (map result (imap ?g semantic_results))
      with (result <$> imap g semantic_results).
    rewrite fmap_imap. unfold compose. cbn [result].
    clear. induction semantic_results as [|x l IH]; [reflexivity|].
    cbn [imap]. f_equal. rewrite <- IH at 2. now apply imap_ext.
  - apply (enumerate_entries_descending
             (fun i => rank_score (Z.of_nat i) (length semantic_results) * sw)).
    intros i j Hij. apply Qmult_le_compat_r; [|exact Hsw].
    apply rank_score_decreasing. lia.
Qed.

Lemma X12_hybrid_search_without_keyword_hits_witness :
  hybrid_search two_rankings "q" 1 (7 # 10) (3 # 10)
  = Ok (slice_to 1
          [format_result true (row "b" "beta" (1 # 10));
           format_result true (row "a" "alpha" (1 # 2))]).
Proof.
  apply (X12_hybrid_search_without_keyword_hits two_rankings "q" 1
           (7 # 10) (3 # 10) _ {| rows := []; has_distances := true |}
           eq_refl eq_refl eq_refl).
  - apply (bool_decide_unpack _). vm_compute. exact I.
  - apply Qle_bool_imp_le. reflexivity.
Defined.

(** X13.  On an empty index [retrieve] returns the empty list and raises
    nothing: when the embedding and the text query of every variation come
    back without rows, the result is [[]]. *)
Theorem X13_empty_index_gives_no_results (sv : Services) (cfg : Config)
    (query : string) (k_arg : option Z) :
  (forall variation n,
     In variation (expand_query sv query) ->
     exists by_embedding by_text,
       query_embeddings sv variation n = Ok by_embedding
       /\ rows by_embedding = []
       /\ query_texts sv variation n = Ok by_text
       /\ rows by_text = []) ->
  retrieve sv cfg query k_arg = Ok [].
Proof.
  intros Hempty.
  assert (Hvar : forall v, In v (expand_query sv query) ->
                   search_variation sv cfg (effective_k cfg k_arg) v = Ok []).
  { intros v Hv. unfold search_variation, hybrid_search, search.
    destruct (use_hybrid cfg).
    - destruct (Hempty v (effective_k cfg k_arg * 2)%Z Hv)
        as (q1 & q2 & -> & Hr1 & -> & Hr2).
      cbn [bind Ok]. rewrite Hr1. cbn [map]. unfold fuse, add_keyword.
      rewrite Hr2. cbn. unfold slice_to. now rewrite take_nil.
    - destruct (Hempty v (effective_k cfg k_arg) Hv)
        as (q1 & _ & -> & Hr1 & _).
      cbn [bind Ok]. now rewrite Hr1. }
  assert (Hper : Forall2
                   (fun v results =>
                      search_variation sv cfg (effective_k cfg k_arg) v
                      = Ok results)
                   (expand_query sv query)
                   (map (fun _ => []) (expand_query sv query))).
  { clear Hempty. revert Hvar. generalize (expand_query sv query).
    intros l. induction l as [|v vs IH]; intros Hvar; [apply Forall2_nil_2|].
    cbn [map]. apply Forall2_cons_2; [apply Hvar; now left|].
    apply IH. intros v' Hv'. apply Hvar. now right. }
  rewrite (retrieve_of_gather _ _ _ _ _ Hper).
  assert (Hnil : concat (map (fun _ : string => @nil SearchResult)
                           (expand_query sv query)) = []).
  { clear. generalize (expand_query sv query). intros l.
    induction l as [|v vs IH]; [reflexivity|exact IH]. }
  rewrite Hnil. unfold rank_results, deduplicate_results. cbn.
  unfold slice_to. now rewrite take_nil.
Qed.

Lemma X13_empty_index_gives_no_results_witness :
  retrieve empty_index default_config "q" None = Ok [].
Proof.
  apply (X13_empty_index_gives_no_results empty_index default_config "q"
           None).
  intros variation n _.
  exists {| rows := []; has_distances := true |},
         {| rows := []; has_distances := true |}.
  repeat split.
Defined.

End RetrievalExtras.

(** ** Query expansion *)

Module ExpanderFacts.

Import Py Retrieval Chunker ChunkerSpec PyFacts SentenceFacts.
Import PyMore Expander ExpanderSpec.

Lemma lstrip_fixed s :
  starts_with_space s = false -> lstrip s = s.
Proof. destruct s as [|c s]; [reflexivity|]. cbn. now intros ->. Qed.

Lemma lstrip_starts s : starts_with_space (lstrip s) = false.
Proof.
  induction s as [|c s IH]; [reflexivity|]. cbn [lstrip].
  destruct (is_space c) eqn:E; [exact IH|]. cbn. exact E.
Qed.

Lemma rstrip_idem s : rstrip (rstrip s) = rstrip s.
Proof.
  induction s as [|c s IH]; [reflexivity|]. cbn [rstrip].
  destruct (is_empty (rstrip s) && is_space c) eqn:E; [reflexivity|].
  cbn [rstrip]. now rewrite IH, E.
Qed.

(** Stripping twice is stripping once. *)
Lemma strip_idem s : strip (strip s) = strip s.
Proof.
  unfold strip.
  assert (H : lstrip (rstrip (lstrip s)) = rstrip (lstrip s)).
  { apply lstrip_fixed.
    destruct (rstrip (lstrip s)) as [|c t] eqn:E; [reflexivity|].
    rewrite <- E, rstrip_starts; [apply lstrip_starts|].
    rewrite E. discriminate. }
  now rewrite H, rstrip_idem.
Qed.

Lemma has_char_lstrip c s :
  has_char c s = false -> has_char c (lstrip s) = false.
Proof.
  induction s as [|d s IH]; [reflexivity|]. cbn [lstrip has_char].
  intros H. apply orb_false_elim in H. destruct H as [Hd Hs].
  destruct (is_space d); [now apply IH|]. cbn [has_char]. now rewrite Hd, Hs.
Qed.

Lemma has_char_rstrip c s :
  has_char c s = false -> has_char c (rstrip s) = false.
Proof.
  induction s as [|d s IH]; [reflexivity|]. cbn [rstrip has_char].
  intros H. apply orb_false_elim in H. destruct H as [Hd Hs].
  destruct (is_empty (rstrip s) && is_space d); [reflexivity|].
  cbn [has_char]. now rewrite Hd, (IH Hs).
Qed.

Lemma has_char_strip c s :
  has_char c s = false -> has_char c (strip s) = false.
Proof. intros H. now apply has_char_rstrip, has_char_lstrip. Qed.

(** No piece of a split holds the separator. *)
Lemma split_on_pieces sep s :
  Forall (fun p => has_char sep p = false) (split_on sep s).
Proof.
  induction s as [|c s IH]; cbn [split_on].
  - now apply Forall_cons_2.
  - destruct (Ascii.eqb c sep) eqn:E; [now apply Forall_cons_2|].
    destruct (split_on sep s) as [|p ps].
    + apply Forall_cons_2; [|apply Forall_nil_2]. cbn. now rewrite E.
    + apply Forall_cons_1 in IH. destruct IH as [Hp Hps].
      apply Forall_cons_2; [|exact Hps]. cbn. now rewrite E, Hp.
Qed.

(** The variations read from a reply are its non-blank lines, stripped. *)
Lemma parse_variations_lines text :
  Forall
    (fun v =>
       strip v = v /\ is_empty v = false /\ has_char "010" v = false)
    (parse_variations text).
Proof.
  unfold parse_variations. apply Forall_fmap, Forall_forall.
  intros line Hline. apply list_elem_of_In, filter_In in Hline.
  destruct Hline as [Hin Hne]. cbn beta. split; [apply strip_idem|].
  split; [now apply negb_true_iff in Hne|].
  apply has_char_strip.
  pose proof (split_on_pieces "010" (strip text)) as Hall.
  rewrite Forall_forall in Hall. now apply Hall, list_elem_of_In.
Qed.

Lemma slice_to_Forall {A} (P : A -> Prop) (stop : Z) (l : list A) :
  Forall P l -> Forall P (slice_to stop l).
Proof. intros H. unfold slice_to. now apply Forall_take. Qed.

Lemma join_cons_char sep c p ps :
  join sep (String c p :: ps) = String c (join sep (p :: ps)).
Proof. destruct ps; reflexivity. Qed.

(** Joining the pieces of a split with the separator gives the string
    back. *)
Lemma join_split_on s :
  split_on "010" s <> [] /\ join nl (split_on "010" s) = s.
Proof.
  induction s as [|c s [Hne IH]]; [split; [discriminate | reflexivity]|].
  cbn [split_on]. destruct (Ascii.eqb c "010") eqn:E.
  - apply Ascii.eqb_eq in E. subst c. split; [discriminate|].
    destruct (split_on "010" s) as [|p ps]; [congruence|].
    change (join nl (EmptyString :: p :: ps))
      with (String "010" (join nl (p :: ps))).
    now rewrite IH.
  - destruct (split_on "010" s) as [|p ps]; [congruence|].
    split; [discriminate|]. now rewrite join_cons_char, IH.
Qed.

Lemma split_on_lines text : lines_of (split_on "010" text) text.
Proof.
  destruct (join_split_on text) as [Hne Hjoin].
  split; [exact Hjoin|]. split; [exact Hne | apply split_on_pieces].
Qed.

End ExpanderFacts.

(** ** Query expansion: theorems *)

Module ExpanderExtras.

Import Py Retrieval RetrievalSpec RetrievalMore.
Import PipelineFacts OriginFacts RetrievalMoreFacts RetrievalExtras.
Import PyMore Expander ExpanderSpec ExpanderFacts.

(** X14.  [expand_query] always returns the original query first.  When
    the model replies, the further variations are the lines of the
    stripped reply that are not blank, each stripped, in their order and
    cut to [num_variations - 1] of them; so each is stripped, not blank
    and without a line feed.  When expansion is disabled or the model
    raises, the result is the original query alone. *)
Theorem X14_expansion_keeps_the_query_first (st : Settings) (model : Model)
    (query : string) (num_variations : option Z) :
  let n := clamp_variations st (default (max_variations st) num_variations) in
  exists variations,
    expand_query st model query num_variations = query :: variations
    /\ Forall
         (fun v =>
            strip v = v /\ is_empty v = false /\ has_char "010" v = false)
         variations
    /\ (enabled st = false -> variations = [])
    /\ (forall e,
          model (expansion_prompt query n) = Raise e -> variations = [])
    /\ (forall reply,
          enabled st = true ->
          model (expansion_prompt query n) = Ok reply ->
          exists lines,
            lines_of lines (strip reply)
            /\ variations
               = slice_to (n - 1) (map strip (List.filter not_blank lines))).
Proof.
  cbn zeta. unfold expand_query. destruct (enabled st); cbn [negb].
  - destruct (model _) as [e|text] eqn:Hm.
    + exists []. split; [reflexivity|]. split; [apply Forall_nil_2|].
      split; [discriminate|]. split; [reflexivity|].
      intros reply _ Hr. unfold Ok in Hr. discriminate.
    + eexists. split; [reflexivity|]. split.
      * apply slice_to_Forall, parse_variations_lines.
      * split; [discriminate|]. split.
        { intros e He. unfold Raise in He. congruence. }
        intros reply _ Hr. unfold Ok in Hr. injection Hr as <-.
        exists (split_on "010" (strip text)).
        split; [apply split_on_lines | reflexivity].
  - exists []. split; [reflexivity|]. split; [apply Forall_nil_2|].
    split; [reflexivity|]. split; [reflexivity|]. discriminate.
Qed.

(** X15.  The number of variations is clamped.  When [min_variations] is at
    least 1, [expand_query] returns at least one and at most
    [max(min_variations, min(n, max_variations))] queries, where [n] is the
    requested number, [max_variations] by default; so at most
    [max_variations] when [min_variations <= max_variations]. *)
Theorem X15_expansion_count_is_clamped (st : Settings) (model : Model)
    (query : string) (num_variations : option Z) :
  1 <= min_variations st ->
  let n := default (max_variations st) num_variations in
  let out := expand_query st model query num_variations in
  1 <= Z.of_nat (length out)
       <= Z.max (min_variations st) (Z.min n (max_variations st))
  /\ (min_variations st <= max_variations st ->
      Z.of_nat (length out) <= max_variations st).
Proof.
  intros Hmin n out.
  assert (H : 1 <= Z.of_nat (length out)
                   <= Z.max (min_variations st)
                        (Z.min n (max_variations st))).
  { subst out. unfold expand_query.
    destruct (enabled st); cbn [negb]; [|cbn [length]; lia].
    fold n. unfold clamp_variations.
    destruct (model _) as [e|text]; [cbn [length]; lia|].
    rewrite length_app. cbn [length].
    pose proof (slice_to_length
                  (Z.max (min_variations st) (Z.min n (max_variations st)) - 1)
                  (parse_variations text)) as Hlen.
    destruct (Z.ltb_spec
                (Z.max (min_variations st) (Z.min n (max_variations st)) - 1)
                0); lia. }
  split; [exact H|]. lia.
Qed.

Lemma X15_expansion_count_is_clamped_witness :
  let out := expand_query default_settings three_lines "alpha?" (Some 2) in
  1 <= Z.of_nat (length out) <= Z.max 3 (Z.min 2 7)
  /\ (3 <= 7 -> Z.of_nat (length out) <= 7).
Proof.
  apply (X15_expansion_count_is_clamped default_settings three_lines
           "alpha?" (Some 2)).
  simpl. lia.
Defined.

(** X16.  Without expansion [retrieve] is one search.  When the expander is
    disabled or its model raises, [retrieve] searches the original query
    only and ranks the results of that search: a failure of the expansion
    never fails the retrieval. *)
Theorem X16_failed_expansion_searches_the_query (st : Settings)
    (model : Model) (sv : Services) (cfg : Config) (query : string)
    (k_arg : option Z) :
  enabled st = false
  \/ (exists e,
        model (expansion_prompt query
                 (clamp_variations st (max_variations st))) = Raise e) ->
  retrieve (with_expander st model sv) cfg query k_arg
  = try! results :=
      search_variation sv cfg (effective_k cfg k_arg) query in
    rank_results cfg (effective_k cfg k_arg) results.
Proof.
  intros Hoff.
  assert (Hexp : expand_query st model query None = [query]).
  { unfold expand_query. destruct Hoff as [->|[e He]]; [reflexivity|].
    destruct (enabled st); [|reflexivity]. cbn [negb default].
    now rewrite He. }
  rewrite retrieve_unfold.
  change (Retrieval.expand_query (with_expander st model sv) query)
    with (expand_query st model query None).
  rewrite Hexp. cbn [gather app].
  change (search_variation (with_expander st model sv))
    with (search_variation sv).
  destruct (search_variation sv cfg (effective_k cfg k_arg) query);
    reflexivity.
Qed.

Lemma X16_failed_expansion_searches_the_query_witness :
  retrieve (with_expander default_settings unreachable two_rankings)
    default_config "q" None
  = try! results := search_variation two_rankings default_config 8 "q" in
    rank_results default_config 8 results.
Proof.
  apply (X16_failed_expansion_searches_the_query default_settings unreachable
           two_rankings default_config "q" None).
  right. exists (ExternalError "quota exceeded"). reflexivity.
Defined.

End ExpanderExtras.

(** ** Slices, ranges and batches *)

Module BatchFacts.

Import Py PyMore.

Lemma clamp_index_nonneg n i :
  0 <= n -> 0 <= i -> clamp_index n i = Z.min i n.
Proof.
  intros Hn Hi. unfold clamp_index.
  destruct (Z.ltb_spec i 0); [lia | reflexivity].
Qed.

(** A prefix followed by the slice that starts where it ends. *)
Lemma take_slice {A} (a b : Z) (l : list A) :
  0 <= a <= b ->
  take (Z.to_nat a) l ++ slice a b l = take (Z.to_nat b) l.
Proof.
  intros Hab. unfold slice, len.
  rewrite !clamp_index_nonneg by lia.
  destruct (Z.le_gt_cases (Z.of_nat (length l)) a) as [Ha|Ha].
  - rewrite !Z.min_r by lia. rewrite Z.sub_diag. cbn [Z.to_nat take].
    rewrite app_nil_r, !take_ge by lia. reflexivity.
  - rewrite (Z.min_l a) by lia.
    replace (Z.to_nat (Z.min b (Z.of_nat (length l)) - a))
      with (Z.to_nat (Z.min b (Z.of_nat (length l))) - Z.to_nat a)%nat by lia.
    rewrite take_take_drop.
    replace (Z.to_nat a
             + (Z.to_nat (Z.min b (Z.of_nat (length l))) - Z.to_nat a))%nat
      with (Z.to_nat (Z.min b (Z.of_nat (length l)))) by lia.
    destruct (Z.le_gt_cases b (Z.of_nat (length l))) as [Hb|Hb].
    + now rewrite Z.min_l by lia.
    + rewrite Z.min_r by lia. rewrite !take_ge by lia. reflexivity.
Qed.

Lemma slice_length {A} (a b : Z) (l : list A) :
  0 <= a <= b ->
  len (slice a b l) = Z.min b (len l) - Z.min a (len l).
Proof.
  intros Hab. unfold slice, len.
  rewrite !clamp_index_nonneg by lia.
  rewrite length_take, length_drop. lia.
Qed.

(** Cutting the end of a slice at the length of the list changes
    nothing. *)
Lemma slice_min {A} (a b : Z) (l : list A) :
  0 <= a <= b -> slice a (Z.min b (len l)) l = slice a b l.
Proof.
  intros Hab. unfold slice. unfold len at 2 4.
  rewrite !clamp_index_nonneg by (unfold len; lia).
  now rewrite <- Z.min_assoc, Z.min_id.
Qed.

(** The number of steps of a range with a positive step. *)
Lemma range_length_pos stop step :
  0 < step -> 0 <= stop ->
  let m := Z.of_nat (range_length stop step) in
  stop <= m * step < stop + step.
Proof.
  intros Hs Hn. unfold range_length.
  destruct (Z.ltb_spec 0 step); [|lia].
  cbn zeta.
  pose proof (Z.div_mod (stop + step - 1) step ltac:(lia)) as Hdm.
  pose proof (Z.mod_pos_bound (stop + step - 1) step Hs) as Hm.
  assert (0 <= (stop + step - 1) / step) by (apply Z.div_pos; lia).
  rewrite Z2Nat.id by assumption. nia.
Qed.

Lemma range_length_neg stop step :
  step < 0 -> 0 <= stop -> range_length stop step = 0%nat.
Proof.
  intros Hs Hn. unfold range_length.
  destruct (Z.ltb_spec 0 step); [lia|].
  assert ((- stop - step - 1) / (- step) <= 0); [|lia].
  destruct (Z.eq_dec stop 0) as [->|].
  - rewrite Z.div_small by lia. lia.
  - assert ((- stop - step - 1) / - step < 1); [|lia].
    apply Z.div_lt_upper_bound; lia.
Qed.

Lemma range_pos stop step :
  0 < step ->
  range stop step
  = Return (map (fun j => Z.of_nat j * step) (seq 0 (range_length stop step))).
Proof.
  intros Hs. unfold range. destruct (Z.eqb_spec step 0); [lia | reflexivity].
Qed.

Lemma range_neg stop step :
  step < 0 -> 0 <= stop -> range stop step = Return [].
Proof.
  intros Hs Hn. unfold range. destruct (Z.eqb_spec step 0); [lia|].
  now rewrite range_length_neg.
Qed.

(** The slices of the first [m] steps, one after the other, are a
    prefix of the list. *)
Lemma concat_slices {A} (step : Z) (l : list A) (m : nat) :
  0 < step ->
  concat (map (fun i => slice i (i + step) l)
            (map (fun j => Z.of_nat j * step) (seq 0 m)))
  = take (Z.to_nat (Z.of_nat m * step)) l.
Proof.
  intros Hs. induction m as [|m IH]; [reflexivity|].
  rewrite seq_S, !map_app, concat_app, IH. cbn [map concat Nat.add].
  rewrite app_nil_r.
  replace (Z.of_nat (S m) * step) with (Z.of_nat m * step + step) by lia.
  apply take_slice. nia.
Qed.

(** The batches of a range with a positive step cover the list. *)
Lemma concat_batches {A} (step : Z) (l : list A) :
  0 < step ->
  concat (map (fun i => slice i (i + step) l)
            (map (fun j => Z.of_nat j * step)
               (seq 0 (range_length (len l) step))))
  = l.
Proof.
  intros Hs. rewrite concat_slices by assumption.
  pose proof (range_length_pos (len l) step Hs ltac:(unfold len; lia)) as Hm.
  cbn zeta in Hm. apply take_ge. unfold len in *. lia.
Qed.

(** Each batch holds at least one element and at most [step]. *)
Lemma batches_sizes {A} (step : Z) (l : list A) :
  0 < step ->
  Forall (fun b : list A => 1 <= len b <= step)
    (map (fun i => slice i (i + step) l)
       (map (fun j => Z.of_nat j * step)
          (seq 0 (range_length (len l) step)))).
Proof.
  intros Hs.
  pose proof (range_length_pos (len l) step Hs ltac:(unfold len; lia)) as Hm.
  cbn zeta in Hm.
  rewrite map_map. apply Forall_map, Forall_forall. intros j Hj.
  apply list_elem_of_In, in_seq in Hj. rewrite slice_length by nia.
  assert (Z.of_nat j * step < len l) by nia. lia.
Qed.

Lemma fold_left_app_concat {A B} (f : B -> list A) (l : list B) acc :
  fold_left (fun acc x => acc ++ f x) l acc = acc ++ concat (map f l).
Proof.
  revert acc. induction l as [|x l IH]; intros acc; cbn.
  - now rewrite app_nil_r.
  - now rewrite IH, app_assoc.
Qed.

Lemma traverse_ok {A B} (f : A -> fallible B) (g : A -> B) (l : list A) :
  Forall (fun x => f x = Return (g x)) l ->
  traverse f l = Return (map g l).
Proof.
  induction 1 as [|x l Hx _ IH]; [reflexivity|].
  cbn [traverse map]. rewrite Hx. cbn [and_then Return].
  rewrite IH. reflexivity.
Qed.

(** The first element that fails decides the error. *)
Lemma traverse_throw {A B} (f : A -> fallible B) (g : A -> B) e
    (good : list A) (bad : A) (rest : list A) :
  Forall (fun x => f x = Return (g x)) good ->
  f bad = Throw e ->
  traverse f (good ++ bad :: rest) = Throw e.
Proof.
  intros Hgood Hbad. induction Hgood as [|x l Hx _ IH]; cbn [traverse app].
  - rewrite Hbad. reflexivity.
  - rewrite Hx. cbn [and_then Return]. rewrite IH. reflexivity.
Qed.

End BatchFacts.

(** ** Embedding and storing chunks *)

Module IndexingFacts.

Import Py PyMore Embedding Store IndexingSpec BatchFacts.

Lemma task_or_idem cfg task :
  task_or cfg (Some (task_or cfg task)) = task_or cfg task.
Proof.
  destruct task as [[|c s]|]; cbn [task_or];
    destruct (task_type cfg); reflexivity.
Qed.

Lemma generate_embedding_task cfg api text task :
  generate_embedding cfg api text (Some (task_or cfg task))
  = generate_embedding cfg api text task.
Proof. unfold generate_embedding. now rewrite task_or_idem. Qed.

(** With a positive batch size the batches are not visible in the
    result. *)
Lemma generate_embeddings_batch_pos cfg api texts task :
  0 < batch_size cfg ->
  generate_embeddings_batch cfg api texts task
  = Return (map (fun text => generate_embedding cfg api text task) texts).
Proof.
  intros Hb. unfold generate_embeddings_batch.
  rewrite range_pos by assumption. cbn [and_then Return]. f_equal.
  unfold batch_step.
  rewrite (fold_left_app_concat
             (fun i =>
                map (fun text =>
                       generate_embedding cfg api text
                         (Some (task_or cfg task)))
                  (slice i (i + batch_size cfg) texts))).
  cbn [app].
  rewrite <- (map_map (fun i => slice i (i + batch_size cfg) texts)
                (map (fun text =>
                        generate_embedding cfg api text
                          (Some (task_or cfg task))))).
  rewrite <- concat_map, concat_batches by assumption.
  apply map_ext. intros text. apply generate_embedding_task.
Qed.

Lemma generate_embeddings_batch_neg cfg api texts task :
  batch_size cfg < 0 ->
  generate_embeddings_batch cfg api texts task = Return [].
Proof.
  intros Hb. unfold generate_embeddings_batch.
  rewrite range_neg by (unfold len; lia). reflexivity.
Qed.

Lemma generate_embeddings_batch_zero cfg api texts task :
  batch_size cfg = 0 ->
  generate_embeddings_batch cfg api texts task = Throw zero_step.
Proof.
  intros Hb. unfold generate_embeddings_batch, range. now rewrite Hb.
Qed.

Lemma zero_vector_length cfg :
  0 <= dimension cfg -> len (zero_vector cfg) = dimension cfg.
Proof.
  intros H. unfold len, zero_vector. rewrite repeat_length. lia.
Qed.

Lemma generate_embedding_length cfg api text task :
  0 <= dimension cfg ->
  (forall t k v, api t k = Return v -> len v = dimension cfg) ->
  len (generate_embedding cfg api text task) = dimension cfg.
Proof.
  intros Hd Hapi. unfold generate_embedding.
  destruct (is_empty (strip text)); [now apply zero_vector_length|].
  destruct (api text (task_or cfg task)) as [e|v] eqn:E.
  - now apply zero_vector_length.
  - exact (Hapi _ _ _ E).
Qed.

Lemma get_text_ok chunk :
  has_text chunk = true -> get_text chunk = Return (text_of chunk).
Proof.
  unfold has_text, get_text, text_of. now destruct (key_text chunk).
Qed.

Lemma get_embedding_ok chunk :
  has_embedding chunk = true ->
  get_embedding chunk = Return (embedding_of chunk).
Proof.
  unfold has_embedding, get_embedding, embedding_of.
  now destruct (key_embedding chunk).
Qed.

Lemma get_embedding_missing chunk :
  has_embedding chunk = false ->
  get_embedding chunk = Throw (KeyError "embedding").
Proof.
  unfold has_embedding, get_embedding. now destruct (key_embedding chunk).
Qed.

Lemma traverse_get_text chunks :
  Forall (fun c => has_text c = true) chunks ->
  traverse get_text chunks = Return (map text_of chunks).
Proof.
  intros H. apply traverse_ok. eapply Forall_impl; [exact H|].
  intros c. apply get_text_ok.
Qed.

Lemma attach_map (h : ChunkDict -> vector) chunks :
  attach chunks (map h chunks)
  = map (fun c => set_embedding (h c) c) chunks.
Proof.
  induction chunks as [|c cs IH]; [reflexivity|].
  cbn [map attach]. now rewrite IH.
Qed.

Lemma attach_nil chunks : attach chunks [] = chunks.
Proof. now destruct chunks. Qed.

(** [embed_chunks] with a positive batch size gives every chunk a new
    embedding. *)
Lemma embed_chunks_pos cfg api chunks :
  0 < batch_size cfg ->
  Forall (fun c => has_text c = true) chunks ->
  embed_chunks cfg api chunks
  = Return
      (map (fun c => set_embedding (document_embedding cfg api (text_of c)) c)
         chunks).
Proof.
  intros Hb Ht. unfold embed_chunks.
  rewrite traverse_get_text by assumption. cbn [and_then Return].
  rewrite generate_embeddings_batch_pos by assumption.
  cbn [and_then Return]. rewrite map_map.
  now rewrite (attach_map
                 (fun c => document_embedding cfg api (text_of c))).
Qed.

Lemma traverse_imap {A B C} (f : C -> fallible B) (p : nat -> A -> C)
    (g : nat -> A -> B) (l : list A) :
  (forall k x, l !! k = Some x -> f (p k x) = Return (g k x)) ->
  traverse f (imap p l) = Return (imap g l).
Proof.
  revert p g. induction l as [|x l IH]; intros p g H; [reflexivity|].
  cbn [imap traverse]. rewrite (H 0%nat x eq_refl). cbn [and_then Return].
  rewrite (IH (p ∘ S) (g ∘ S)); [reflexivity|].
  intros k y Hk. apply (H (S k) y Hk).
Qed.

(** The rows of chunks that were just embedded. *)
Lemma prepare_fresh cfg api uuid4 chunks :
  Forall (fun c => has_text c = true) chunks ->
  prepare uuid4
    (map (fun c => set_embedding (document_embedding cfg api (text_of c)) c)
       chunks)
  = Return (imap (fresh_row cfg api uuid4) chunks).
Proof.
  intros Ht. unfold prepare. rewrite imap_fmap.
  apply traverse_imap. intros k c Hk. cbn [fst snd compose].
  assert (Hc : has_text c = true).
  { rewrite Forall_forall in Ht. apply Ht.
    now apply list_elem_of_lookup_2 in Hk. }
  unfold prepare_row, get_text, get_embedding, fresh_row, text_of.
  cbn [set_embedding key_text key_embedding].
  unfold has_text in Hc. destruct (key_text c); [reflexivity | discriminate].
Qed.

(** The rows of chunks that carry an embedding. *)
Lemma prepare_kept uuid4 chunks :
  Forall (fun c => has_text c = true) chunks ->
  Forall (fun c => has_embedding c = true) chunks ->
  prepare uuid4 chunks = Return (imap (kept_row uuid4) chunks).
Proof.
  intros Ht He. unfold prepare.
  apply traverse_imap. intros k c Hk. cbn [fst snd].
  rewrite Forall_forall in Ht, He.
  apply list_elem_of_lookup_2 in Hk.
  unfold prepare_row. rewrite get_text_ok by now apply Ht.
  cbn [and_then Return]. rewrite get_embedding_ok by now apply He.
  reflexivity.
Qed.

(** A chunk without an embedding stops the preparation, if every chunk
    has a text. *)
Lemma prepare_missing {C} uuid4 (p : nat -> ChunkDict -> C)
    (k_of : C -> nat) (c_of : C -> ChunkDict) chunks :
  (forall k c, c_of (p k c) = c) ->
  Forall (fun c => has_text c = true) chunks ->
  Exists (fun c => has_embedding c = false) chunks ->
  traverse (fun kc => prepare_row (uuid4 (k_of kc)) (c_of kc)) (imap p chunks)
  = Throw (KeyError "embedding").
Proof.
  intros Hp Ht. revert p Hp.
  induction Ht as [|c cs Hc _ IH]; intros p Hp Hex.
  - inversion Hex.
  - cbn [imap traverse]. unfold prepare_row at 1. rewrite Hp.
    rewrite get_text_ok by assumption. cbn [and_then Return].
    destruct (has_embedding c) eqn:E.
    + rewrite get_embedding_ok by assumption. cbn [and_then Return].
      rewrite IH; [reflexivity | intros; apply Hp |].
      inversion Hex as [? ? H|]; [congruence | assumption].
    + rewrite get_embedding_missing by assumption. reflexivity.
Qed.

Lemma prepare_throws uuid4 chunks :
  Forall (fun c => has_text c = true) chunks ->
  Exists (fun c => has_embedding c = false) chunks ->
  prepare uuid4 chunks = Throw (KeyError "embedding").
Proof.
  intros Ht Hex. unfold prepare.
  now apply (prepare_missing uuid4 pair fst snd).
Qed.

(** The batches of [add_chunks] for a positive batch size. *)
Lemma batches_pos (n : Z) rows :
  0 < n ->
  exists pending,
    batches n rows = Return pending
    /\ concat pending = rows
    /\ Forall (fun b : list Row => 1 <= len b <= n) pending.
Proof.
  intros Hn. unfold batches. rewrite range_pos by assumption.
  cbn [and_then Return].
  assert (Heq : map (fun i => slice i (Z.min (i + n) (len rows)) rows)
                  (map (fun j => Z.of_nat j * n)
                     (seq 0 (range_length (len rows) n)))
                = map (fun i => slice i (i + n) rows)
                    (map (fun j => Z.of_nat j * n)
                       (seq 0 (range_length (len rows) n)))).
  { rewrite !map_map. apply map_ext. intros j. apply slice_min. nia. }
  rewrite Heq. eexists. split; [reflexivity|]. split.
  - now apply concat_batches.
  - now apply batches_sizes.
Qed.

Lemma batches_neg (n : Z) rows : n < 0 -> batches n rows = Return [].
Proof.
  intros Hn. unfold batches. rewrite range_neg by (unfold len; lia).
  reflexivity.
Qed.

Lemma batches_zero rows : batches 0 rows = Throw zero_step.
Proof. reflexivity. Qed.

Lemma add_batches_accepted rejects collection pending :
  (forall held batch, rejects held batch = None) ->
  add_batches rejects collection pending
  = (collection ++ pending, Return tt).
Proof.
  intros Hr. revert collection.
  induction pending as [|b bs IH]; intros collection; cbn [add_batches].
  - now rewrite app_nil_r.
  - rewrite Hr, IH, <- app_assoc. reflexivity.
Qed.

End IndexingFacts.

(** ** Embedding and storing chunks: theorems *)

Module IndexingExtras.

Import Py PyMore Embedding Store IndexingSpec BatchFacts IndexingFacts.

(** X17.  The batches of [generate_embeddings_batch] do not show in its
    result.  For a positive batch size it returns one embedding per text,
    in the order of the texts: the embedding that [generate_embedding]
    gives for that text and the same task. *)
Theorem X17_batches_do_not_show (cfg : Config) (api : Api)
    (texts : list string) (task : option string) :
  0 < batch_size cfg ->
  generate_embeddings_batch cfg api texts task
  = Return (map (fun text => generate_embedding cfg api text task) texts).
Proof. apply generate_embeddings_batch_pos. Qed.

Lemma X17_batches_do_not_show_witness :
  generate_embeddings_batch pairs by_length ["a"; "bb"; " "]%string None
  = Return
      (map (fun text => generate_embedding pairs by_length text None)
         ["a"; "bb"; " "]%string).
Proof.
  apply (X17_batches_do_not_show pairs by_length ["a"; "bb"; " "]%string None).
  reflexivity.
Defined.

(** X18.  Every embedding has the configured dimension.  When the
    dimension is not negative and the service only returns vectors of that
    dimension, every vector returned by [generate_embeddings_batch] and by
    [embed_query] has it too, also for a blank text and for a failed
    request, which give a zero vector. *)
Theorem X18_embeddings_have_the_dimension (cfg : Config) (api : Api)
    (texts : list string) (task : option string) (vectors : list vector) :
  0 <= dimension cfg ->
  (forall t k v, api t k = Return v -> len v = dimension cfg) ->
  generate_embeddings_batch cfg api texts task = Return vectors ->
  Forall (fun v => len v = dimension cfg) vectors
  /\ (forall query, len (embed_query cfg api query) = dimension cfg).
Proof.
  intros Hd Hapi Hgen. split.
  - destruct (Z.lt_trichotomy (batch_size cfg) 0) as [Hb|[Hb|Hb]].
    + rewrite generate_embeddings_batch_neg in Hgen by assumption.
      unfold Return in Hgen. injection Hgen as <-. apply Forall_nil_2.
    + rewrite generate_embeddings_batch_zero in Hgen by assumption.
      discriminate.
    + rewrite generate_embeddings_batch_pos in Hgen by assumption.
      unfold Return in Hgen. injection Hgen as <-.
      apply Forall_map, Forall_forall. intros text _.
      now apply generate_embedding_length.
  - intros query. now apply generate_embedding_length.
Qed.

Lemma X18_embeddings_have_the_dimension_witness :
  Forall (fun v => len v = 2)
    (map (fun text => generate_embedding pairs by_length text None)
       ["a"; "bb"; " "]%string)
  /\ (forall query, len (embed_query pairs by_length query) = 2).
Proof.
  apply (X18_embeddings_have_the_dimension pairs by_length
           ["a"; "bb"; " "]%string None).
  - simpl. lia.
  - intros t k v H. unfold by_length, Return in H. injection H as <-.
    reflexivity.
  - reflexivity.
Defined.

(** X19.  [add_chunks] with a batch size of the embedding generator that
    is not positive.  When the first chunk has no embedding and every
    chunk has a text, a batch size of 0 raises the [ValueError] of
    [range], and a negative one embeds nothing, so that reading
    ['embedding'] raises a [KeyError]; in both cases nothing is stored. *)
Theorem X19_nonpositive_embedding_batch_size (cfg : Config) (api : Api)
    (uuid4 : nat -> string) (rejects : Rejects) (collection : Collection)
    (first : ChunkDict) (rest : list ChunkDict) (n : Z) :
  batch_size cfg <= 0 ->
  has_embedding first = false ->
  Forall (fun c => has_text c = true) (first :: rest) ->
  add_chunks cfg api uuid4 rejects collection (first :: rest) n
  = (collection,
     Throw (if batch_size cfg =? 0 then zero_step
            else KeyError "embedding")).
Proof.
  intros Hb Hfirst Ht. unfold add_chunks. rewrite Hfirst. cbn [negb].
  unfold embed_chunks. rewrite traverse_get_text by assumption.
  cbn [and_then Return].
  destruct (Z.eqb_spec (batch_size cfg) 0) as [Hz|Hz].
  - rewrite generate_embeddings_batch_zero by assumption. reflexivity.
  - rewrite generate_embeddings_batch_neg by lia.
    cbn [and_then Return]. rewrite attach_nil.
    rewrite prepare_throws; [reflexivity | assumption |].
    now apply Exists_cons_hd.
Qed.

Lemma X19_nonpositive_embedding_batch_size_witness :
  add_chunks (with_batch_size (-1) pairs) by_length numbered accepts []
    [bare "a"; bare "bb"] 100
  = ([], Throw (KeyError "embedding")).
Proof.
  apply (X19_nonpositive_embedding_batch_size (with_batch_size (-1) pairs)
           by_length numbered accepts [] (bare "a") [bare "bb"] 100).
  - simpl. lia.
  - reflexivity.
  - repeat constructor.
Defined.

(** X20.  [add_chunks] stores every chunk once.  When the first chunk has
    no embedding, every chunk has a text, both batch sizes are positive
    and the collection accepts the batches, the call returns and appends
    batches of 1 to [batch_size] rows which, in order, hold one row per
    chunk: its text, its cleaned metadata and a newly generated
    embedding, also for a chunk that already had one. *)
Theorem X20_add_chunks_stores_every_chunk (cfg : Config) (api : Api)
    (uuid4 : nat -> string) (rejects : Rejects) (collection : Collection)
    (first : ChunkDict) (rest : list ChunkDict) (n : Z) :
  0 < batch_size cfg ->
  0 < n ->
  has_embedding first = false ->
  Forall (fun c => has_text c = true) (first :: rest) ->
  (forall held batch, rejects held batch = None) ->
  exists added,
    add_chunks cfg api uuid4 rejects collection (first :: rest) n
    = (collection ++ added, Return tt)
    /\ concat added = imap (fresh_row cfg api uuid4) (first :: rest)
    /\ Forall (fun batch : list Row => 1 <= len batch <= n) added.
Proof.
  intros Hb Hn Hfirst Ht Hr. unfold add_chunks. rewrite Hfirst. cbn [negb].
  rewrite embed_chunks_pos by assumption. cbn [and_then Return].
  rewrite prepare_fresh by assumption. cbn [and_then Return].
  destruct (batches_pos n (imap (fresh_row cfg api uuid4) (first :: rest)) Hn)
    as (pending & Hp & Hcat & Hsz).
  rewrite Hp. unfold Return. exists pending.
  rewrite add_batches_accepted by assumption. now split.
Qed.

Lemma X20_add_chunks_stores_every_chunk_witness :
  exists added,
    add_chunks pairs by_length numbered accepts []
      [bare "a"; embedded "bb" [0%Q]; bare "ccc"] 2
    = ([] ++ added, Return tt)
    /\ concat added
       = imap (fresh_row pairs by_length numbered)
           [bare "a"; embedded "bb" [0%Q]; bare "ccc"]
    /\ Forall (fun batch : list Row => 1 <= len batch <= 2) added.
Proof.
  apply (X20_add_chunks_stores_every_chunk pairs by_length numbered accepts
           [] (bare "a") [embedded "bb" [0%Q]; bare "ccc"] 2).
  - simpl. lia.
  - lia.
  - reflexivity.
  - repeat constructor.
  - reflexivity.
Defined.

(** X22.  The embedding check of [add_chunks] looks at the first chunk
    only.  When the first chunk has an embedding, every chunk has a text
    and a later chunk has no embedding, the call raises
    [KeyError('embedding')] and stores nothing, not even the chunks before
    the incomplete one. *)
Theorem X22_missing_embedding_stores_nothing (cfg : Config) (api : Api)
    (uuid4 : nat -> string) (rejects : Rejects) (collection : Collection)
    (first : ChunkDict) (rest : list ChunkDict) (n : Z) :
  has_embedding first = true ->
  Forall (fun c => has_text c = true) (first :: rest) ->
  Exists (fun c => has_embedding c = false) rest ->
  add_chunks cfg api uuid4 rejects collection (first :: rest) n
  = (collection, Throw (KeyError "embedding")).
Proof.
  intros Hfirst Ht Hex. unfold add_chunks. rewrite Hfirst. cbn [negb].
  cbn [and_then Return].
  rewrite prepare_throws; [reflexivity | assumption |].
  now apply Exists_cons_tl.
Qed.

Lemma X22_missing_embedding_stores_nothing_witness :
  add_chunks pairs by_length numbered accepts []
    [embedded "a" [0%Q]; bare "bb"] 100
  = ([], Throw (KeyError "embedding")).
Proof.
  apply (X22_missing_embedding_stores_nothing pairs by_length numbered
           accepts [] (embedded "a" [0%Q]) [bare "bb"] 100).
  - reflexivity.
  - repeat constructor.
  - apply Exists_cons_hd. reflexivity.
Defined.

(** X23.  Chunks that come with embeddings are stored with them.  When
    every chunk has a text and an embedding, the batch size is positive
    and the collection accepts the batches, [add_chunks] appends batches
    of 1 to [batch_size] rows holding, in order, one row per chunk with
    the chunk's own embedding; the embedding service is not used. *)
Theorem X23_embedded_chunks_are_stored_as_they_are (cfg : Config)
    (api : Api) (uuid4 : nat -> string) (rejects : Rejects)
    (collection : Collection) (chunks : list ChunkDict) (n : Z) :
  0 < n ->
  Forall (fun c => has_text c = true) chunks ->
  Forall (fun c => has_embedding c = true) chunks ->
  (forall held batch, rejects held batch = None) ->
  exists added,
    add_chunks cfg api uuid4 rejects collection chunks n
    = (collection ++ added, Return tt)
    /\ concat added = imap (kept_row uuid4) chunks
    /\ Forall (fun batch : list Row => 1 <= len batch <= n) added.
Proof.
  intros Hn Ht He Hr. unfold add_chunks.
  destruct chunks as [|first rest].
  { exists []. rewrite app_nil_r. repeat split. apply Forall_nil_2. }
  pose proof (Forall_inv He) as Hfirst. cbn beta in Hfirst.
  rewrite Hfirst. cbn [negb and_then Return].
  rewrite prepare_kept by assumption. cbn [and_then Return].
  destruct (batches_pos n (imap (kept_row uuid4) (first :: rest)) Hn)
    as (pending & Hp & Hcat & Hsz).
  rewrite Hp. unfold Return. exists pending.
  rewrite add_batches_accepted by assumption. now split.
Qed.

Lemma X23_embedded_chunks_are_stored_as_they_are_witness :
  exists added,
    add_chunks pairs by_length numbered accepts []
      [embedded "a" [0%Q]; embedded "bb" [1%Q]; embedded "ccc" [2%Q]] 2
    = ([] ++ added, Return tt)
    /\ concat added
       = imap (kept_row numbered)
           [embedded "a" [0%Q]; embedded "bb" [1%Q]; embedded "ccc" [2%Q]]
    /\ Forall (fun batch : list Row => 1 <= len batch <= 2) added.
Proof.
  apply (X23_embedded_chunks_are_stored_as_they_are pairs by_length numbered
           accepts []
           [embedded "a" [0%Q]; embedded "bb" [1%Q]; embedded "ccc" [2%Q]]
           2).
  - lia.
  - repeat constructor.
  - repeat constructor.
  - reflexivity.
Defined.

(** X24.  A batch size of [add_chunks] that is not positive stores
    nothing.  For chunks that all have a text and an embedding, a batch
    size of 0 raises the [ValueError] of [range], and a negative batch
    size makes the call return normally without a single [add]. *)
Theorem X24_nonpositive_batch_size_stores_nothing (cfg : Config)
    (api : Api) (uuid4 : nat -> string) (rejects : Rejects)
    (collection : Collection) (chunks : list ChunkDict) (n : Z) :
  n <= 0 ->
  Forall (fun c => has_text c = true) chunks ->
  Forall (fun c => has_embedding c = true) chunks ->
  add_chunks cfg api uuid4 rejects collection chunks n
  = (collection,
     if nonempty chunks && (n =? 0) then Throw zero_step else Return tt).
Proof.
  intros Hn Ht He. unfold add_chunks.
  destruct chunks as [|first rest]; [reflexivity|].
  pose proof (Forall_inv He) as Hfirst. cbn beta in Hfirst.
  rewrite Hfirst. cbn [negb and_then Return nonempty andb].
  rewrite prepare_kept by assumption. cbn [and_then Return].
  destruct (Z.eqb_spec n 0) as [->|Hz].
  - rewrite batches_zero. reflexivity.
  - rewrite batches_neg by lia. reflexivity.
Qed.

Lemma X24_nonpositive_batch_size_stores_nothing_witness :
  add_chunks pairs by_length numbered accepts []
    [embedded "a" [0%Q]; embedded "bb" [1%Q]] (-5)
  = ([], Return tt).
Proof.
  apply (X24_nonpositive_batch_size_stores_nothing pairs by_length numbered
           accepts [] [embedded "a" [0%Q]; embedded "bb" [1%Q]] (-5)).
  - lia.
  - repeat constructor.
  - repeat constructor.
Defined.

End IndexingExtras.

(** ** From pages to stored rows *)

Module IngestExtras.

Import Py PyMore Chunker ChunkerSpec ChunkerFacts TraceFacts.
Import Embedding Store IndexingSpec.

Lemma reindex_lookup l k c :
  reindex l !! k = Some c ->
  exists c0, l !! k = Some c0 /\ c = set_chunk_id (Z.of_nat k) c0.
Proof.
  rewrite reindex_imap, list_lookup_imap. intros H.
  destruct (l !! k) as [c0|]; [|discriminate].
  cbn in H. injection H as <-. now exists c0.
Qed.

(** X21.  What is stored for a chunk of [chunk_document_pages].  The
    metadata that [add_chunks] stores for the chunk at position [k] has
    exactly five keys: ['chunk_id'] is [k], ['word_count'] is the number
    of words of the text, ['page_number'] is the number of a page of the
    input, ['document_title'] and ['filename'] are those of the document
    ([''] when missing).  The extraction method and the author are not
    stored. *)
Theorem X21_stored_metadata_of_a_page_chunk (cfg : Chunker.Config)
    (pages : list Page) (doc : option dict) (k : nat) (c : Chunk) :
  chunk_document_pages cfg pages doc !! k = Some c ->
  let m := clean_metadata (of_chunk c) in
  m !! "chunk_id"%string = Some (VInt (Z.of_nat k))
  /\ m !! "word_count"%string = Some (VInt (count_words (text c)))
  /\ (exists page,
        In page pages
        /\ m !! "page_number"%string
           = Some (VInt (default 0 (page_number page))))
  /\ m !! "document_title"%string
     = Some (default (VStr "") (doc ≫= (fun d => d !! "title"%string)))
  /\ m !! "filename"%string
     = Some (default (VStr "") (doc ≫= (fun d => d !! "filename"%string)))
  /\ (forall key,
        m !! key <> None ->
        In key ["chunk_id"; "page_number"; "document_title"; "filename";
                "word_count"]%string).
Proof.
  intros Hk m. unfold chunk_document_pages in Hk.
  apply reindex_lookup in Hk. destruct Hk as (c0 & Hc0 & ->).
  rewrite fold_page_step in Hc0. cbn [app] in Hc0.
  apply list_elem_of_lookup_2, list_elem_of_In, in_concat in Hc0.
  destruct Hc0 as (l & Hl & Hin).
  apply in_map_iff in Hl. destruct Hl as (page & <- & Hpage).
  unfold page_chunks in Hin. apply list_elem_of_In in Hin.
  pose proof (create_chunks_metadata cfg
                (default EmptyString (page_text page))
                (Some (page_metadata doc page))) as Hmeta.
  pose proof (create_chunks_counts cfg
                (default EmptyString (page_text page))
                (Some (page_metadata doc page))) as Hcount.
  rewrite Forall_forall in Hmeta, Hcount.
  specialize (Hmeta c0 Hin). specialize (Hcount c0 Hin).
  unfold counts_words in Hcount. cbn [default] in Hmeta.
  subst m. unfold clean_metadata, of_chunk.
  cbn [key_metadata key_chunk_id key_word_count default set_chunk_id
       chunk_id text word_count metadata].
  rewrite Hmeta.
  split; [now simplify_map_eq|].
  split; [simplify_map_eq; unfold count_words; now rewrite Hcount|].
  split.
  { exists page. split; [exact Hpage|]. unfold page_metadata.
    destruct doc as [d|]; [destruct (bool_decide (d = ∅))|];
      now simplify_map_eq. }
  split.
  { unfold page_metadata.
    destruct doc as [d|]; [destruct (bool_decide (d = ∅)) eqn:E|];
      simplify_map_eq; try reflexivity.
    apply bool_decide_eq_true in E. subst d. now rewrite lookup_empty. }
  split.
  { unfold page_metadata.
    destruct doc as [d|]; [destruct (bool_decide (d = ∅)) eqn:E|];
      simplify_map_eq; try reflexivity.
    apply bool_decide_eq_true in E. subst d. now rewrite lookup_empty. }
  intros key Hkey.
  destruct (decide (key = "word_count"%string)) as [->|H1];
    [cbn; tauto|].
  destruct (decide (key = "filename"%string)) as [->|H2]; [cbn; tauto|].
  destruct (decide (key = "document_title"%string)) as [->|H3];
    [cbn; tauto|].
  destruct (decide (key = "page_number"%string)) as [->|H4]; [cbn; tauto|].
  destruct (decide (key = "chunk_id"%string)) as [->|H5]; [cbn; tauto|].
  exfalso. apply Hkey.
  rewrite !lookup_insert_ne by congruence. apply lookup_empty.
Qed.

Lemma X21_stored_metadata_of_a_page_chunk_witness :
  let c :=
    {| chunk_id := 0; text := "One two three."; word_count := 3;
       metadata :=
         page_metadata None
           {| page_number := Some 4;
              page_text := Some "One two three."%string;
              method := None |} |} in
  let m := clean_metadata (of_chunk c) in
  m !! "chunk_id"%string = Some (VInt (Z.of_nat 0))
  /\ m !! "word_count"%string = Some (VInt (count_words (text c)))
  /\ (exists page,
        In page
          [ {| page_number := Some 4;
               page_text := Some "One two three."%string;
               method := None |} ]
        /\ m !! "page_number"%string
           = Some (VInt (default 0 (page_number page))))
  /\ m !! "document_title"%string
     = Some (default (VStr "") (None ≫= (fun d : dict => d !! "title"%string)))
  /\ m !! "filename"%string
     = Some (default (VStr "")
               (None ≫= (fun d : dict => d !! "filename"%string)))
  /\ (forall key,
        m !! key <> None ->
        In key ["chunk_id"; "page_number"; "document_title"; "filename";
                "word_count"]%string).
Proof.
  exact (X21_stored_metadata_of_a_page_chunk
           {| chunk_size_words := 10; overlap_words := 3;
              min_chunk_size := 1 |}
           [ {| page_number := Some 4;
                page_text := Some "One two three."%string; method := None |} ]
           None 0%nat _ eq_refl).
Defined.

End IngestExtras.

(** ** Contexts, prompts and citations *)

Module AnswerFacts.

Import Py PyMore Retrieval RetrievalSpec Answer AnswerSpec.

Lemma append_assoc (a b c : string) :
  String.append (String.append a b) c = String.append a (String.append b c).
Proof.
  induction a as [|x a IH]; [reflexivity|].
  change (String x (String.append (String.append a b) c)
          = String x (String.append a (String.append b c))).
  now f_equal.
Qed.

Lemma append_nil_r (a : string) : String.append a EmptyString = a.
Proof.
  induction a as [|x a IH]; [reflexivity|].
  change (String x (String.append a EmptyString) = String x a).
  now f_equal.
Qed.

Lemma contains_refl s : contains s s.
Proof. exists EmptyString, EmptyString. cbn. now rewrite append_nil_r. Qed.

Lemma contains_append_r part a b :
  contains part b -> contains part (String.append a b).
Proof.
  intros (before & after & ->). exists (String.append a before), after.
  now rewrite append_assoc.
Qed.

Lemma contains_append_l part a b :
  contains part a -> contains part (String.append a b).
Proof.
  intros (before & after & ->). exists before, (String.append after b).
  now rewrite !append_assoc.
Qed.

Lemma contains_trans a b c : contains a b -> contains b c -> contains a c.
Proof.
  intros Hab (before & after & ->).
  now apply contains_append_r, contains_append_l.
Qed.

(** A joined string contains each of its parts. *)
Lemma contains_join sep part parts :
  In part parts -> contains part (join sep parts).
Proof.
  induction parts as [|p ps IH]; [intros []|].
  intros [->|Hin].
  - destruct ps as [|q ps]; [apply contains_refl|].
    cbn [join]. apply contains_append_l, contains_refl.
  - destruct ps as [|q ps]; [destruct Hin|].
    change (join sep (p :: q :: ps))
      with (String.append p (String.append sep (join sep (q :: ps)))).
    now apply contains_append_r, contains_append_r, IH.
Qed.

Lemma map_enumerate {A B} (f : Z -> A -> B) (l : list A) :
  map (fun ix => f (fst ix) (snd ix)) (enumerate l)
  = imap (fun i x => f (Z.of_nat i) x) l.
Proof.
  unfold enumerate.
  change (map (fun ix => f (fst ix) (snd ix))
            (imap (fun i x => (Z.of_nat i, x)) l))
    with ((fun ix => f (fst ix) (snd ix))
            <$> imap (fun i x => (Z.of_nat i, x)) l).
  rewrite fmap_imap. reflexivity.
Qed.







(** The context holds the part of every result. *)
Lemma format_context_parts results i r :
  results !! i = Some r ->
  contains (context_part (Z.of_nat i) r) (format_context results).
Proof.
  intros Hi. unfold format_context.
  destruct results as [|r0 rs]; [discriminate|]. cbn [nonempty negb].
  apply contains_join.
  rewrite (map_enumerate context_part). apply list_elem_of_In.
  now apply (elem_of_lookup_imap_2
               (fun i x => context_part (Z.of_nat i) x) _ r i).
Qed.

Lemma context_part_text i r : contains (text r) (context_part i r).
Proof.
  unfold context_part. cbn zeta.
  repeat apply contains_append_r. apply contains_refl.
Qed.

Lemma create_prompt_context question context :
  contains context (create_prompt question context).
Proof.
  unfold create_prompt. apply contains_join. cbn. tauto.
Qed.

Lemma create_prompt_question question context :
  contains question (create_prompt question context).
Proof.
  unfold create_prompt.
  apply (contains_trans _ (String.append "QUESTION: " question)).
  - apply contains_append_r, contains_refl.
  - apply contains_join. cbn. tauto.
Qed.

End AnswerFacts.

(** ** Answers: theorems *)

Module AnswerExtras.

Import Py PyMore Retrieval RetrievalSpec.
Import PipelineFacts OriginFacts RetrievalMoreFacts RetrievalExtras.
Import Answer AnswerSpec AnswerFacts.
Local Open Scope Q_scope.






(** X26.  Every retrieved chunk reaches the model.  The prompt that
    [answer_question] builds contains the question and, for the chunk at
    position [i], its context part: the label [Source i+1] with title and
    page, a line feed and the text of the chunk, unchanged. *)
Theorem X26_prompt_holds_every_chunk (question : string)
    (retrieved_chunks : list SearchResult) (i : nat) (r : SearchResult) :
  retrieved_chunks !! i = Some r ->
  let prompt := create_prompt question (format_context retrieved_chunks) in
  contains question prompt
  /\ contains (context_part (Z.of_nat i) r) prompt
  /\ contains (text r) prompt.
Proof.
  intros Hi prompt. split; [apply create_prompt_question|].
  assert (H : contains (context_part (Z.of_nat i) r) prompt).
  { apply (contains_trans _ (format_context retrieved_chunks)).
    - now apply format_context_parts.
    - apply create_prompt_context. }
  split; [exact H|].
  apply (contains_trans _ (context_part (Z.of_nat i) r));
    [apply context_part_text | exact H].
Qed.

Lemma X26_prompt_holds_every_chunk_witness :
  let r := format_result true (row "a" "alpha" (1 # 10)) in
  let prompt := create_prompt "What is alpha?" (format_context [r]) in
  contains "What is alpha?" prompt
  /\ contains (context_part (Z.of_nat 0) r) prompt
  /\ contains (text r) prompt.
Proof.
  exact (X26_prompt_holds_every_chunk "What is alpha?"
           [format_result true (row "a" "alpha" (1 # 10))] 0%nat _ eq_refl).
Defined.

End AnswerExtras.
